(** * Wedding budget pages: a shallow embedding of [js/index.js] and [js/item.js]

    The budget page keeps a canonical array of line items
    ([originalData]), derives a filtered and sorted view from it
    ([filteredData]), writes a summary line, and lets the visitor edit
    rows in place with one repository call per blurred field.  This
    development embeds that logic, together with the [escapeHtml]
    helper of [js/item.js], and proves the properties the specification
    states for them.  It then embeds the rest of the list page that is
    a function of the state (the cells of a row, the category list, the
    amounts of the metric cards) and the item page of [js/item.js]
    ([Module Detail]), and proves further properties of both.

    Modelling conventions.
    - A JavaScript value is a [jsval]: [undefined], [null], a number or
      a string.  Numbers are integers ([Z]): the integer-valued doubles
      on which [+], [-], [*], comparison and [String()] do not round.
      [NaN], the infinities and fractional amounts are outside the model.
    - Strings are sequences of 8-bit characters; [toLowerCase] acts on
      the letters A to Z and [trim] on the ASCII white space.
    - Item objects live in an object store ([heap]); the two arrays hold
      references, so a mutation through one alias is seen through all
      of them, as in the source.
    - [Array.prototype.sort] is a stable insertion sort that calls the
      comparator as [cmp x y] with [x] the entry that came first.  On
      distinct entries and a consistent comparator every stable sort
      returns the same list ([stable_sort_unique]).
    - An [await] splits a handler in two: the code before it runs when
      the event fires and leaves a continuation in [pending]; the code
      after it runs when the reply arrives, possibly after other events.
    - A [TypeError] raised by a method call on a value that is not a
      string aborts the running handler and keeps the mutations made so
      far.
    - Of the list page itself the state keeps the three filter
      controls, the summary line, the value written back into an input
      and the banners; the cells of a row, the category list and the
      amounts of the metric cards are functions of it ([renderRow],
      [populateCategoryFilter], [updateMetrics]).  The inputs of
      [enterEditMode] with the variables [currentEditingRow] and
      [editingItemBackup], the sort indicators, and the percentage, the
      bar and the status classes of the metric cards are left out; a
      blur or a delete may come from the row of any object. *)

From Stdlib Require Import ZArith String Ascii List Bool Lia.
From Stdlib Require Import Permutation Sorted DecimalString DecimalZ.
From stdpp Require Import base list strings.

Open Scope string_scope.
Open Scope list_scope.
Open Scope Z_scope.

(** ** JavaScript strings *)

Module JsString.

Definition isWhiteSpace (c : ascii) : bool :=
  existsb (Ascii.eqb c) [" "; "009"; "010"; "011"; "012"; "013"]%char.

Definition isEmpty (s : string) : bool :=
  match s with EmptyString => true | String _ _ => false end.

Fixpoint trimStart (s : string) : string :=
  match s with
  | EmptyString => EmptyString
  | String c s' => if isWhiteSpace c then trimStart s' else s
  end.

Fixpoint trimEnd (s : string) : string :=
  match s with
  | EmptyString => EmptyString
  | String c s' =>
      let r := trimEnd s' in
      if isEmpty r && isWhiteSpace c then EmptyString else String c r
  end.

Definition trim (s : string) : string := trimEnd (trimStart s).

Definition lowerChar (c : ascii) : ascii :=
  let n := N_of_ascii c in
  if ((65 <=? n) && (n <=? 90))%N then ascii_of_N (n + 32) else c.

Fixpoint toLowerCase (s : string) : string :=
  match s with
  | EmptyString => EmptyString
  | String c s' => String (lowerChar c) (toLowerCase s')
  end.

Definition startsWith (s p : string) : bool := String.prefix p s.

Fixpoint includes (s t : string) : bool :=
  String.prefix t s ||
  match s with
  | EmptyString => false
  | String _ s' => includes s' t
  end.

(** [s.replace(/c/g, r)] for a one-character pattern. *)
Fixpoint replaceAll (c : ascii) (r : string) (s : string) : string :=
  match s with
  | EmptyString => EmptyString
  | String d s' =>
      if Ascii.eqb d c then (r ++ replaceAll c r s')%string
      else String d (replaceAll c r s')
  end.

(** [s.replace(/[A-Z]/g, letter => `_${letter.toLowerCase()}`)] *)
Fixpoint camelToSnake (s : string) : string :=
  match s with
  | EmptyString => EmptyString
  | String c s' =>
      let n := N_of_ascii c in
      if ((65 <=? n) && (n <=? 90))%N
      then String "_" (String (lowerChar c) (camelToSnake s'))
      else String c (camelToSnake s')
  end.

Fixpoint contains (c : ascii) (s : string) : bool :=
  match s with
  | EmptyString => false
  | String d s' => Ascii.eqb d c || contains c s'
  end.

End JsString.

(** ** JavaScript values *)

Inductive jsval : Type :=
| VUndef
| VNull
| VNum (n : Z)
| VStr (s : string).

Definition isNumber (v : jsval) : bool :=
  match v with VNum _ => true | _ => false end.

Definition isString (v : jsval) : bool :=
  match v with VStr _ => true | _ => false end.

(** [ToBoolean]. *)
Definition truthy (v : jsval) : bool :=
  match v with
  | VUndef | VNull => false
  | VNum n => negb (n =? 0)
  | VStr s => negb (JsString.isEmpty s)
  end.

(** [a === b]. *)
Definition strictEq (a b : jsval) : bool :=
  match a, b with
  | VUndef, VUndef => true
  | VNull, VNull => true
  | VNum x, VNum y => x =? y
  | VStr s, VStr t => String.eqb s t
  | _, _ => false
  end.

Definition numberToString (n : Z) : string :=
  NilZero.string_of_int (Z.to_int n).

(** [String(v)]. *)
Definition toString (v : jsval) : string :=
  match v with
  | VUndef => "undefined"
  | VNull => "null"
  | VNum n => numberToString n
  | VStr s => s
  end.

(** [a || b] and the nullish test [v !== null && v !== undefined]. *)
Definition orElse (a b : jsval) : jsval := if truthy a then a else b.

Definition isNullish (v : jsval) : bool :=
  match v with VUndef | VNull => true | _ => false end.

(** ** Budget items and the transform layer *)

Record Item : Type := mkItem {
  id : jsval;
  category : jsval;
  item : jsval;
  required : jsval;
  notes : jsval;
  unitCost : jsval;
  quantity : jsval;
  subTotal : jsval;
  mdContent : jsval;
  html : jsval
}.

(** [it[key]] for a property name computed at run time. *)
Definition getProp (key : string) (it : Item) : jsval :=
  if String.eqb key "id" then id it
  else if String.eqb key "category" then category it
  else if String.eqb key "item" then item it
  else if String.eqb key "required" then required it
  else if String.eqb key "notes" then notes it
  else if String.eqb key "unitCost" then unitCost it
  else if String.eqb key "quantity" then quantity it
  else if String.eqb key "subTotal" then subTotal it
  else if String.eqb key "mdContent" then mdContent it
  else if String.eqb key "html" then html it
  else VUndef.

(** The [data-field] values of the inputs that [enterEditMode] builds. *)
Inductive Field : Type := FCategory | FItem | FRequired | FUnitCost | FQuantity.

Definition fieldName (f : Field) : string :=
  match f with
  | FCategory => "category"
  | FItem => "item"
  | FRequired => "required"
  | FUnitCost => "unitCost"
  | FQuantity => "quantity"
  end.

Definition isNumericField (f : Field) : bool :=
  match f with FUnitCost | FQuantity => true | _ => false end.

Definition getField (f : Field) (it : Item) : jsval := getProp (fieldName f) it.

(** [it[field] = v], also [{ ...it, [field]: v }] on a copy. *)
Definition setField (f : Field) (v : jsval) (it : Item) : Item :=
  match f with
  | FCategory => mkItem (id it) v (item it) (required it) (notes it)
                   (unitCost it) (quantity it) (subTotal it) (mdContent it) (html it)
  | FItem => mkItem (id it) (category it) v (required it) (notes it)
               (unitCost it) (quantity it) (subTotal it) (mdContent it) (html it)
  | FRequired => mkItem (id it) (category it) (item it) v (notes it)
                   (unitCost it) (quantity it) (subTotal it) (mdContent it) (html it)
  | FUnitCost => mkItem (id it) (category it) (item it) (required it) (notes it)
                   v (quantity it) (subTotal it) (mdContent it) (html it)
  | FQuantity => mkItem (id it) (category it) (item it) (required it) (notes it)
                   (unitCost it) v (subTotal it) (mdContent it) (html it)
  end.

(** A row of the [budget_items] table as the repository sends and
    receives it ([created_at] and [updated_at] are never read). *)
Module Db.
Record row : Type := mkRow {
  id : jsval;
  category : jsval;
  item : jsval;
  required : jsval;
  notes : jsval;
  unit_cost : jsval;
  quantity : jsval;
  sub_total : jsval;
  md_content : jsval;
  html : jsval
}.
End Db.

Definition transformItem (dbItem : Db.row) : Item :=
  {| id := Db.id dbItem;
     category := Db.category dbItem;
     item := Db.item dbItem;
     required := Db.required dbItem;
     notes := Db.notes dbItem;
     unitCost := Db.unit_cost dbItem;
     quantity := Db.quantity dbItem;
     subTotal := Db.sub_total dbItem;
     mdContent := Db.md_content dbItem;
     html := Db.html dbItem |}.

(** The object literal of [transformToDb] has no [id] key. *)
Definition transformToDb (it : Item) : Db.row :=
  {| Db.id := VUndef;
     Db.category := category it;
     Db.item := item it;
     Db.required := required it;
     Db.notes := notes it;
     Db.unit_cost := orElse (unitCost it) VNull;
     Db.quantity := orElse (quantity it) VNull;
     Db.sub_total := orElse (subTotal it) VNull;
     Db.md_content := orElse (mdContent it) VNull;
     Db.html := VNull |}.

(** [typeof id === 'string' && id.startsWith('new-item-temp-')] *)
Definition isNewItemId (v : jsval) : bool :=
  match v with
  | VStr s => JsString.startsWith s "new-item-temp-"
  | _ => false
  end.

Definition isNewItem (it : Item) : bool := isNewItemId (id it).

(** ** Subtotal and currency formatting *)

Definition calculateSubTotal (it : Item) : Z :=
  match subTotal it with
  | VNum n => n
  | _ =>
      let cost := match unitCost it with VNum c => c | _ => 0 end in
      let qty := match quantity it with VNum q => q | _ => 1 end in
      cost * qty
  end.

(** [n.toFixed(2)] on an integer. *)
Definition toFixed2 (n : Z) : string := (numberToString n ++ ".00")%string.

Definition formatCurrency (value : jsval) (raw : bool) : string :=
  match value with
  | VNum n => let formatted := toFixed2 n in
              if raw then formatted else ("$" ++ formatted)%string
  | _ => ""
  end.

(** ** The filter predicate of [applyFilters] *)

Record Controls : Type := mkControls {
  searchInput : string;      (* #searchInput .value *)
  categoryFilter : string;   (* #categoryFilter .value *)
  requiredFilter : bool      (* #requiredFilter .checked *)
}.

(** [v && p(v.toLowerCase())]: [None] is the [TypeError] of calling
    [toLowerCase] on a truthy value that is not a string. *)
Definition lowerTest (p : string -> bool) (v : jsval) : option bool :=
  match v with
  | VStr s => Some (negb (JsString.isEmpty s) && p (JsString.toLowerCase s))
  | VNum n => if n =? 0 then Some false else None
  | VUndef | VNull => Some false
  end.

Definition matchesSearch (searchTerm : string) (it : Item) : option bool :=
  if JsString.isEmpty searchTerm then Some true
  else
    match lowerTest (fun s => JsString.includes s searchTerm) (item it) with
    | None => None
    | Some true => Some true
    | Some false =>
        lowerTest (fun s => JsString.includes s searchTerm) (category it)
    end.

Definition matchesCategory (categoryValue : string) (it : Item) : bool :=
  JsString.isEmpty categoryValue || strictEq (category it) (VStr categoryValue).

Definition matchesRequired (requiredOnly : bool) (it : Item) : option bool :=
  if negb requiredOnly then Some true
  else lowerTest (fun s => JsString.startsWith s "y") (required it).

(** The callback handed to [originalData.filter]. *)
Definition filterCallback (c : Controls) (it : Item) : option bool :=
  let searchTerm := JsString.toLowerCase (JsString.trim (searchInput c)) in
  match matchesSearch searchTerm it with
  | None => None
  | Some ms =>
      let mc := matchesCategory (categoryFilter c) it in
      match matchesRequired (requiredFilter c) it with
      | None => None
      | Some mr => Some (ms && mc && mr)
      end
  end.

(** [Array.prototype.filter] with a callback that may throw. *)
Fixpoint arrayFilter {A : Type} (f : A -> option bool) (l : list A)
  : option (list A) :=
  match l with
  | [] => Some []
  | x :: l' =>
      match f x with
      | None => None
      | Some b =>
          match arrayFilter f l' with
          | None => None
          | Some r => Some (if b then x :: r else r)
          end
      end
  end.

(** ** The comparator of [sortData] and [Array.prototype.sort] *)

(** The value compared for an item: [a[key]], replaced by the computed
    subtotal for the subtotal column, then [''] for a missing value. *)
Definition sortValue (key : string) (a : Item) : jsval :=
  let va := getProp key a in
  let va := if String.eqb key "subTotal" then VNum (calculateSubTotal a) else va in
  if isNullish va then VStr "" else va.

Definition compareItems (key : string) (asc : bool) (a b : Item) : Z :=
  let va := sortValue key a in
  let vb := sortValue key b in
  match va, vb with
  | VNum x, VNum y => if asc then x - y else y - x
  | _, _ =>
      let sa := JsString.toLowerCase (toString va) in
      let sb := JsString.toLowerCase (toString vb) in
      if String.ltb sa sb then (if asc then -1 else 1)
      else if String.ltb sb sa then (if asc then 1 else -1)
      else 0
  end.

Fixpoint insertSorted {A : Type} (cmp : A -> A -> Z) (x : A) (l : list A)
  : list A :=
  match l with
  | [] => [x]
  | y :: l' => if cmp x y <=? 0 then x :: l else y :: insertSorted cmp x l'
  end.

Fixpoint arraySort {A : Type} (cmp : A -> A -> Z) (l : list A) : list A :=
  match l with
  | [] => []
  | x :: l' => insertSorted cmp x (arraySort cmp l')
  end.

(** [Array.prototype.findIndex]; [None] is the result [-1]. *)
Fixpoint findIndex {A : Type} (p : A -> bool) (l : list A) : option nat :=
  match l with
  | [] => None
  | x :: l' => if p x then Some O else option_map S (findIndex p l')
  end.

(** ** Object store and page state *)

(** References into the object store. *)
Abbreviation loc := nat (only parsing).

Definition undefinedItem : Item :=
  mkItem VUndef VUndef VUndef VUndef VUndef VUndef VUndef VUndef VUndef VUndef.

(** The object a reference points to. *)
Definition deref (h : list Item) (l : loc) : Item := default undefinedItem (h !! l).

Record SortState : Type := mkSort { key : string; asc : bool }.

(** The three text nodes written by [updateSummary]. *)
Record Summary : Type := mkSummary {
  totalCount : nat;
  visibleCount : nat;
  totalCost : string
}.

(** Requests sent to the repository, as [supabaseClient] receives them. *)
Inductive Call : Type :=
| CallSelect
| CallInsert (payload : Db.row)
| CallUpdate (ident : jsval) (column : string) (value : jsval)
| CallDelete (ident : jsval).

(** What a repository call comes back with: [{ error }], an exception
    caught by the [try], or [{ data }]. *)
Inductive Reply : Type :=
| RError
| RThrown
| RData (data : list Db.row).

(** The rest of an [async] handler after its [await], with the
    variables it closes over. *)
Inductive Cont : Type :=
| KCreate (it : loc) (field : Field)
| KUpdate (it : loc) (field : Field) (newValue oldValue : jsval)
| KDelete (ident : jsval).

(** What a handler does to the page besides the table body. *)
Inductive UiEffect : Type :=
| ShowError (message : string)
| ShowSuccess (message : string)
| CellSaving (it : loc) (field : Field)
| CellSaved (it : loc) (field : Field)
| CellError (it : loc) (field : Field)
| SetInputValue (it : loc) (field : Field) (value : string).

Record State : Type := mkState {
  heap : list Item;
  originalData : list loc;
  filteredData : list loc;
  currentSort : SortState;
  controls : Controls;
  summary : Summary;
  calls : list Call;
  pending : list Cont;
  ui : list UiEffect
}.

Definition setHeap (h : list Item) (s : State) : State :=
  mkState h (originalData s) (filteredData s) (currentSort s) (controls s)
    (summary s) (calls s) (pending s) (ui s).
Definition setOriginalData (od : list loc) (s : State) : State :=
  mkState (heap s) od (filteredData s) (currentSort s) (controls s)
    (summary s) (calls s) (pending s) (ui s).
Definition setFilteredData (fd : list loc) (s : State) : State :=
  mkState (heap s) (originalData s) fd (currentSort s) (controls s)
    (summary s) (calls s) (pending s) (ui s).
Definition setCurrentSort (c : SortState) (s : State) : State :=
  mkState (heap s) (originalData s) (filteredData s) c (controls s)
    (summary s) (calls s) (pending s) (ui s).
Definition setControls (c : Controls) (s : State) : State :=
  mkState (heap s) (originalData s) (filteredData s) (currentSort s) c
    (summary s) (calls s) (pending s) (ui s).
Definition setSummary (m : Summary) (s : State) : State :=
  mkState (heap s) (originalData s) (filteredData s) (currentSort s) (controls s)
    m (calls s) (pending s) (ui s).
Definition setCalls (c : list Call) (s : State) : State :=
  mkState (heap s) (originalData s) (filteredData s) (currentSort s) (controls s)
    (summary s) c (pending s) (ui s).
Definition setPending (p : list Cont) (s : State) : State :=
  mkState (heap s) (originalData s) (filteredData s) (currentSort s) (controls s)
    (summary s) (calls s) p (ui s).
Definition setUi (u : list UiEffect) (s : State) : State :=
  mkState (heap s) (originalData s) (filteredData s) (currentSort s) (controls s)
    (summary s) (calls s) (pending s) u.

(** ** Handlers: state passing with an exception *)

Definition Handler (A : Type) : Type := State -> option A * State.

#[global] Instance Handler_ret : MRet Handler :=
  fun A (a : A) (s : State) => (Some a, s).

#[global] Instance Handler_bind : MBind Handler :=
  fun A B (f : A -> Handler B) (m : Handler A) (s : State) =>
    match m s with
    | (Some a, s') => f a s'
    | (None, s') => (None, s')
    end.

Definition gets {A : Type} (f : State -> A) : Handler A :=
  fun s => (Some (f s), s).

Definition modify (f : State -> State) : Handler unit :=
  fun s => (Some tt, f s).

Definition throw {A : Type} : Handler A := fun s => (None, s).

(** The state a handler leaves behind, whether it returned or threw. *)
Definition run {A : Type} (h : Handler A) (s : State) : State := (h s).2.

Definition emit (e : UiEffect) : Handler unit :=
  modify (fun s => setUi (ui s ++ [e]) s).

Definition request (c : Call) : Handler unit :=
  modify (fun s => setCalls (calls s ++ [c]) s).

Definition await (k : Cont) : Handler unit :=
  modify (fun s => setPending (pending s ++ [k]) s).

(** A fresh object; the result is its reference. *)
Definition alloc (it : Item) : Handler loc :=
  fun s => (Some (length (heap s)), setHeap (heap s ++ [it]) s).

Definition read (l : loc) : Handler Item := gets (fun s => deref (heap s) l).

Definition write (l : loc) (it : Item) : Handler unit :=
  modify (fun s => setHeap (<[l := it]> (heap s)) s).

Definition showError (message : string) : Handler unit := emit (ShowError message).
Definition showSuccess (message : string) : Handler unit := emit (ShowSuccess message).

(** ** The filter, sort and render pipeline *)

Definition applyFilters : Handler unit :=
  s ← gets (fun s => s);
  match arrayFilter (fun l => filterCallback (controls s) (deref (heap s) l))
          (originalData s) with
  | Some fd => modify (setFilteredData fd)
  | None => throw
  end.

Definition sortData : Handler unit :=
  modify (fun s =>
    let key := key (currentSort s) in
    let asc := asc (currentSort s) in
    setFilteredData
      (arraySort (fun a b => compareItems key asc (deref (heap s) a) (deref (heap s) b))
         (filteredData s)) s).

(** The [reduce] of [updateSummary]. *)
Definition sumSubTotals (view : list Item) : Z :=
  fold_left (fun sum it => sum + calculateSubTotal it) view 0.

Definition updateSummary : Handler unit :=
  modify (fun s =>
    let realOriginalData :=
      List.filter (fun l => negb (isNewItem (deref (heap s) l))) (originalData s) in
    let realFilteredData :=
      List.filter (fun l => negb (isNewItem (deref (heap s) l))) (filteredData s) in
    let total := sumSubTotals (map (deref (heap s)) (filteredData s)) in
    setSummary
      {| totalCount := length realOriginalData;
         visibleCount := length realFilteredData;
         totalCost := formatCurrency (VNum total) true |} s).

(** Both branches of [renderTable] end in [updateSummary]; the rows
    themselves are a function of [filteredData]. *)
Definition renderTable : Handler unit :=
  sortData;; updateSummary.

Definition handleFilterChange : Handler unit :=
  applyFilters;; renderTable.

(** [exitEditMode] on a row: the Done button, the Escape key, or
    [enterEditMode] on another row. *)
Definition exitEditMode : Handler unit := renderTable.

(** The click handler that [init] attaches to every sortable header. *)
Definition handleSortClick (k : string) : Handler unit :=
  cur ← gets currentSort;
  (if String.eqb (key cur) k
   then modify (setCurrentSort (mkSort (key cur) (negb (asc cur))))
   else modify (setCurrentSort (mkSort k true)));;
  renderTable.

(** ** Inline editing *)

(** The [value] of the input that lost focus.  A number input holds
    either the empty string or a numeral. *)
Inductive Edit : Type :=
| EditCategory (value : string)
| EditItem (value : string)
| EditRequired (value : string)
| EditUnitCost (value : option Z)
| EditQuantity (value : option Z).

Definition editField (e : Edit) : Field :=
  match e with
  | EditCategory _ => FCategory
  | EditItem _ => FItem
  | EditRequired _ => FRequired
  | EditUnitCost _ => FUnitCost
  | EditQuantity _ => FQuantity
  end.

(** [newValue]: the trimmed text, or for the numeric fields [null] for
    an empty input and the parsed number otherwise. *)
Definition editValue (e : Edit) : jsval :=
  match e with
  | EditCategory v | EditItem v | EditRequired v => VStr (JsString.trim v)
  | EditUnitCost None | EditQuantity None => VNull
  | EditUnitCost (Some n) | EditQuantity (Some n) => VNum n
  end.

(** What the failure branch assigns to [input.value]. *)
Definition revertValue (field : Field) (oldValue : jsval) : string :=
  if isNumericField field
  then (if isNullish oldValue then "" else toString oldValue)
  else toString (orElse oldValue (VStr "")).

Definition sameId (h : list Item) (ident : jsval) (l : loc) : bool :=
  strictEq (id (deref h l)) ident.

Definition handleFieldBlur (it : loc) (e : Edit) : Handler unit :=
  let field := editField e in
  let newValue := editValue e in
  obj ← read it;
  let oldValue := getField field obj in
  if strictEq oldValue newValue then mret tt
  else
    emit (CellSaving it field);;
    if isNewItem obj then
      write it (setField field newValue obj);;
      obj ← read it;
      if truthy (category obj) && truthy (item obj) then
        request (CallInsert (transformToDb obj));;
        await (KCreate it field)
      else emit (CellSaved it field)
    else
      request (CallUpdate (id obj) (JsString.camelToSnake (fieldName field)) newValue);;
      await (KUpdate it field newValue oldValue).

(** [createItem] and [updateItemField] return the transformed first
    row, or [null]; [createItem] also shows a banner on an error. *)
Definition firstRow (r : Reply) : option Item :=
  match r with
  | RData (row :: _) => Some (transformItem row)
  | _ => None
  end.

Definition afterCreate (it : loc) (field : Field) (r : Reply) : Handler unit :=
  (match r with
   | RError => showError "Failed to create item. Please try again."
   | RThrown => showError "An unexpected error occurred. Please try again."
   | RData _ => mret tt
   end);;
  match firstRow r with
  | Some created =>
      c ← alloc created;
      obj ← read it;
      s ← gets (fun s => s);
      (match findIndex (sameId (heap s) (id obj)) (originalData s) with
       | Some index => modify (setOriginalData (<[index := c]> (originalData s)))
       | None => mret tt
       end);;
      write it created;;
      emit (CellSaved it field);;
      applyFilters;;
      renderTable
  | None => emit (CellError it field)
  end.

Definition afterUpdate (it : loc) (field : Field) (newValue oldValue : jsval)
    (r : Reply) : Handler unit :=
  match firstRow r with
  | Some _ =>
      obj ← read it;
      write it (setField field newValue obj);;
      s ← gets (fun s => s);
      (match findIndex (sameId (heap s) (id obj)) (originalData s) with
       | Some index =>
           c ← alloc (setField field newValue
                        (deref (heap s) (default O (originalData s !! index))));
           modify (setOriginalData (<[index := c]> (originalData s)))
       | None => mret tt
       end);;
      emit (CellSaved it field);;
      updateSummary
  | None =>
      emit (SetInputValue it field (revertValue field oldValue));;
      emit (CellError it field);;
      showError ("Failed to update " ++ fieldName field ++ ". Please try again.")%string
  end.

Definition removeById (ident : jsval) : Handler unit :=
  modify (fun s =>
    setOriginalData
      (List.filter (fun l => negb (sameId (heap s) ident l)) (originalData s)) s).

(** The blank record of [addNewItemRow]; [now] is [Date.now()]. *)
Definition newItem (now : Z) : Item :=
  {| id := VStr ("new-item-temp-" ++ numberToString now)%string;
     category := VStr "";
     item := VStr "";
     required := VStr "No";
     notes := VStr "";
     unitCost := VNull;
     quantity := VNull;
     subTotal := VNull;
     mdContent := VStr "";
     html := VUndef |}.

Definition hasNewItem (s : State) : bool :=
  existsb (fun l => isNewItem (deref (heap s) l)) (originalData s).

Definition addNewItemRow (now : Z) : Handler unit :=
  s ← gets (fun s => s);
  if hasNewItem s then
    showError "Please complete or delete the existing new item first."
  else
    l ← alloc (newItem now);
    modify (fun s => setOriginalData (l :: originalData s) s);;
    applyFilters;;
    renderTable.

(** [confirmed] is the answer to the [confirm] dialog, which is only
    shown for a persisted item. *)
Definition handleDelete (ident : jsval) (confirmed : bool) : Handler unit :=
  if isNewItemId ident then
    removeById ident;;
    applyFilters;;
    renderTable
  else if negb confirmed then mret tt
  else
    request (CallDelete ident);;
    await (KDelete ident).

Definition afterDelete (ident : jsval) (r : Reply) : Handler unit :=
  match r with
  | RError => showError "Failed to delete item. Please try again."
  | RThrown => showError "An unexpected error occurred. Please try again."
  | RData _ =>
      removeById ident;;
      applyFilters;;
      renderTable;;
      showSuccess "Item deleted successfully."
  end.

Definition resume (k : Cont) (r : Reply) : Handler unit :=
  match k with
  | KCreate it field => afterCreate it field r
  | KUpdate it field newValue oldValue => afterUpdate it field newValue oldValue r
  | KDelete ident => afterDelete ident r
  end.

(** ** Page life cycle *)

Definition emptySummary : Summary := mkSummary O O "".

(** The module-level variables before [init] runs, on a page whose
    filter controls read [c]. *)
Definition initialState (c : Controls) : State :=
  {| heap := [];
     originalData := [];
     filteredData := [];
     currentSort := mkSort "id" true;
     controls := c;
     summary := emptySummary;
     calls := [];
     pending := [];
     ui := [] |}.

Fixpoint allocAll (items : list Item) : Handler (list loc) :=
  match items with
  | [] => mret []
  | it :: rest =>
      l ← alloc it;
      ls ← allocAll rest;
      mret (l :: ls)
  end.

(** [init] after [fetchAllItems] has answered [r]. *)
Definition init (r : Reply) : Handler unit :=
  request CallSelect;;
  (match r with
   | RError => showError "Failed to load budget items from database. Please refresh the page."
   | RThrown => showError "An unexpected error occurred. Please refresh the page."
   | RData _ => mret tt
   end);;
  ls ← allocAll (match r with RData data => map transformItem data | _ => [] end);
  modify (setOriginalData ls);;
  modify (setFilteredData ls);;
  renderTable.

Inductive Event : Type :=
| EvFilterChange (c : Controls)
| EvSortClick (k : string)
| EvAddItem (now : Z)
| EvBlur (it : loc) (e : Edit)
| EvDelete (ident : jsval) (confirmed : bool)
| EvReply (n : nat) (r : Reply)
| EvExitEdit.

Definition handle (ev : Event) : Handler unit :=
  match ev with
  | EvFilterChange c => modify (setControls c);; handleFilterChange
  | EvSortClick k => handleSortClick k
  | EvAddItem now => addNewItemRow now
  | EvBlur it e => handleFieldBlur it e
  | EvDelete ident confirmed => handleDelete ident confirmed
  | EvReply n r =>
      p ← gets pending;
      match p !! n with
      | Some k => modify (setPending (delete n p));; resume k r
      | None => mret tt
      end
  | EvExitEdit => exitEditMode
  end.

Definition step (s : State) (ev : Event) : State := run (handle ev) s.

Definition steps (s : State) (evs : list Event) : State := fold_left step evs s.

(** ** [escapeHtml] of the detail page

    The earlier, static list page carries the same function, letter for
    letter. *)

Definition escapeHtml (str : jsval) : string :=
  if negb (truthy str) then ""
  else
    JsString.replaceAll "'" "&#039;"
      (JsString.replaceAll "034"%char "&quot;"
         (JsString.replaceAll ">" "&gt;"
            (JsString.replaceAll "<" "&lt;"
               (JsString.replaceAll "&" "&amp;" (toString str))))).

(** ** The category list *)






(** ** The metric cards *)

Definition BUDGET : Z := 40000.

(** The three amounts that [updateMetrics] writes into the cards.  The
    percentage, the progress bar and the status classes are left out. *)
Record Metrics : Type := mkMetrics {
  metricTotalCost : string;
  metricBudget : string;
  metricRemaining : string
}.

Definition updateMetrics (s : State) : Metrics :=
  let realItems :=
    List.filter (fun l => negb (isNewItem (deref (heap s) l))) (originalData s) in
  let totalCost := sumSubTotals (map (deref (heap s)) realItems) in
  let remaining := BUDGET - totalCost in
  {| metricTotalCost := ("$" ++ formatCurrency (VNum totalCost) true)%string;
     metricBudget := ("$" ++ formatCurrency (VNum BUDGET) true)%string;
     metricRemaining :=
       if remaining <? 0
       then ("-$" ++ formatCurrency (VNum (Z.abs remaining)) true)%string
       else ("$" ++ formatCurrency (VNum (Z.abs remaining)) true)%string |}.

(** ** The rows of the table *)

(** Assigning [v] to [textContent]: [null] gives the empty text. *)
Definition textContent (v : jsval) : string :=
  match v with
  | VNull => ""
  | _ => toString v
  end.

(** The seven text cells that [renderTable] builds for an item, and
    the address that a click on one of them opens while the row is not
    being edited ([None]: the cells carry no click handler). *)
Record TableRow : Type := mkTableRow {
  tdId : string;
  tdCategory : string;
  tdItem : string;
  tdRequired : string;
  tdUnitCost : string;
  tdQuantity : string;
  tdSubTotal : string;
  detailLink : option string
}.

Definition renderRow (it : Item) : TableRow :=
  let subTotal := calculateSubTotal it in
  {| tdId := if isNewItem it then "NEW" else textContent (id it);
     tdCategory := textContent (orElse (category it) (VStr ""));
     tdItem := textContent (orElse (item it) (VStr ""));
     tdRequired := textContent (orElse (required it) (VStr ""));
     tdUnitCost := formatCurrency (unitCost it) false;
     tdQuantity :=
       textContent (if negb (isNullish (quantity it)) then quantity it else VStr "1");
     tdSubTotal := formatCurrency (VNum subTotal) false;
     detailLink :=
       if negb (isNewItem it) then Some ("item.html?id=" ++ toString (id it))%string
       else None |}.

(** * The item page: [js/item.js]

    The page loads one item by the [id] of its address, shows its
    markdown text and lets the visitor edit that text.  The model keeps
    the module-level variables, the text area, the two panes, the
    buttons and the banners; the table of contents and the metadata are
    functions of the headings and of the item.  The two timestamps of
    an item, the amounts of the metadata, the print button and the
    section observer are left out. *)

Module Detail.

(** ** [parseInt(s, 10)] *)

Definition digitValue (c : ascii) : option Z :=
  let n := N_of_ascii c in
  if ((48 <=? n) && (n <=? 57))%N then Some (Z.of_N n - 48) else None.

(** The number read from the longest prefix of digits of [s], after the
    digits that gave [acc]; [None]: no digit read. *)
Fixpoint parseDigits (acc : option Z) (s : string) : option Z :=
  match s with
  | EmptyString => acc
  | String c s' =>
      match digitValue c with
      | Some d => parseDigits (Some (10 * default 0 acc + d)) s'
      | None => acc
      end
  end.

(** [None] is [NaN]. *)
Definition parseInt (s : string) : option Z :=
  match JsString.trimStart s with
  | EmptyString => None
  | String c r =>
      if Ascii.eqb c "-" then option_map Z.opp (parseDigits None r)
      else if Ascii.eqb c "+" then parseDigits None r
      else parseDigits None (String c r)
  end.

(** ** Page state *)

Inductive Call : Type :=
| CallFetch (ident : Z)
| CallUpdateMarkdown (ident : jsval) (mdContent : string).

Inductive Cont : Type :=
| KInit
| KSave (newMarkdown : string).

Inductive Banner : Type :=
| ShowError (message : string)
| ShowSuccess (message : string).

(** What [populateMetadata] writes, amounts and timestamps aside;
    [categoryBadge] is [None] when the badge is hidden. *)
Record Metadata : Type := mkMetadata {
  itemTitle : string;
  pageTitle : string;
  categoryBadge : option string;
  requiredBadge : string;
  metaQuantity : string
}.

Record Page : Type := mkPage {
  marked : option (string -> string);  (* [marked.parse], when the library is loaded *)
  markdownEditor : option string;      (* the element's [style.display]; [None]: undefined *)
  currentItem : option Item;
  originalMarkdown : jsval;
  previewDebounceTimer : bool;         (* a timeout is scheduled and has not fired *)
  textarea : string;                   (* [mdTextarea.value] *)
  editing : bool;                      (* [editMode] is shown and [viewMode] hidden *)
  editBtn : bool;                      (* [editBtn] and [printBtn] are displayed *)
  saveBtn : bool;                      (* [saveBtn] and [cancelBtn] are displayed *)
  saveDisabled : bool;
  saveText : string;
  metadata : option Metadata;
  content : string;                    (* [mdContentEl.innerHTML] *)
  livePreview : string;
  listening : bool;                    (* [init] has attached the listeners *)
  calls : list Call;
  pending : list Cont;
  ui : list Banner
}.

Definition setCurrentItem (x : option Item) (p : Page) : Page :=
  mkPage (marked p) (markdownEditor p) x (originalMarkdown p) (previewDebounceTimer p)
    (textarea p) (editing p) (editBtn p) (saveBtn p) (saveDisabled p) (saveText p)
    (metadata p) (content p) (livePreview p) (listening p) (calls p) (pending p) (ui p).

Definition setOriginalMarkdown (x : jsval) (p : Page) : Page :=
  mkPage (marked p) (markdownEditor p) (currentItem p) x (previewDebounceTimer p)
    (textarea p) (editing p) (editBtn p) (saveBtn p) (saveDisabled p) (saveText p)
    (metadata p) (content p) (livePreview p) (listening p) (calls p) (pending p) (ui p).

Definition setPreviewDebounceTimer (x : bool) (p : Page) : Page :=
  mkPage (marked p) (markdownEditor p) (currentItem p) (originalMarkdown p) x
    (textarea p) (editing p) (editBtn p) (saveBtn p) (saveDisabled p) (saveText p)
    (metadata p) (content p) (livePreview p) (listening p) (calls p) (pending p) (ui p).

Definition setTextarea (x : string) (p : Page) : Page :=
  mkPage (marked p) (markdownEditor p) (currentItem p) (originalMarkdown p)
    (previewDebounceTimer p) x (editing p) (editBtn p) (saveBtn p) (saveDisabled p)
    (saveText p) (metadata p) (content p) (livePreview p) (listening p) (calls p)
    (pending p) (ui p).

(** The two panes and the four buttons, as [enterEditMode] and
    [exitEditMode] set them. *)
Definition setMode (edit : bool) (p : Page) : Page :=
  mkPage (marked p) (markdownEditor p) (currentItem p) (originalMarkdown p)
    (previewDebounceTimer p) (textarea p) edit (negb edit) edit (saveDisabled p)
    (saveText p) (metadata p) (content p) (livePreview p) (listening p) (calls p)
    (pending p) (ui p).

Definition setEditBtn (x : bool) (p : Page) : Page :=
  mkPage (marked p) (markdownEditor p) (currentItem p) (originalMarkdown p)
    (previewDebounceTimer p) (textarea p) (editing p) x (saveBtn p) (saveDisabled p)
    (saveText p) (metadata p) (content p) (livePreview p) (listening p) (calls p)
    (pending p) (ui p).

Definition setSaveButton (disabled : bool) (text : string) (p : Page) : Page :=
  mkPage (marked p) (markdownEditor p) (currentItem p) (originalMarkdown p)
    (previewDebounceTimer p) (textarea p) (editing p) (editBtn p) (saveBtn p) disabled
    text (metadata p) (content p) (livePreview p) (listening p) (calls p)
    (pending p) (ui p).

Definition setMetadata (x : option Metadata) (p : Page) : Page :=
  mkPage (marked p) (markdownEditor p) (currentItem p) (originalMarkdown p)
    (previewDebounceTimer p) (textarea p) (editing p) (editBtn p) (saveBtn p)
    (saveDisabled p) (saveText p) x (content p) (livePreview p) (listening p) (calls p)
    (pending p) (ui p).

Definition setContent (x : string) (p : Page) : Page :=
  mkPage (marked p) (markdownEditor p) (currentItem p) (originalMarkdown p)
    (previewDebounceTimer p) (textarea p) (editing p) (editBtn p) (saveBtn p)
    (saveDisabled p) (saveText p) (metadata p) x (livePreview p) (listening p) (calls p)
    (pending p) (ui p).

Definition setLivePreview (x : string) (p : Page) : Page :=
  mkPage (marked p) (markdownEditor p) (currentItem p) (originalMarkdown p)
    (previewDebounceTimer p) (textarea p) (editing p) (editBtn p) (saveBtn p)
    (saveDisabled p) (saveText p) (metadata p) (content p) x (listening p) (calls p)
    (pending p) (ui p).

Definition setListening (x : bool) (p : Page) : Page :=
  mkPage (marked p) (markdownEditor p) (currentItem p) (originalMarkdown p)
    (previewDebounceTimer p) (textarea p) (editing p) (editBtn p) (saveBtn p)
    (saveDisabled p) (saveText p) (metadata p) (content p) (livePreview p) x (calls p)
    (pending p) (ui p).

Definition setCalls (x : list Call) (p : Page) : Page :=
  mkPage (marked p) (markdownEditor p) (currentItem p) (originalMarkdown p)
    (previewDebounceTimer p) (textarea p) (editing p) (editBtn p) (saveBtn p)
    (saveDisabled p) (saveText p) (metadata p) (content p) (livePreview p) (listening p) x
    (pending p) (ui p).

Definition setPending (x : list Cont) (p : Page) : Page :=
  mkPage (marked p) (markdownEditor p) (currentItem p) (originalMarkdown p)
    (previewDebounceTimer p) (textarea p) (editing p) (editBtn p) (saveBtn p)
    (saveDisabled p) (saveText p) (metadata p) (content p) (livePreview p) (listening p)
    (calls p) x (ui p).

Definition setUi (x : list Banner) (p : Page) : Page :=
  mkPage (marked p) (markdownEditor p) (currentItem p) (originalMarkdown p)
    (previewDebounceTimer p) (textarea p) (editing p) (editBtn p) (saveBtn p)
    (saveDisabled p) (saveText p) (metadata p) (content p) (livePreview p) (listening p)
    (calls p) (pending p) x.

(** ** Handlers *)

Definition Handler (A : Type) : Type := Page -> option A * Page.

#[global] Instance Handler_ret : MRet Handler :=
  fun A (a : A) (p : Page) => (Some a, p).

#[global] Instance Handler_bind : MBind Handler :=
  fun A B (f : A -> Handler B) (m : Handler A) (p : Page) =>
    match m p with
    | (Some a, p') => f a p'
    | (None, p') => (None, p')
    end.

Definition gets {A : Type} (f : Page -> A) : Handler A :=
  fun p => (Some (f p), p).

Definition modify (f : Page -> Page) : Handler unit :=
  fun p => (Some tt, f p).

Definition throw {A : Type} : Handler A := fun p => (None, p).

Definition run {A : Type} (h : Handler A) (p : Page) : Page := (h p).2.

Definition request (c : Call) : Handler unit :=
  modify (fun p => setCalls (calls p ++ [c]) p).

Definition await (k : Cont) : Handler unit :=
  modify (fun p => setPending (pending p ++ [k]) p).

Definition showError (message : string) : Handler unit :=
  modify (fun p => setUi (ui p ++ [ShowError message]) p).

Definition showSuccess (message : string) : Handler unit :=
  modify (fun p => setUi (ui p ++ [ShowSuccess message]) p).

(** ** Rendering the markdown text *)

Definition quote : string := String "034"%char EmptyString.

Definition noInformation : string :=
  ("<p style=" ++ quote ++ "color: #6e6e73; font-style: italic;" ++ quote
   ++ ">No additional information provided.</p>")%string.

Definition loadingMessage : string :=
  ("<p style=" ++ quote ++ "text-align: center; padding: 2rem; color: #6e6e73;" ++ quote
   ++ ">Loading item details from database...</p>")%string.

(** [mdContent.trim()] on a number is a [TypeError]. *)
Definition renderMarkdown (mdContent : jsval) : Handler string :=
  if negb (truthy mdContent) then mret noInformation
  else
    match mdContent with
    | VStr s =>
        if String.eqb (JsString.trim s) "" then mret noInformation
        else
          m ← gets marked;
          match m with
          | Some parse => mret (parse s)
          | None => mret ("<pre>" ++ escapeHtml mdContent ++ "</pre>")%string
          end
    | _ => throw
    end.

(** ** Metadata *)

(** [None]: the [TypeError] of [toLowerCase] on a number. *)
Definition populateMetadata (it : Item) : option Metadata :=
  match lowerTest (fun s => String.eqb s "yes") (required it) with
  | None => None
  | Some isRequired =>
      Some {| itemTitle := textContent (orElse (item it) (VStr "Untitled Item"));
              pageTitle := textContent (orElse (item it) (VStr "Item Details"));
              categoryBadge :=
                if truthy (category it) then Some (textContent (category it)) else None;
              requiredBadge := if isRequired then "Required" else "Optional";
              metaQuantity := textContent (orElse (quantity it) (VStr "1")) |}
  end.

(** ** Table of contents *)

Inductive Tag : Type := H2 | H3.

(** A heading of the rendered text; [hid] is its [id], empty when it
    has none. *)
Record Heading : Type := mkHeading {
  tagName : Tag;
  headingText : string;
  hid : string
}.

Record Link : Type := mkLink { href : string; linkText : string }.

(** A top-level entry with the entries nested under it. *)
Definition TocItem : Type := (Link * list Link)%type.

Definition isSlugChar (c : ascii) : bool :=
  let n := N_of_ascii c in
  (((97 <=? n) && (n <=? 122)) || ((48 <=? n) && (n <=? 57)))%N.

(** [s.replace(/[^a-z0-9]+/g, '-')]; [inRun]: the character before was
    part of the run being replaced. *)
Fixpoint replaceRuns (inRun : bool) (s : string) : string :=
  match s with
  | EmptyString => EmptyString
  | String c s' =>
      if isSlugChar c then String c (replaceRuns false s')
      else if inRun then replaceRuns true s'
      else String "-" (replaceRuns true s')
  end.

Fixpoint dropLeadingDashes (s : string) : string :=
  match s with
  | EmptyString => EmptyString
  | String c s' => if Ascii.eqb c "-" then dropLeadingDashes s' else s
  end.

Fixpoint dropTrailingDashes (s : string) : string :=
  match s with
  | EmptyString => EmptyString
  | String c s' =>
      let r := dropTrailingDashes s' in
      if JsString.isEmpty r && Ascii.eqb c "-" then EmptyString else String c r
  end.

(** [s.replace(/^-+|-+$/g, '')] *)
Definition stripDashes (s : string) : string :=
  dropTrailingDashes (dropLeadingDashes s).

(** The id computed from the text of a heading. *)
Definition slug (text : string) : string :=
  stripDashes (replaceRuns false (JsString.toLowerCase (JsString.trim text))).

(** The heading after the first statement of the loop body. *)
Definition withId (index : nat) (h : Heading) : Heading :=
  if JsString.isEmpty (hid h) then
    let id := slug (headingText h) in
    mkHeading (tagName h) (headingText h)
      (if JsString.isEmpty id
       then ("heading-" ++ numberToString (Z.of_nat index))%string
       else id)
  else h.

Definition linkTo (h : Heading) : Link :=
  mkLink ("#" ++ hid h)%string (headingText h).

(** Appends a link to the nested list of the last top-level entry. *)
Fixpoint appendNested (toc : list TocItem) (l : Link) : list TocItem :=
  match toc with
  | [] => []
  | [(top, nested)] => [(top, nested ++ [l])]
  | entry :: rest => entry :: appendNested rest l
  end.

(** One round of the loop, on a heading that has its id; an [H3]
    before the first [H2] gets a link that is attached nowhere. *)
Definition addHeading (toc : list TocItem) (h : Heading) : list TocItem :=
  match tagName h with
  | H2 => toc ++ [(linkTo h, [])]
  | H3 => appendNested toc (linkTo h)
  end.

(** The headings after the first statement of their rounds; [index]
    is the index of the first one. *)
Fixpoint withIds (index : nat) (headings : list Heading) : list Heading :=
  match headings with
  | [] => []
  | h :: rest => withId index h :: withIds (S index) rest
  end.

(** The headings with their ids, and the list shown; [None]: the table
    of contents is hidden and the headings are left as they are. *)
Definition generateTableOfContents (headings : list Heading)
  : list Heading * option (list TocItem) :=
  if (length headings <? 3)%nat then (headings, None)
  else
    let hs := withIds O headings in
    (hs, Some (fold_left addHeading hs [])).

(** ** Editing *)

Definition setMdContent (v : jsval) (it : Item) : Item :=
  mkItem (id it) (category it) (item it) (required it) (notes it) (unitCost it)
    (quantity it) (subTotal it) v (html it).

Definition updateLivePreview : Handler unit :=
  markdown ← gets textarea;
  h ← renderMarkdown (VStr markdown);
  modify (setLivePreview h).

Definition enterEditMode : Handler unit :=
  cur ← gets currentItem;
  match cur with
  | None => throw
  | Some it =>
      modify (setOriginalMarkdown (orElse (mdContent it) (VStr "")));;
      modify (setMode true);;
      orig ← gets originalMarkdown;
      modify (setTextarea (toString orig));;
      updateLivePreview
  end.

Definition exitEditMode : Handler unit := modify (setMode false).

Definition handleTextareaInput : Handler unit :=
  modify (setPreviewDebounceTimer true).

Definition saveMarkdownChanges : Handler unit :=
  newMarkdown ← gets textarea;
  orig ← gets originalMarkdown;
  if strictEq (VStr newMarkdown) orig then exitEditMode
  else
    modify (setSaveButton true "Saving...");;
    cur ← gets currentItem;
    match cur with
    | None => throw
    | Some it =>
        request (CallUpdateMarkdown (id it) newMarkdown);;
        await (KSave newMarkdown)
    end.

(** [saveMarkdownChanges] after [updateMarkdownContent] has answered. *)
Definition afterSave (newMarkdown : string) (r : Reply) : Handler unit :=
  (match r with
   | RError => showError "Failed to save markdown content. Please try again."
   | RThrown => showError "An unexpected error occurred. Please try again."
   | RData _ => mret tt
   end);;
  match firstRow r with
  | Some _ =>
      cur ← gets currentItem;
      match cur with
      | None => throw
      | Some it =>
          modify (setCurrentItem (Some (setMdContent (VStr newMarkdown) it)));;
          h ← renderMarkdown (VStr newMarkdown);
          modify (setContent h);;
          exitEditMode;;
          showSuccess "Markdown content saved successfully!";;
          modify (setSaveButton false "Save")
      end
  | None => modify (setSaveButton false "Save")
  end.

(** [confirmed] is the answer to the [confirm] dialog, shown only when
    the text has changed. *)
Definition cancelEditing (confirmed : bool) : Handler unit :=
  currentMarkdown ← gets textarea;
  orig ← gets originalMarkdown;
  if negb (strictEq (VStr currentMarkdown) orig) && negb confirmed then mret tt
  else
    modify (setTextarea (toString orig));;
    exitEditMode.

Definition handleKeyDown (key : string) (confirmed : bool) : Handler unit :=
  if String.eqb key "Escape" then
    editor ← gets markdownEditor;
    match editor with
    | None => throw
    | Some display =>
        if String.eqb display "block" then cancelEditing confirmed else mret tt
    end
  else mret tt.

(** ** Page life cycle *)

(** The page before [init] runs; [m] is the global [marked]. *)
Definition initialPage (m : option (string -> string)) : Page :=
  {| marked := m; markdownEditor := None; currentItem := None;
     originalMarkdown := VStr ""; previewDebounceTimer := false;
     textarea := ""; editing := false; editBtn := false; saveBtn := false;
     saveDisabled := false; saveText := "Save"; metadata := None;
     content := ""; livePreview := ""; listening := false;
     calls := []; pending := []; ui := [] |}.

(** [init] up to its [await]; [idParam] is the [id] of the query
    string, [None] when the address has none. *)
Definition init (idParam : option string) : Handler unit :=
  modify (setContent loadingMessage);;
  let id :=
    match idParam with
    | Some s => if JsString.isEmpty s then None else parseInt s
    | None => None
    end in
  match id with
  | None =>
      showError "Invalid item ID provided.";;
      modify (setContent "")
  | Some n =>
      request (CallFetch n);;
      await KInit
  end.

(** [init] after [fetchItem] has answered. *)
Definition afterInit (r : Reply) : Handler unit :=
  match firstRow r with
  | None =>
      showError "Item not found in database.";;
      modify (setContent "")
  | Some it =>
      modify (setCurrentItem (Some it));;
      match populateMetadata it with
      | None => throw
      | Some m =>
          modify (setMetadata (Some m));;
          h ← renderMarkdown (mdContent it);
          modify (setContent h);;
          modify (setEditBtn true);;
          modify (setListening true)
      end
  end.

Definition resume (k : Cont) (r : Reply) : Handler unit :=
  match k with
  | KInit => afterInit r
  | KSave newMarkdown => afterSave newMarkdown r
  end.

Inductive Event : Type :=
| EvEdit
| EvInput (text : string)
| EvTimer
| EvSave
| EvCancel (confirmed : bool)
| EvKeyDown (key : string) (confirmed : bool)
| EvReply (n : nat) (r : Reply).

(** A listener runs once [init] has attached it. *)
Definition whenListening (h : Handler unit) : Handler unit :=
  l ← gets listening;
  if l : bool then h else mret tt.

Definition handle (ev : Event) : Handler unit :=
  match ev with
  | EvEdit => whenListening enterEditMode
  | EvInput text => modify (setTextarea text);; whenListening handleTextareaInput
  | EvTimer =>
      t ← gets previewDebounceTimer;
      if t : bool then modify (setPreviewDebounceTimer false);; updateLivePreview
      else mret tt
  | EvSave => whenListening saveMarkdownChanges
  | EvCancel confirmed => whenListening (cancelEditing confirmed)
  | EvKeyDown key confirmed => whenListening (handleKeyDown key confirmed)
  | EvReply n r =>
      p ← gets pending;
      match p !! n with
      | Some k => modify (setPending (delete n p));; resume k r
      | None => mret tt
      end
  end.

Definition step (p : Page) (ev : Event) : Page := run (handle ev) p.

End Detail.

(** * Vocabulary of the properties *)

(** ** Order and position *)

(** [cmp a b <= 0]: the comparator lets [a] stand before [b]. *)
Definition before {A : Type} (cmp : A -> A -> Z) (a b : A) : Prop := cmp a b <= 0.

(** [a] occurs at a smaller index than [b]. *)
Definition precedes {A : Type} (a b : A) (l : list A) : Prop :=
  exists l1 l2 l3, l = l1 ++ a :: l2 ++ b :: l3.

(** The comparator answers a swapped pair with the opposite sign. *)
Definition antisymmetric {A : Type} (cmp : A -> A -> Z) : Prop :=
  forall a b, cmp b a = - cmp a b.

(** [before] is transitive on the elements of [l]. *)
Definition transitiveOn {A : Type} (cmp : A -> A -> Z) (l : list A) : Prop :=
  forall a b c, In a l -> In b l -> In c l ->
                before cmp a b -> before cmp b c -> before cmp a c.

(** The entries of [l] are distinct and no two of them compare equal. *)
Definition noTies {A : Type} (cmp : A -> A -> Z) (l : list A) : Prop :=
  List.NoDup l /\ forall a b, In a l -> In b l -> a <> b -> cmp a b <> 0.

(** The sort state after a click on the header of column [k]. *)
Definition toggled (cur : SortState) (k : string) : SortState :=
  if String.eqb (key cur) k then mkSort (key cur) (negb (asc cur)) else mkSort k true.

(** ** The derived view and its total *)

(** The items the table shows, in display order. *)
Definition view (s : State) : list Item := map (deref (heap s)) (filteredData s).

(** The canonical collection, in load order. *)
Definition canonical (s : State) : list Item := map (deref (heap s)) (originalData s).

(** Unit cost times quantity, a unit cost that is not a number counting
    as 0 and a quantity that is not a number as 1 (for a quantity that
    is a number, [null] or [undefined] this is [quantity ?? 1]). *)
Definition costTimesQuantity (it : Item) : Z :=
  match unitCost it with VNum c => c | _ => 0 end *
  match quantity it with VNum q => q | _ => 1 end.

(** The stored subtotal when it is a number, the product otherwise. *)
Definition storedOrComputed (it : Item) : Z :=
  match subTotal it with
  | VNum n => n
  | _ => costTimesQuantity it
  end.

Definition sumOver (f : Item -> Z) (l : list Item) : Z :=
  fold_right (fun it acc => f it + acc) 0 l.

(** ** The order the sort is claimed to realise *)

Definition coerceMissing (v : jsval) : jsval :=
  match v with
  | VUndef | VNull => VStr ""
  | _ => v
  end.

(** Numeric when both values are numbers, otherwise by the lowercase
    strings, character by character. *)
Definition keyOrder (va vb : jsval) : comparison :=
  match coerceMissing va, coerceMissing vb with
  | VNum x, VNum y => Z.compare x y
  | a, b => String.compare (JsString.toLowerCase (toString a))
              (JsString.toLowerCase (toString b))
  end.

(** The value of the selected column. *)
Definition selectedValue (key : string) (it : Item) : jsval :=
  if String.eqb key "subTotal" then VNum (calculateSubTotal it) else getProp key it.

Definition directed (asc : bool) (c : comparison) : comparison :=
  if asc then c else CompOpp c.

(** The comparator [sortData] hands to [sort], on references. *)
Definition viewCompare (s : State) (a b : loc) : Z :=
  compareItems (key (currentSort s)) (asc (currentSort s))
    (deref (heap s) a) (deref (heap s) b).

(** ** Sample pages *)

Definition blankControls : Controls := mkControls "" "" false.

Definition sampleRow (i : Z) (cat name : string) (cost qty stored : jsval) : Db.row :=
  {| Db.id := VNum i; Db.category := VStr cat; Db.item := VStr name;
     Db.required := VStr "Yes"; Db.notes := VNull;
     Db.unit_cost := cost; Db.quantity := qty; Db.sub_total := stored;
     Db.md_content := VNull; Db.html := VNull |}.

Definition loaded (rows : list Db.row) : State :=
  run (init (RData rows)) (initialState blankControls).

(** One row whose stored subtotal is not its unit cost times quantity. *)
Definition hallRow : Db.row := sampleRow 1 "Venue" "Hall" (VNum 100) (VNum 2) (VNum 999).

(** Two rows of one category. *)
Definition rosesRow : Db.row := sampleRow 1 "Flowers" "Roses" (VNum 50) (VNum 1) VNull.
Definition tulipsRow : Db.row := sampleRow 2 "Flowers" "Tulips" (VNum 30) (VNum 2) VNull.

(** The rows of the scenarios of the specification. *)
Definition venueRow : Db.row := sampleRow 1 "Venue" "Hall" (VNum 1000) (VNum 1) VNull.
Definition twiceHundred : Db.row := sampleRow 1 "Venue" "Hall" (VNum 100) (VNum 2) VNull.
Definition onceFifty : Db.row := sampleRow 2 "Music" "Band" (VNum 50) (VNum 1) VNull.

(** ** The filter the controls are claimed to apply *)

(** The text of the search box without the white space around it. *)
Definition searchTerm (c : Controls) : string := JsString.trim (searchInput c).

(** [term] occurs in the text of [field], letter case aside. *)
Definition ciIncludes (field : jsval) (term : string) : bool :=
  match field with
  | VStr s => JsString.includes (JsString.toLowerCase s) (JsString.toLowerCase term)
  | _ => false
  end.

(** The text of [field] starts with a [y] or a [Y]. *)
Definition ciStartsWithY (field : jsval) : bool :=
  match field with
  | VStr s => JsString.startsWith (JsString.toLowerCase s) "y"
  | _ => false
  end.

Definition matchesControls (c : Controls) (it : Item) : bool :=
  (JsString.isEmpty (searchTerm c)
   || ciIncludes (item it) (searchTerm c)
   || ciIncludes (category it) (searchTerm c))
  && (JsString.isEmpty (categoryFilter c)
      || strictEq (category it) (VStr (categoryFilter c)))
  && (negb (requiredFilter c) || ciStartsWithY (required it)).

(** The three fields the filter reads hold text or nothing, as the
    table's text columns do. *)
Definition textTyped (it : Item) : Prop :=
  isNumber (item it) = false /\
  isNumber (category it) = false /\
  isNumber (required it) = false.

(** ** The store and its invariant *)

(** The part of the state that the view, the summary and the controls
    do not touch. *)
Definition storeOf (s : State) : list Item * list loc * list Call * list Cont :=
  (heap s, originalData s, calls s, pending s).

(** Every reference of the array points into the store. *)
Definition refsValid (h : list Item) (od : list loc) : Prop :=
  Forall (fun l => (l < length h)%nat) od.

(** How many entries of the array carry the id of an unsaved row. *)
Definition countNew (h : list Item) (od : list loc) : nat :=
  length (List.filter (fun l => isNewItem (deref h l)) od).

Definition wellFormed (s : State) : Prop := refsValid (heap s) (originalData s).

(** How many canonical items carry the id of an unsaved row. *)
Definition sentinelCount (s : State) : nat := countNew (heap s) (originalData s).

(** The invariant of the canonical collection, on the store. *)
Definition storeInv (st : list Item * list loc * list Call * list Cont) : Prop :=
  refsValid st.1.1.1 st.1.1.2 /\ (countNew st.1.1.1 st.1.1.2 <= 1)%nat.

(** The repository assigns ids of its own: no row it returns carries
    the id of an unsaved row. *)
Definition persistedRow (r : Db.row) : Prop := isNewItemId (Db.id r) = false.

Definition replyOk (r : Reply) : Prop :=
  match r with
  | RData rows => Forall persistedRow rows
  | RError | RThrown => True
  end.

Definition eventOk (ev : Event) : Prop :=
  match ev with
  | EvReply _ r => replyOk r
  | _ => True
  end.

(** The states of a page: [init] on the answer to the first fetch, then
    any events in any order, replies included. *)
Inductive reachable : State -> Prop :=
| reach_init (c : Controls) (r : Reply) :
    replyOk r -> reachable (run (init r) (initialState c))
| reach_step (s : State) (ev : Event) :
    reachable s -> eventOk ev -> reachable (step s ev).

(** The items [fetchAllItems] returns. *)
Definition fetched (r : Reply) : list Item :=
  match r with
  | RData data => map transformItem data
  | RError | RThrown => []
  end.

(** ** A page with an unsaved row *)

(** The hall is loaded, a row is added at time 17; its object is
    reference 1. *)
Definition withBlankRow : State := step (loaded [hallRow]) (EvAddItem 17).

Definition withCategory : State := step withBlankRow (EvBlur 1%nat (EditCategory "Flowers")).

Definition withBouquet : State := step withCategory (EvBlur 1%nat (EditItem "Bouquet")).

(** The create call has failed; the row still has both fields. *)
Definition afterFailedCreate : State := step withBouquet (EvReply O RError).

(** ** The canonical record of an item *)

(** The first canonical record whose id is [ident], as the
    [findIndex] of [handleFieldBlur] locates it. *)
Definition canonicalRecord (s : State) (ident : jsval) : option Item :=
  match findIndex (sameId (heap s) ident) (originalData s) with
  | Some index => option_map (deref (heap s)) (originalData s !! index)
  | None => None
  end.


(** ** Edits that do not complete the unsaved row *)

(** No edit of the list, applied in turn to [obj], leaves both the
    category and the item non-empty: no save is attempted. *)
Fixpoint staysIncomplete (obj : Item) (es : list Edit) : bool :=
  match es with
  | [] => true
  | e :: es' =>
      let obj' := setField (editField e) (editValue e) obj in
      negb (truthy (category obj') && truthy (item obj')) && staysIncomplete obj' es'
  end.

(** Blurs and failed replies only: no save succeeds. *)
Definition noSuccessfulSave (evs : list Event) : Prop :=
  Forall (fun ev => match ev with
                    | EvBlur _ _ => True
                    | EvReply _ RError | EvReply _ RThrown => True
                    | _ => False
                    end) evs.

(** ** Escaping, character by character *)

Definition escapeChar (c : ascii) : string :=
  if Ascii.eqb c "&" then "&amp;"
  else if Ascii.eqb c "<" then "&lt;"
  else if Ascii.eqb c ">" then "&gt;"
  else if Ascii.eqb c "034" then "&quot;"
  else if Ascii.eqb c "'" then "&#039;"
  else String c EmptyString.

Fixpoint escapeEach (s : string) : string :=
  match s with
  | EmptyString => EmptyString
  | String c s' => (escapeChar c ++ escapeEach s')%string
  end.

(** The five [replace] calls of [escapeHtml], innermost first. *)
Definition replaceChain (s : string) : string :=
  JsString.replaceAll "'" "&#039;"
    (JsString.replaceAll "034"%char "&quot;"
       (JsString.replaceAll ">" "&gt;"
          (JsString.replaceAll "<" "&lt;"
             (JsString.replaceAll "&" "&amp;" s)))).

(** ** Typed columns *)

(** The comparator of [sortData] on two sort values. *)
Definition compareValues (asc : bool) (va vb : jsval) : Z :=
  match va, vb with
  | VNum x, VNum y => if asc then x - y else y - x
  | _, _ =>
      let sa := JsString.toLowerCase (toString va) in
      let sb := JsString.toLowerCase (toString vb) in
      if String.ltb sa sb then (if asc then -1 else 1)
      else if String.ltb sb sa then (if asc then 1 else -1)
      else 0
  end.

(** What a numeric column or the id column holds: a number, nothing, or
    the id of an unsaved row. *)
Definition numberLike (v : jsval) : bool :=
  match v with
  | VNum _ => true
  | VStr s => JsString.isEmpty s || JsString.startsWith s "new-item-temp-"
  | _ => false
  end.

(** The sort values of the view are all text, or all number-like. *)
Definition typedColumn (s : State) : Prop :=
  let vs := map (fun l => sortValue (key (currentSort s)) (deref (heap s) l))
              (filteredData s) in
  Forall (fun v => isString v = true) vs \/ Forall (fun v => numberLike v = true) vs.

(** Rank of a number-like value: nothing, then the numbers in numeric
    order, then the ids of unsaved rows in string order. *)
Definition rankClass (v : jsval) : Z :=
  match v with
  | VNum _ => 1
  | VStr s => if JsString.isEmpty s then 0 else 2
  | _ => 0
  end.

Definition rankLe (va vb : jsval) : Prop :=
  rankClass va < rankClass vb \/
  (rankClass va = rankClass vb /\
   match va, vb with
   | VNum x, VNum y => x <= y
   | VStr s, VStr t =>
       String.leb (JsString.toLowerCase s) (JsString.toLowerCase t) = true
   | _, _ => True
   end).

(** ** Controls that filter nothing *)

(** The search box is empty or blank, no category is selected, and the
    required box is unticked. *)
Definition noFilter (c : Controls) : Prop :=
  JsString.isEmpty (searchTerm c) = true /\
  categoryFilter c = EmptyString /\
  requiredFilter c = false.


(** ** Rows as the query returns them *)

(** The ids of [rows] are the numbers [ids], ascending, as
    [.order('id')] asks of the database. *)
Definition orderedById (rows : list Db.row) (ids : list Z) : Prop :=
  map Db.id rows = map VNum ids /\ Sorted Z.le ids.


(** ** Columns of a database row *)

(** [row[name]], the column of a row named by a string. *)
Definition dbColumn (name : string) (r : Db.row) : jsval :=
  if String.eqb name "id" then Db.id r
  else if String.eqb name "category" then Db.category r
  else if String.eqb name "item" then Db.item r
  else if String.eqb name "required" then Db.required r
  else if String.eqb name "notes" then Db.notes r
  else if String.eqb name "unit_cost" then Db.unit_cost r
  else if String.eqb name "quantity" then Db.quantity r
  else if String.eqb name "sub_total" then Db.sub_total r
  else if String.eqb name "md_content" then Db.md_content r
  else if String.eqb name "html" then Db.html r
  else VUndef.

(** [c] is one of the letters A to Z. *)
Definition isUpper (c : ascii) : bool :=
  ((65 <=? N_of_ascii c) && (N_of_ascii c <=? 90))%N.

Fixpoint hasUpper (s : string) : bool :=
  match s with
  | EmptyString => false
  | String c s' => isUpper c || hasUpper s'
  end.


(** ** Persisted items *)

(** The canonical items other than the unsaved row. *)
Definition persisted (s : State) : list Item :=
  List.filter (fun it => negb (isNewItem it)) (canonical s).


(** ** Decimal numerals *)

(** The number that the digits of [d] denote after a prefix worth [acc]. *)
Fixpoint decimalValue (acc : Z) (d : Decimal.uint) : Z :=
  match d with
  | Decimal.Nil => acc
  | Decimal.D0 d' => decimalValue (10 * acc + 0) d'
  | Decimal.D1 d' => decimalValue (10 * acc + 1) d'
  | Decimal.D2 d' => decimalValue (10 * acc + 2) d'
  | Decimal.D3 d' => decimalValue (10 * acc + 3) d'
  | Decimal.D4 d' => decimalValue (10 * acc + 4) d'
  | Decimal.D5 d' => decimalValue (10 * acc + 5) d'
  | Decimal.D6 d' => decimalValue (10 * acc + 6) d'
  | Decimal.D7 d' => decimalValue (10 * acc + 7) d'
  | Decimal.D8 d' => decimalValue (10 * acc + 8) d'
  | Decimal.D9 d' => decimalValue (10 * acc + 9) d'
  end.


(** [s] is empty or starts with a character that is no digit. *)
Definition noLeadingDigit (s : string) : bool :=
  match s with
  | EmptyString => true
  | String c _ => match Detail.digitValue c with Some _ => false | None => true end
  end.


(** ** The item page *)

(** The html that [renderMarkdown] returns for a text. *)
Definition rendered (m : option (string -> string)) (s : string) : string :=
  if String.eqb (JsString.trim s) "" then Detail.noInformation
  else
    match m with
    | Some parse => parse s
    | None => ("<pre>" ++ escapeHtml (VStr s) ++ "</pre>")%string
    end.

(** The page right after a successful load, or later: the listeners
    are attached and an item is shown. *)
Definition showing (p : Detail.Page) (it : Item) : Prop :=
  Detail.listening p = true /\ Detail.currentItem p = Some it.

(** The visitor has changed the text since edit mode was entered. *)
Definition textChanged (p : Detail.Page) : bool :=
  negb (strictEq (VStr (Detail.textarea p)) (Detail.originalMarkdown p)).

(** How many saves wait for their reply. *)
Definition isSave (k : Detail.Cont) : bool :=
  match k with Detail.KSave _ => true | Detail.KInit => false end.

Definition savesInFlight (p : Detail.Page) : nat :=
  length (List.filter isSave (Detail.pending p)).

(** An event the browser can deliver: a disabled button fires no
    click. *)
Definition offered (p : Detail.Page) (ev : Detail.Event) : Prop :=
  match ev with
  | Detail.EvSave => Detail.saveDisabled p = false
  | _ => True
  end.

(** The pages that [init] and the events after it lead to. *)
Inductive visited (m : option (string -> string)) (idParam : option string)
  : Detail.Page -> Prop :=
| visited_init :
    visited m idParam (Detail.run (Detail.init idParam) (Detail.initialPage m))
| visited_step (p : Detail.Page) (ev : Detail.Event) :
    visited m idParam p -> offered p ev -> visited m idParam (Detail.step p ev).

(** A sample item page: the hall with a text, loaded, with the
    markdown library present. *)
Definition hallWithText : Db.row :=
  {| Db.id := VNum 1; Db.category := VStr "Venue"; Db.item := VStr "Hall";
     Db.required := VStr "Yes"; Db.notes := VNull;
     Db.unit_cost := VNum 100; Db.quantity := VNum 2; Db.sub_total := VNull;
     Db.md_content := VStr "## Hall"; Db.html := VNull |}.

Definition shout (s : string) : string := ("<p>" ++ s ++ "</p>")%string.

Definition hallPage : Detail.Page :=
  Detail.step (Detail.run (Detail.init (Some "1")) (Detail.initialPage (Some shout)))
    (Detail.EvReply O (RData [hallWithText])).


(** At most one save waits for its reply, and then the Save button is
    disabled. *)
Definition oneSaveAtATime (p : Detail.Page) : Prop :=
  (savesInFlight p <= if Detail.saveDisabled p then 1 else 0)%nat.


(** ** Heading ids and the table of contents *)







Definition isH2 (h : Detail.Heading) : bool :=
  match Detail.tagName h with Detail.H2 => true | Detail.H3 => false end.

Definition isH3 (h : Detail.Heading) : bool := negb (isH2 h).

(** The headings from the first [H2] on. *)
Fixpoint fromFirstH2 (hs : list Detail.Heading) : list Detail.Heading :=
  match hs with
  | [] => []
  | h :: rest => if isH2 h then hs else fromFirstH2 rest
  end.

(** The links of a table of contents in reading order: every top-level
    entry followed by the entries nested under it. *)
Definition flatten (toc : list Detail.TocItem) : list Detail.Link :=
  concat (map (fun entry => entry.1 :: entry.2) toc).


Definition isUpdate (c : Detail.Call) : bool :=
  match c with
  | Detail.CallUpdateMarkdown _ _ => true
  | Detail.CallFetch _ => false
  end.

(** The number that [init] reads from the [id] of the address. *)
Definition requestedId (idParam : option string) : option Z :=
  match idParam with
  | Some s => if JsString.isEmpty s then None else Detail.parseInt s
  | None => None
  end.

(** What holds of the calls of the item page at every moment: the
    listeners are attached only once an item is shown; the fetch is
    answered before anything else is sent; every update is for the item
    shown; and the only fetch is the one of [init]. *)
Definition callsInv (idParam : option string) (p : Detail.Page) : Prop :=
  (Detail.listening p = true -> Detail.currentItem p <> None) /\
  (In Detail.KInit (Detail.pending p) ->
   Detail.pending p = [Detail.KInit] /\ Detail.listening p = false) /\
  (Detail.listening p = false -> List.filter isUpdate (Detail.calls p) = []) /\
  (forall ident md,
      In (Detail.CallUpdateMarkdown ident md) (Detail.calls p) ->
      exists it, Detail.currentItem p = Some it /\ id it = ident) /\
  List.filter (fun c => negb (isUpdate c)) (Detail.calls p)
  = match requestedId idParam with
    | Some n => [Detail.CallFetch n]
    | None => []
    end.

(** * Properties *)

(** ** Strings *)

Lemma prefix_app (p s : string) : String.prefix p (p ++ s)%string = true.
Proof.
  induction p as [|c p IH]; simpl.
  - now destruct s.
  - destruct (ascii_dec c c); [exact IH | congruence].
Qed.

Lemma ltb_irrefl (s : string) : String.ltb s s = false.
Proof.
  unfold String.ltb.
  assert (H : String.compare s s = Eq).
  { induction s as [|c s IH]; simpl; [reflexivity|].
    unfold Ascii.compare. now rewrite N.compare_refl. }
  now rewrite H.
Qed.

Lemma ltb_asym (s t : string) : String.ltb s t = true -> String.ltb t s = false.
Proof.
  unfold String.ltb. rewrite (String.compare_antisym s t).
  now destruct (String.compare t s).
Qed.

(** ** The stable sort *)

Section StableSort.
Context {A : Type} (cmp : A -> A -> Z).

Local Abbreviation before := (before cmp).
Local Abbreviation antisymmetric := (antisymmetric cmp).
Local Abbreviation transitiveOn := (transitiveOn cmp).

Lemma insertSorted_perm (x : A) (l : list A) :
  Permutation (insertSorted cmp x l) (x :: l).
Proof.
  induction l as [|y l IH]; simpl; [reflexivity|].
  destruct (cmp x y <=? 0); [reflexivity|].
  rewrite IH. apply perm_swap.
Qed.

Lemma arraySort_perm (l : list A) : Permutation (arraySort cmp l) l.
Proof.
  induction l as [|x l IH]; simpl; [reflexivity|].
  rewrite insertSorted_perm. now constructor.
Qed.

Lemma arraySort_In (x : A) (l : list A) : In x (arraySort cmp l) <-> In x l.
Proof.
  split; apply Permutation_in; [|symmetry]; apply arraySort_perm.
Qed.

Lemma precedes_cons (a b y : A) (l : list A) :
  precedes a b l -> precedes a b (y :: l).
Proof.
  intros (l1 & l2 & l3 & ->). now exists (y :: l1), l2, l3.
Qed.

Lemma precedes_head (a b : A) (l : list A) : In b l -> precedes a b (a :: l).
Proof.
  intros H. apply in_split in H as (l2 & l3 & ->). now exists [], l2, l3.
Qed.

Lemma precedes_inv (a b x : A) (l : list A) :
  precedes a b (x :: l) -> (a = x /\ In b l) \/ precedes a b l.
Proof.
  intros (l1 & l2 & l3 & H). destruct l1 as [|z l1]; simpl in H.
  - injection H as -> ->. left. split; [reflexivity|].
    apply in_or_app. right. now left.
  - injection H as -> ->. right. now exists l1, l2, l3.
Qed.

Lemma precedes_insertSorted (a b x : A) (l : list A) :
  precedes a b l -> precedes a b (insertSorted cmp x l).
Proof.
  induction l as [|y l IH]; simpl; intros H.
  - destruct H as (l1 & l2 & l3 & H). now destruct l1.
  - destruct (cmp x y <=? 0); [now apply precedes_cons|].
    apply precedes_inv in H as [[-> Hb] | H].
    + apply precedes_head. apply (Permutation_in b (Permutation_sym (insertSorted_perm x l))).
      now right.
    + apply precedes_cons. now apply IH.
Qed.

Lemma insertSorted_before (x b : A) (l : list A) :
  In b l -> before x b -> precedes x b (insertSorted cmp x l).
Proof.
  unfold before. induction l as [|y l IH]; simpl; intros Hb Hx; [contradiction|].
  destruct (Z.leb_spec (cmp x y) 0) as [Hle|Hgt].
  - now apply precedes_head.
  - destruct Hb as [->|Hb]; [lia|].
    apply precedes_cons. now apply IH.
Qed.

(** Stability: a pair the comparator does not ask to swap is not
    swapped; in particular items that compare equal keep their order. *)
Lemma arraySort_stable (a b : A) (l : list A) :
  precedes a b l -> before a b -> precedes a b (arraySort cmp l).
Proof.
  induction l as [|x l IH]; simpl; intros H Hab.
  - destruct H as (l1 & l2 & l3 & H). now destruct l1.
  - apply precedes_inv in H as [[-> Hb] | H].
    + apply insertSorted_before; [|exact Hab]. now apply arraySort_In.
    + apply precedes_insertSorted. now apply IH.
Qed.

Lemma insertSorted_sorted (x : A) (l : list A) :
  antisymmetric -> Sorted before l -> Sorted before (insertSorted cmp x l).
Proof.
  intros Hanti. induction l as [|y l IH]; simpl; intros Hs.
  - repeat constructor.
  - destruct (Z.leb_spec (cmp x y) 0) as [Hle|Hgt].
    + constructor; [exact Hs|]. now constructor.
    + inversion Hs as [|? ? Hs' Hhd]; subst.
      constructor; [now apply IH|].
      destruct l as [|z l]; simpl.
      * constructor. unfold before. rewrite Hanti. lia.
      * destruct (cmp x z <=? 0).
        -- constructor. unfold before. rewrite Hanti. lia.
        -- inversion Hhd; subst. now constructor.
Qed.

Lemma arraySort_sorted (l : list A) :
  antisymmetric -> Sorted before (arraySort cmp l).
Proof.
  intros Hanti. induction l as [|x l IH]; simpl; [constructor|].
  now apply insertSorted_sorted.
Qed.

Lemma Sorted_StronglySorted_on (l : list A) :
  transitiveOn l -> Sorted before l -> StronglySorted before l.
Proof.
  induction l as [|x l IH]; intros Htr Hs; [constructor|].
  inversion Hs as [|? ? Hs' Hhd]; subst.
  assert (Htr' : transitiveOn l).
  { intros a b c Ha Hb Hc. apply Htr; now right. }
  specialize (IH Htr' Hs').
  constructor; [exact IH|].
  destruct l as [|y l]; [constructor|].
  inversion Hhd as [|? ? Hxy]; subst.
  inversion IH as [|? ? _ Hall]; subst.
  constructor; [exact Hxy|].
  rewrite List.Forall_forall in Hall |- *. intros z Hz.
  apply (Htr x y z); [now left | right; now left | right; now right | exact Hxy |].
  now apply Hall.
Qed.

Lemma arraySort_strongly_sorted (l : list A) :
  antisymmetric -> transitiveOn l -> StronglySorted before (arraySort cmp l).
Proof.
  intros Hanti Htr. apply Sorted_StronglySorted_on.
  - intros a b c Ha Hb Hc. apply Htr; now apply arraySort_In.
  - now apply arraySort_sorted.
Qed.

End StableSort.

(** Sorting a strictly ordered list by the opposite comparator reverses it. *)
Lemma insertSorted_last {A : Type} (cmp : A -> A -> Z) (x : A) (l : list A) :
  Forall (fun y => 0 < cmp x y) l -> insertSorted cmp x l = l ++ [x].
Proof.
  induction 1 as [|y l Hy _ IH]; simpl; [reflexivity|].
  destruct (Z.leb_spec (cmp x y) 0); [lia|]. now rewrite IH.
Qed.

Lemma arraySort_opposite {A : Type} (cmp : A -> A -> Z) (l : list A) :
  StronglySorted (fun a b => cmp a b < 0) l ->
  arraySort (fun a b => - cmp a b) l = rev l.
Proof.
  induction 1 as [|x l _ IH Hall]; simpl; [reflexivity|].
  rewrite IH. apply insertSorted_last.
  apply List.Forall_forall. intros y Hy. apply in_rev in Hy.
  rewrite List.Forall_forall in Hall. specialize (Hall y Hy). lia.
Qed.

(** ** Handlers step by step *)

Lemma run_sortData (s : State) :
  run sortData s = setFilteredData (arraySort (viewCompare s) (filteredData s)) s.
Proof. reflexivity. Qed.

Lemma run_renderTable (s : State) :
  run renderTable s = run updateSummary (run sortData s).
Proof. reflexivity. Qed.

Lemma arraySort_ext {A : Type} (f g : A -> A -> Z) (l : list A) :
  (forall a b, f a b = g a b) -> arraySort f l = arraySort g l.
Proof.
  intros H. induction l as [|x l IH]; simpl; [reflexivity|].
  rewrite IH. generalize (arraySort g l) as r.
  induction r as [|y r IHr]; simpl; [reflexivity|].
  now rewrite H, IHr.
Qed.

(** ** Summary total *)

Lemma fold_left_sum (f : Item -> Z) (l : list Item) (acc : Z) :
  fold_left (fun sum it => sum + f it) l acc = acc + sumOver f l.
Proof.
  revert acc. induction l as [|x l IH]; intros acc; simpl; [lia|].
  rewrite IH. lia.
Qed.

Lemma sumSubTotals_sumOver (l : list Item) :
  sumSubTotals l = sumOver storedOrComputed l.
Proof. unfold sumSubTotals. now rewrite fold_left_sum. Qed.

Lemma sumOver_ext (f g : Item -> Z) (l : list Item) :
  Forall (fun it => f it = g it) l -> sumOver f l = sumOver g l.
Proof. induction 1 as [|x l Hx _ IH]; simpl; [reflexivity|]. now rewrite Hx, IH. Qed.

Lemma updateSummary_total (s : State) :
  totalCost (summary (run updateSummary s))
  = toFixed2 (sumOver storedOrComputed (view s)).
Proof.
  unfold run, updateSummary, modify, view; simpl.
  now rewrite sumSubTotals_sumOver.
Qed.

Lemma updateSummary_view (s : State) : view (run updateSummary s) = view s.
Proof. reflexivity. Qed.

Lemma storedOrComputed_without_stored (l : list Item) :
  Forall (fun it => isNumber (subTotal it) = false) l ->
  sumOver storedOrComputed l = sumOver costTimesQuantity l.
Proof.
  intros H. apply sumOver_ext.
  eapply List.Forall_impl; [|exact H]. intros it Hit; simpl in Hit.
  unfold storedOrComputed. now destruct (subTotal it).
Qed.

(** C1, as the code has it: the total written by [updateSummary], also
    at the end of every [renderTable], is the sum over exactly the items
    of the view, the unsaved row included, of the stored subtotal where
    it is a number and of unit cost times quantity-or-1 elsewhere; where
    no item of the view stores a numeric subtotal it is the sum of unit
    cost times quantity-or-1. *)
Theorem summary_total_is_sum_over_view (s : State) :
  (let s' := run updateSummary s in
   view s' = view s /\
   totalCost (summary s') = toFixed2 (sumOver storedOrComputed (view s')) /\
   (Forall (fun it => isNumber (subTotal it) = false) (view s') ->
    totalCost (summary s') = toFixed2 (sumOver costTimesQuantity (view s')))) /\
  (let s' := run renderTable s in
   Permutation (view s') (view s) /\
   totalCost (summary s') = toFixed2 (sumOver storedOrComputed (view s'))).
Proof.
  split; cbv zeta.
  - rewrite updateSummary_view, updateSummary_total.
    repeat split. intros H. now rewrite storedOrComputed_without_stored.
  - rewrite run_renderTable, updateSummary_view, updateSummary_total. split.
    + unfold view; simpl. apply Permutation_map, arraySort_perm.
    + reflexivity.
Qed.

Lemma summary_total_sample :
  let s := run updateSummary (loaded [rosesRow; tulipsRow]) in
  totalCost (summary s) = toFixed2 (sumOver costTimesQuantity (view s)).
Proof.
  destruct (summary_total_is_sum_over_view (loaded [rosesRow; tulipsRow]))
    as [(_ & _ & H) _].
  apply H. repeat constructor.
Defined.

(** C1 as worded fails: a row that stores subtotal 999 with unit cost
    100 and quantity 2 is summed as 999, not as 200. *)
Lemma summary_total_not_cost_times_quantity :
  ~ (forall s : State,
       let s' := run updateSummary s in
       totalCost (summary s') = toFixed2 (sumOver costTimesQuantity (view s'))).
Proof.
  intros H. specialize (H (loaded [hallRow])).
  vm_compute in H. discriminate H.
Qed.

(** ** The comparator *)

Ltac case_ltb :=
  match goal with
  | |- context [String.ltb ?x ?y] => destruct (String.ltb x y) eqn:?
  end.

Lemma sortValue_selected (k : string) (a : Item) :
  sortValue k a = coerceMissing (selectedValue k a).
Proof.
  unfold sortValue, selectedValue.
  destruct (String.eqb k "subTotal"); [reflexivity|].
  now destruct (getProp k a).
Qed.

Lemma compareItems_antisym (k : string) (asc : bool) (a b : Item) :
  compareItems k asc b a = - compareItems k asc a b.
Proof.
  unfold compareItems.
  set (sa := JsString.toLowerCase (toString (sortValue k a))).
  set (sb := JsString.toLowerCase (toString (sortValue k b))).
  assert (Hstr : (if String.ltb sb sa then if asc then -1 else 1
                  else if String.ltb sa sb then if asc then 1 else -1 else 0)
                 = - (if String.ltb sa sb then if asc then -1 else 1
                      else if String.ltb sb sa then if asc then 1 else -1 else 0)).
  { destruct (String.ltb sa sb) eqn:Hab.
    - rewrite (ltb_asym _ _ Hab). now destruct asc.
    - destruct (String.ltb sb sa); now destruct asc. }
  destruct (sortValue k a), (sortValue k b); try exact Hstr.
  destruct asc; lia.
Qed.

Lemma compareItems_direction (k : string) (a b : Item) :
  compareItems k false a b = - compareItems k true a b.
Proof.
  unfold compareItems.
  destruct (sortValue k a), (sortValue k b); try lia;
    repeat case_ltb; reflexivity.
Qed.

Lemma compareItems_keyOrder (k : string) (asc : bool) (a b : Item) :
  (compareItems k asc a b ?= 0)
  = directed asc (keyOrder (selectedValue k a) (selectedValue k b)).
Proof.
  unfold compareItems, keyOrder. rewrite !sortValue_selected.
  set (va := coerceMissing (selectedValue k a)).
  set (vb := coerceMissing (selectedValue k b)).
  set (sa := JsString.toLowerCase (toString va)).
  set (sb := JsString.toLowerCase (toString vb)).
  assert (Hstr : ((if String.ltb sa sb then if asc then -1 else 1
                   else if String.ltb sb sa then if asc then 1 else -1 else 0) ?= 0)
                 = directed asc (String.compare sa sb)).
  { unfold String.ltb. rewrite (String.compare_antisym sb sa).
    destruct (String.compare sa sb); now destruct asc. }
  destruct va, vb; try exact Hstr.
  destruct asc; simpl.
  - symmetry. apply Z.compare_sub.
  - rewrite <- Z.compare_antisym. symmetry. apply Z.compare_sub.
Qed.

Lemma viewCompare_antisym (s : State) : antisymmetric (viewCompare s).
Proof. intros a b. apply compareItems_antisym. Qed.

(** C4: [sortData] rearranges the view (nothing is added or lost) so
    that neighbours are in the order of the comparator; the comparator
    takes the selected column, reads a missing value as the empty
    string, compares two numbers numerically and anything else as
    lowercase strings, and flips its sign when [asc] is false; and the
    sort is stable: two items that the comparator leaves in order, in
    particular two with equal keys, keep their relative order. *)
Theorem sortData_orders_view (s : State) :
  let s' := run sortData s in
  let k := key (currentSort s) in
  (forall a b : loc,
      (viewCompare s a b ?= 0)
      = directed (asc (currentSort s))
          (keyOrder (selectedValue k (deref (heap s) a))
             (selectedValue k (deref (heap s) b)))) /\
  (forall a b : Item, compareItems k false a b = - compareItems k true a b) /\
  Permutation (filteredData s') (filteredData s) /\
  Sorted (before (viewCompare s)) (filteredData s') /\
  (forall a b : loc,
      precedes a b (filteredData s) -> viewCompare s a b <= 0 ->
      precedes a b (filteredData s')) /\
  heap s' = heap s /\ originalData s' = originalData s.
Proof.
  cbv zeta. rewrite run_sortData. simpl. repeat split.
  - intros a b. apply compareItems_keyOrder.
  - intros a b. apply compareItems_direction.
  - apply arraySort_perm.
  - apply arraySort_sorted, viewCompare_antisym.
  - intros a b Hp Hle. now apply arraySort_stable.
Qed.

(** Where the comparator is transitive on the view, every pair of the
    sorted view is in order, not only neighbours. *)
Lemma sortData_strongly_sorted (s : State) :
  transitiveOn (viewCompare s) (filteredData s) ->
  StronglySorted (before (viewCompare s)) (filteredData (run sortData s)).
Proof.
  intros H. rewrite run_sortData. simpl.
  apply arraySort_strongly_sorted; [apply viewCompare_antisym | exact H].
Qed.

(** ** The subtotal column *)

(** C2, as the code has it: on the subtotal column the sort key of an
    item is what [calculateSubTotal] returns, the stored subtotal when
    it is a number and unit cost times quantity-or-1 otherwise, and two
    items compare by the difference of these keys. *)
Theorem subtotal_sort_key (asc : bool) (a b : Item) :
  sortValue "subTotal" a = VNum (storedOrComputed a) /\
  (isNumber (subTotal a) = false ->
   sortValue "subTotal" a = VNum (costTimesQuantity a)) /\
  compareItems "subTotal" asc a b
  = if asc then storedOrComputed a - storedOrComputed b
    else storedOrComputed b - storedOrComputed a.
Proof.
  repeat split.
  intros H. unfold sortValue; simpl. unfold calculateSubTotal, costTimesQuantity.
  now destruct (subTotal a).
Qed.

Lemma subtotal_sort_key_sample :
  sortValue "subTotal" (transformItem tulipsRow) = VNum (30 * 2).
Proof.
  destruct (subtotal_sort_key true (transformItem tulipsRow) (transformItem tulipsRow))
    as (_ & H & _).
  apply H. reflexivity.
Defined.

(** C2 as worded fails: with subtotal 999 stored next to unit cost 100
    and quantity 2 the sort key is 999, read from the record. *)
Lemma subtotal_sort_key_reads_stored :
  ~ (forall it : Item, sortValue "subTotal" it = VNum (costTimesQuantity it)).
Proof.
  intros H. specialize (H (transformItem hallRow)). vm_compute in H. discriminate H.
Qed.

(** ** Sort headers *)

Lemma step_sortClick (s : State) (k : string) :
  step s (EvSortClick k) = run renderTable (setCurrentSort (toggled (currentSort s) k) s).
Proof.
  unfold step, handle, handleSortClick, toggled, run; simpl.
  unfold mbind, Handler_bind, gets; simpl.
  now destruct (String.eqb (key (currentSort s)) k).
Qed.

Lemma toggled_twice (cur : SortState) (k : string) :
  toggled (toggled cur k) k = mkSort k (negb (asc (toggled cur k))).
Proof.
  unfold toggled. destruct (String.eqb (key cur) k) eqn:E; simpl.
  - rewrite E. apply String.eqb_eq in E. now subst.
  - now rewrite String.eqb_refl.
Qed.

Lemma toggled_key (cur : SortState) (k : string) : key (toggled cur k) = k.
Proof.
  unfold toggled. destruct (String.eqb (key cur) k) eqn:E; simpl; [|reflexivity].
  now apply String.eqb_eq in E.
Qed.

Lemma StronglySorted_strict {A : Type} (cmp : A -> A -> Z) (l : list A) :
  noTies cmp l -> StronglySorted (before cmp) l ->
  StronglySorted (fun a b => cmp a b < 0) l.
Proof.
  intros [Hnd Hne] Hs. induction Hs as [|x l Hs IH Hall]; [constructor|].
  inversion Hnd as [|? ? Hx Hnd']; subst.
  constructor.
  - apply IH; [exact Hnd'|]. intros a b Ha Hb. apply Hne; now right.
  - rewrite List.Forall_forall in Hall |- *. intros y Hy.
    specialize (Hall y Hy). unfold before in Hall.
    assert (cmp x y <> 0).
    { apply Hne; [now left | now right |]. intros ->. contradiction. }
    lia.
Qed.

Lemma noTies_perm {A : Type} (cmp : A -> A -> Z) (l l' : list A) :
  Permutation l l' -> noTies cmp l -> noTies cmp l'.
Proof.
  intros Hp [Hnd Hne]. split.
  - now apply (Permutation_NoDup Hp).
  - intros a b Ha Hb. apply Hne; now apply (Permutation_in _ (Permutation_sym Hp)).
Qed.

(** Sorting one way and then the other way reverses the list, provided
    the comparator orders the entries strictly. *)
Lemma arraySort_twice_rev {A : Type} (cmp : A -> A -> Z) (l : list A) :
  antisymmetric cmp -> transitiveOn cmp l -> noTies cmp l ->
  arraySort (fun a b => - cmp a b) (arraySort cmp l) = rev (arraySort cmp l).
Proof.
  intros Hanti Htr Hnt. apply arraySort_opposite.
  apply StronglySorted_strict.
  - apply (noTies_perm cmp l); [symmetry; apply arraySort_perm | exact Hnt].
  - now apply arraySort_strongly_sorted.
Qed.

Lemma sortClick_twice (s : State) (k : string) :
  let s1 := step s (EvSortClick k) in
  let s2 := step s1 (EvSortClick k) in
  currentSort s2 = mkSort k (negb (asc (currentSort s1))) /\
  filteredData s1 = arraySort (viewCompare s1) (filteredData s) /\
  filteredData s2 = arraySort (fun a b => - viewCompare s1 a b) (filteredData s1).
Proof.
  cbv zeta. rewrite !step_sortClick, !run_renderTable. simpl.
  rewrite toggled_twice. repeat split.
  simpl. apply arraySort_ext. intros a b.
  unfold viewCompare; simpl. rewrite toggled_key.
  destruct (asc (toggled (currentSort s) k)); simpl.
  - apply compareItems_direction.
  - rewrite compareItems_direction. lia.
Qed.





Lemma sortData_sample :
  let s := loaded [rosesRow; tulipsRow] in
  precedes 0%nat 1%nat (filteredData (run sortData (setCurrentSort (mkSort "category" true) s))).
Proof.
  refine (proj1 (proj2 (proj2 (proj2 (proj2
            (sortData_orders_view
               (setCurrentSort (mkSort "category" true) (loaded [rosesRow; tulipsRow]))))))) _ _ _ _).
  - now exists [], [], [].
  - vm_compute. discriminate.
Defined.

(** ** The comparator on typed columns *)

Lemma compareItems_values (k : string) (asc : bool) (a b : Item) :
  compareItems k asc a b = compareValues asc (sortValue k a) (sortValue k b).
Proof. reflexivity. Qed.

Lemma leb_trans (a b c : string) :
  String.leb a b = true -> String.leb b c = true -> String.leb a c = true.
Proof.
  intros H1 H2. apply Is_true_true.
  apply (transitivity (R := String.le) (y := b)); now apply Is_true_true.
Qed.

Lemma leb_ltb (a b : string) : String.leb a b = negb (String.ltb b a).
Proof.
  unfold String.leb, String.ltb. rewrite (String.compare_antisym a b).
  now destruct (String.compare b a).
Qed.

(** On strings the ascending comparator is [leb] on the lowercase text. *)
Lemma compareValues_text (s t : string) :
  compareValues true (VStr s) (VStr t) <= 0 <->
  String.leb (JsString.toLowerCase s) (JsString.toLowerCase t) = true.
Proof.
  unfold compareValues; simpl toString. rewrite leb_ltb.
  destruct (String.ltb (JsString.toLowerCase s) (JsString.toLowerCase t)) eqn:E.
  - rewrite (ltb_asym _ _ E). simpl. split; [reflexivity | lia].
  - destruct (String.ltb (JsString.toLowerCase t) (JsString.toLowerCase s)); simpl;
      split; intros H; try reflexivity; try lia; discriminate H.
Qed.

Lemma numberToString_head (n : Z) :
  exists c rest, numberToString n = String c rest /\ (N_of_ascii c < 65)%N.
Proof.
  unfold numberToString. destruct (Z.to_int n) as [d|d]; simpl.
  - destruct d; simpl; eexists; eexists; (split; [reflexivity|]); reflexivity.
  - eexists; eexists; (split; [reflexivity|]); reflexivity.
Qed.

Lemma lowerChar_below (c : ascii) : (N_of_ascii c < 65)%N -> JsString.lowerChar c = c.
Proof.
  intros H. unfold JsString.lowerChar.
  destruct (N.leb_spec 65 (N_of_ascii c)); [lia | reflexivity].
Qed.

Lemma startsWith_new (s : string) :
  JsString.startsWith s "new-item-temp-" = true ->
  exists rest, JsString.toLowerCase s = String "n" rest.
Proof.
  unfold JsString.startsWith. destruct s as [|c s]; [discriminate|].
  change (String.prefix "new-item-temp-" (String c s))
    with (if ascii_dec "n" c then String.prefix "ew-item-temp-" s else false).
  destruct (ascii_dec "n" c) as [<-|]; [|discriminate].
  intros _. now eexists.
Qed.

Lemma ltb_head (c d : ascii) (s t : string) :
  (N_of_ascii c < N_of_ascii d)%N ->
  String.ltb (String c s) (String d t) = true /\
  String.ltb (String d t) (String c s) = false.
Proof.
  intros H. unfold String.ltb; simpl. unfold Ascii.compare.
  rewrite (proj2 (N.compare_lt_iff _ _) H).
  rewrite (proj2 (N.compare_gt_iff _ _) H). now split.
Qed.

Lemma ltb_empty (c : ascii) (s : string) :
  String.ltb EmptyString (String c s) = true /\
  String.ltb (String c s) EmptyString = false.
Proof. now split. Qed.

Lemma numberLike_text (d : ascii) (t : string) :
  numberLike (VStr (String d t)) = true ->
  exists rest, JsString.toLowerCase (String d t) = String "n" rest.
Proof. intros H. apply startsWith_new. exact H. Qed.

Lemma compareValues_strings (va vb : jsval) (sa sb : string) :
  isNumber va && isNumber vb = false ->
  JsString.toLowerCase (toString va) = sa ->
  JsString.toLowerCase (toString vb) = sb ->
  compareValues true va vb
  = if String.ltb sa sb then -1 else if String.ltb sb sa then 1 else 0.
Proof.
  intros H <- <-. unfold compareValues.
  destruct va, vb; try reflexivity. discriminate H.
Qed.

(** On number-like values the ascending comparator is the rank order. *)
Lemma compareValues_rank (va vb : jsval) :
  numberLike va = true -> numberLike vb = true ->
  (compareValues true va vb <= 0 <-> rankLe va vb).
Proof.
  intros Ha Hb.
  destruct va as [| |x|s], vb as [| |y|t]; try discriminate Ha; try discriminate Hb.
  - (* number, number *)
    unfold rankLe; simpl. split; [intros H; right; split; [reflexivity | lia]|].
    intros [H|[_ H]]; lia.
  - (* number, string *)
    destruct (numberToString_head x) as (c & rest & Hx & Hc).
    assert (Hlow : JsString.toLowerCase (toString (VNum x))
                   = String c (JsString.toLowerCase rest)).
    { simpl toString. rewrite Hx. simpl. now rewrite (lowerChar_below c Hc). }
    destruct t as [|d t].
    + rewrite (compareValues_strings (VNum x) (VStr EmptyString) _ EmptyString eq_refl Hlow eq_refl).
      destruct (ltb_empty c (JsString.toLowerCase rest)) as [H1 H2].
      rewrite H1, H2. unfold rankLe; simpl.
      split; [lia | intros [H|[H _]]; lia].
    + destruct (numberLike_text d t Hb) as [rest' Ht].
      rewrite (compareValues_strings (VNum x) (VStr (String d t)) _ _ eq_refl Hlow Ht).
      destruct (ltb_head c "n" (JsString.toLowerCase rest) rest') as [-> _];
        [simpl; lia|].
      unfold rankLe; simpl. split; [intros _; left; lia | lia].
  - (* string, number *)
    destruct (numberToString_head y) as (c & rest & Hy & Hc).
    assert (Hlow : JsString.toLowerCase (toString (VNum y))
                   = String c (JsString.toLowerCase rest)).
    { simpl toString. rewrite Hy. simpl. now rewrite (lowerChar_below c Hc). }
    destruct s as [|d s].
    + rewrite (compareValues_strings (VStr EmptyString) (VNum y) EmptyString _ eq_refl eq_refl Hlow).
      destruct (ltb_empty c (JsString.toLowerCase rest)) as [H1 _].
      rewrite H1. unfold rankLe; simpl.
      split; [intros _; left; lia | lia].
    + destruct (numberLike_text d s Ha) as [rest' Hs].
      rewrite (compareValues_strings (VStr (String d s)) (VNum y) _ _ eq_refl Hs Hlow).
      destruct (ltb_head c "n" (JsString.toLowerCase rest) rest') as [H1 H2];
        [simpl; lia|].
      rewrite H1, H2. unfold rankLe; simpl. split; [lia | intros [H|[H _]]; lia].
  - (* string, string *)
    rewrite compareValues_text. unfold rankLe.
    destruct s as [|c s], t as [|d t]; simpl rankClass.
    + split; [intros _; right; now split | reflexivity].
    + split; [intros _; left; lia | reflexivity].
    + split; [discriminate | intros [H|[H _]]; lia].
    + split; [intros H; right; now split | intros [H|[_ H]]; [lia | exact H]].
Qed.

Lemma rankLe_trans (a b c : jsval) : rankLe a b -> rankLe b c -> rankLe a c.
Proof.
  unfold rankLe. intros [H1|[E1 H1]] [H2|[E2 H2]].
  - left; lia.
  - left; lia.
  - left; lia.
  - right. split; [lia|].
    destruct a as [| |x|s], b as [| |y|t], c as [| |z|u];
      try exact I; try lia; try (simpl in E1, E2; lia);
      try (simpl in E1; destruct (JsString.isEmpty _) in E1; lia);
      try (simpl in E2; destruct (JsString.isEmpty _) in E2; lia).
    all: try now apply (leb_trans _ (JsString.toLowerCase t)).
    all: destruct s, u; simpl in E1, E2; try lia; reflexivity.
Qed.

(** Descending, the comparator is the ascending one with the arguments
    swapped. *)
Lemma compareValues_desc (va vb : jsval) :
  compareValues false va vb = compareValues true vb va.
Proof.
  unfold compareValues.
  destruct va, vb; try lia; rewrite ?ltb_irrefl; repeat case_ltb; try reflexivity;
    match goal with
    | H1 : String.ltb ?a ?b = true, H2 : String.ltb ?b ?a = true |- _ =>
        rewrite (ltb_asym _ _ H1) in H2; discriminate H2
    end.
Qed.

Lemma compareValues_transitive (asc : bool) (va vb vc : jsval) :
  (isString va = true /\ isString vb = true /\ isString vc = true) \/
  (numberLike va = true /\ numberLike vb = true /\ numberLike vc = true) ->
  compareValues asc va vb <= 0 -> compareValues asc vb vc <= 0 ->
  compareValues asc va vc <= 0.
Proof.
  assert (Hasc : forall a b c,
             (isString a = true /\ isString b = true /\ isString c = true) \/
             (numberLike a = true /\ numberLike b = true /\ numberLike c = true) ->
             compareValues true a b <= 0 -> compareValues true b c <= 0 ->
             compareValues true a c <= 0).
  { intros a b c [(Ha & Hb & Hc)|(Ha & Hb & Hc)] H1 H2.
    - destruct a as [| |?|s], b as [| |?|t], c as [| |?|u];
        try discriminate Ha; try discriminate Hb; try discriminate Hc.
      rewrite compareValues_text in *. now apply (leb_trans _ (JsString.toLowerCase t)).
    - rewrite compareValues_rank in * by assumption. now apply (rankLe_trans a b c). }
  destruct asc; [apply Hasc|].
  rewrite !compareValues_desc. intros Ht H1 H2.
  apply (Hasc vc vb va); [|exact H2 | exact H1].
  destruct Ht as [(Ha & Hb & Hc)|(Ha & Hb & Hc)]; [left | right]; now repeat split.
Qed.

(** On a typed column the comparator is transitive, so [sortData]
    leaves every pair of the view in order and a second click on the
    header reverses a view without ties. *)
Lemma typedColumn_transitive (s : State) :
  typedColumn s -> transitiveOn (viewCompare s) (filteredData s).
Proof.
  intros Ht a b c Ha Hb Hc. unfold before, viewCompare. rewrite !compareItems_values.
  apply compareValues_transitive.
  unfold typedColumn in Ht. cbv zeta in Ht. rewrite !List.Forall_map in Ht.
  rewrite !List.Forall_forall in Ht.
  destruct Ht as [Ht|Ht]; [left | right]; repeat split; now apply Ht.
Qed.

Lemma sortData_typed_column (s : State) :
  typedColumn s ->
  StronglySorted (before (viewCompare s)) (filteredData (run sortData s)).
Proof.
  intros H. rewrite run_sortData. simpl.
  apply arraySort_strongly_sorted; [apply viewCompare_antisym|].
  now apply typedColumn_transitive.
Qed.

Lemma transitiveOn_perm {A : Type} (cmp : A -> A -> Z) (l l' : list A) :
  Permutation l l' -> transitiveOn cmp l -> transitiveOn cmp l'.
Proof.
  intros Hp H a b c Ha Hb Hc.
  apply H; now apply (Permutation_in _ (Permutation_sym Hp)).
Qed.

(** On a typed column without ties the second click on a header shows
    the reverse of what the first click showed. *)
Lemma sort_toggle_typed_column (s : State) (k : string) :
  let s1 := step s (EvSortClick k) in
  let s2 := step s1 (EvSortClick k) in
  typedColumn s1 -> noTies (viewCompare s1) (filteredData s1) ->
  filteredData s2 = rev (filteredData s1).
Proof.
  cbv zeta. intros Ht Hn.
  destruct (sortClick_twice s k) as (_ & H1 & H2). cbv zeta in H1, H2.
  rewrite H2, H1.
  assert (Hp : Permutation (filteredData (step s (EvSortClick k))) (filteredData s)).
  { rewrite H1. apply arraySort_perm. }
  apply arraySort_twice_rev.
  - apply viewCompare_antisym.
  - apply (transitiveOn_perm _ _ _ Hp). now apply typedColumn_transitive.
  - now apply (noTies_perm _ _ _ Hp).
Qed.

(** ** Any stable sort gives the same list *)

Section StableSortUnique.
Context {A : Type} (cmp : A -> A -> Z).

Lemma precedes_In (a b : A) (l : list A) : precedes a b l -> In a l /\ In b l.
Proof.
  intros (l1 & l2 & l3 & ->). split.
  - apply in_or_app. right. now left.
  - apply in_or_app. right. right. apply in_or_app. right. now left.
Qed.

Lemma precedes_neq (a b : A) (l : list A) :
  List.NoDup l -> precedes a b l -> a <> b.
Proof.
  intros Hnd (l1 & l2 & l3 & ->) ->.
  apply NoDup_remove_2 in Hnd. apply Hnd.
  apply in_or_app. right. apply in_or_app. right. now left.
Qed.

Lemma precedes_total (a b : A) (l : list A) :
  In a l -> In b l -> a <> b -> precedes a b l \/ precedes b a l.
Proof.
  induction l as [|x l IH]; intros Ha Hb Hab; [contradiction|].
  destruct Ha as [->|Ha], Hb as [->|Hb].
  - contradiction.
  - left. now apply precedes_head.
  - right. now apply precedes_head.
  - destruct (IH Ha Hb Hab); [left | right]; now apply precedes_cons.
Qed.

Lemma precedes_asym (a b : A) (l : list A) :
  List.NoDup l -> precedes a b l -> precedes b a l -> False.
Proof.
  induction l as [|x l IH]; intros Hnd Hab Hba.
  - destruct Hab as (l1 & l2 & l3 & H). now destruct l1.
  - inversion Hnd as [|? ? Hx Hnd']; subst.
    apply precedes_inv in Hab as [[-> Hb]|Hab], Hba as [[-> Ha]|Hba];
      try contradiction.
    + apply precedes_In in Hba as [_ Hba]. contradiction.
    + apply precedes_In in Hab as [_ Hab]. contradiction.
    + now apply IH.
Qed.

(** Two sorted arrangements of the same distinct entries that agree on
    the order of ties are equal. *)
Lemma sorted_arrangements_equal (l1 l2 : list A) :
  antisymmetric cmp ->
  List.NoDup l1 -> Permutation l1 l2 ->
  StronglySorted (before cmp) l1 -> StronglySorted (before cmp) l2 ->
  (forall a b, cmp a b = 0 -> precedes a b l1 -> precedes a b l2) ->
  l1 = l2.
Proof.
  intros Hanti. revert l2.
  induction l1 as [|x t1 IH]; intros l2 Hnd Hp Hs1 Hs2 Hties.
  - now apply Permutation_nil in Hp.
  - destruct l2 as [|y t2]; [apply Permutation_sym, Permutation_nil in Hp; discriminate|].
    assert (Hnd2 : List.NoDup (y :: t2)) by now apply (Permutation_NoDup Hp).
    inversion Hnd as [|? ? Hx Hnd1]; subst.
    inversion Hs1 as [|? ? Hs1' Hall1]; subst.
    inversion Hs2 as [|? ? Hs2' Hall2]; subst.
    rewrite List.Forall_forall in Hall1, Hall2.
    assert (Hxy : x = y).
    { destruct (Permutation_in x Hp (or_introl eq_refl)) as [E|Hx2]; [now symmetry|].
      destruct (Permutation_in y (Permutation_sym Hp) (or_introl eq_refl)) as [E|Hy1];
        [exact E|].
      exfalso.
      pose proof (Hall1 y Hy1) as H1. pose proof (Hall2 x Hx2) as H2.
      unfold before in H1, H2. rewrite (Hanti x y) in H2.
      assert (H0 : cmp x y = 0) by lia.
      pose proof (Hties x y H0 (precedes_head x y t1 Hy1)) as Hpre.
      apply precedes_inv in Hpre as [[_ Hy2]|Hpre].
      - inversion Hnd2; contradiction.
      - apply precedes_In in Hpre as [_ Hy2]. inversion Hnd2; contradiction. }
    subst y. f_equal. apply IH.
    + exact Hnd1.
    + now apply Permutation_cons_inv in Hp.
    + exact Hs1'.
    + exact Hs2'.
    + intros a b H0 Hpre.
      pose proof (Hties a b H0 (precedes_cons a b x t1 Hpre)) as H.
      apply precedes_inv in H as [[-> _]|H]; [|exact H].
      apply precedes_In in Hpre as [Ha _]. contradiction.
Qed.

End StableSortUnique.

(** The insertion sort stands for every stable sort: on distinct
    entries and a consistent comparator, a sorted permutation that keeps
    ties in their original order is the list [arraySort] returns. *)
Lemma stable_sort_unique {A : Type} (cmp : A -> A -> Z) (l l' : list A) :
  antisymmetric cmp -> transitiveOn cmp l -> List.NoDup l ->
  Permutation l' l ->
  StronglySorted (before cmp) l' ->
  (forall a b, cmp a b = 0 -> precedes a b l -> precedes a b l') ->
  l' = arraySort cmp l.
Proof.
  intros Hanti Htr Hnd Hp Hs Hstable.
  assert (Hnd' : List.NoDup l') by now apply (Permutation_NoDup (Permutation_sym Hp)).
  apply (sorted_arrangements_equal cmp); try assumption.
  - rewrite Hp. symmetry. apply arraySort_perm.
  - now apply arraySort_strongly_sorted.
  - intros a b H0 Hpre.
    pose proof (precedes_neq a b l' Hnd' Hpre) as Hab.
    destruct (precedes_In a b l' Hpre) as [Ha Hb].
    apply (Permutation_in _ Hp) in Ha. apply (Permutation_in _ Hp) in Hb.
    destruct (precedes_total a b l Ha Hb Hab) as [H|H].
    + apply arraySort_stable; [exact H|]. unfold before. lia.
    + exfalso. apply (precedes_asym a b l' Hnd' Hpre).
      apply Hstable; [|exact H]. rewrite (Hanti a b). lia.
Qed.

(** ** Filtering *)

Lemma isEmpty_toLowerCase (s : string) :
  JsString.isEmpty (JsString.toLowerCase s) = JsString.isEmpty s.
Proof. now destruct s. Qed.

Lemma includes_empty (t : string) :
  JsString.includes EmptyString t = JsString.isEmpty t.
Proof. now destruct t. Qed.

Lemma lowerTest_includes (v : jsval) (t : string) :
  isNumber v = false -> JsString.isEmpty t = false ->
  lowerTest (fun s => JsString.includes s (JsString.toLowerCase t)) v
  = Some (ciIncludes v t).
Proof.
  intros Hv Ht. destruct v as [| |n|s]; simpl in *; try reflexivity; [discriminate|].
  destruct s as [|c s]; [|reflexivity].
  change (Some false = Some (JsString.includes EmptyString (JsString.toLowerCase t))).
  now rewrite includes_empty, isEmpty_toLowerCase, Ht.
Qed.

Lemma lowerTest_startsWithY (v : jsval) :
  isNumber v = false ->
  lowerTest (fun s => JsString.startsWith s "y") v = Some (ciStartsWithY v).
Proof.
  intros Hv. destruct v as [| |n|s]; simpl in *; try reflexivity; [discriminate|].
  now destruct s.
Qed.

Lemma filterCallback_matchesControls (c : Controls) (it : Item) :
  textTyped it -> filterCallback c it = Some (matchesControls c it).
Proof.
  intros (Hi & Hc & Hr). unfold filterCallback, matchesControls, matchesSearch, searchTerm.
  rewrite isEmpty_toLowerCase.
  destruct (JsString.isEmpty (JsString.trim (searchInput c))) eqn:He; simpl.
  - unfold matchesRequired. destruct (requiredFilter c); simpl; [|reflexivity].
    now rewrite lowerTest_startsWithY.
  - rewrite (lowerTest_includes _ _ Hi He), (lowerTest_includes _ _ Hc He).
    unfold matchesRequired.
    destruct (ciIncludes (item it) _); simpl;
      (destruct (requiredFilter c); simpl;
       [now rewrite lowerTest_startsWithY | reflexivity]).
Qed.

Lemma arrayFilter_total {A : Type} (f : A -> option bool) (p : A -> bool) (l : list A) :
  Forall (fun x => f x = Some (p x)) l -> arrayFilter f l = Some (List.filter p l).
Proof.
  induction 1 as [|x l Hx _ IH]; simpl; [reflexivity|].
  now rewrite Hx, IH.
Qed.

Lemma sublist_filter_bool {A : Type} (p : A -> bool) (l : list A) :
  sublist (List.filter p l) l.
Proof.
  induction l as [|x l IH]; simpl; [constructor|].
  destruct (p x); now constructor.
Qed.

Lemma map_filter_comm {A B : Type} (f : A -> B) (p : B -> bool) (l : list A) :
  map f (List.filter (fun x => p (f x)) l) = List.filter p (map f l).
Proof.
  induction l as [|x l IH]; simpl; [reflexivity|].
  destruct (p (f x)); simpl; now rewrite IH.
Qed.

Lemma applyFilters_typed (s : State) :
  Forall textTyped (canonical s) ->
  applyFilters s
  = (Some tt,
     setFilteredData
       (List.filter (fun l => matchesControls (controls s) (deref (heap s) l))
          (originalData s)) s).
Proof.
  intros H. unfold applyFilters, mbind, Handler_bind, gets; simpl.
  rewrite (arrayFilter_total _
             (fun l => matchesControls (controls s) (deref (heap s) l))).
  - reflexivity.
  - unfold canonical in H. rewrite List.Forall_map in H.
    eapply List.Forall_impl; [|exact H].
    intros l Hl. now apply filterCallback_matchesControls.
Qed.

(** C3: on a canonical collection whose text columns hold text or
    nothing, [applyFilters] returns, and the view it leaves consists of
    exactly the canonical items for which the trimmed search text is
    empty or occurs, letter case aside, in the item or in the category
    field, and the category selector is empty or equals the category,
    and the required box is unticked or the required field starts with
    y or Y; the view is a subsequence of the canonical collection, in
    canonical order, and the canonical collection is not touched. *)
Theorem applyFilters_selects (s : State) :
  Forall textTyped (canonical s) ->
  let s' := run applyFilters s in
  applyFilters s = (Some tt, s') /\
  filteredData s'
  = List.filter (fun l => matchesControls (controls s) (deref (heap s) l))
      (originalData s) /\
  view s' = List.filter (matchesControls (controls s)) (canonical s) /\
  (forall l, In l (filteredData s') <->
             In l (originalData s) /\
             matchesControls (controls s) (deref (heap s) l) = true) /\
  sublist (filteredData s') (originalData s) /\
  sublist (view s') (canonical s) /\
  originalData s' = originalData s /\ heap s' = heap s.
Proof.
  intros H. cbv zeta. unfold run. rewrite (applyFilters_typed s H). simpl.
  assert (Hview : view (setFilteredData
                         (List.filter
                            (fun l => matchesControls (controls s) (deref (heap s) l))
                            (originalData s)) s)
                  = List.filter (matchesControls (controls s)) (canonical s)).
  { unfold view, canonical; simpl. apply map_filter_comm. }
  split; [reflexivity|]. split; [reflexivity|]. split; [exact Hview|].
  split; [intros l; apply filter_In|].
  split; [apply sublist_filter_bool|].
  split; [rewrite Hview; apply sublist_filter_bool|].
  split; reflexivity.
Qed.

Lemma applyFilters_sample :
  let s := setControls (mkControls " HALL " "Venue" true) (loaded [hallRow; rosesRow]) in
  view (run applyFilters s) = [transformItem hallRow].
Proof.
  refine (eq_trans (proj1 (proj2 (proj2
            (applyFilters_selects
               (setControls (mkControls " HALL " "Venue" true) (loaded [hallRow; rosesRow]))
               _)))) _).
  - repeat constructor.
  - reflexivity.
Defined.

(** ** What each handler does to the store *)

Lemma run_bind {A B : Type} (m : Handler A) (f : A -> Handler B) (s : State) :
  run (m ≫= f) s
  = match m s with
    | (Some a, s') => run (f a) s'
    | (None, s') => s'
    end.
Proof.
  unfold run, mbind, Handler_bind. now destruct (m s) as [[a|] s'].
Qed.

(** Runs a handler up to its call of [applyFilters]. *)
Ltac run_steps :=
  repeat match goal with
         | |- context [run (applyFilters ≫= _) _] => fail 1
         | |- context [run (_ ≫= _) _] => rewrite run_bind; simpl
         end.

Lemma applyFilters_cases (s : State) :
  (exists fd, applyFilters s = (Some tt, setFilteredData fd s)) \/
  applyFilters s = (None, s).
Proof.
  unfold applyFilters, mbind, Handler_bind, gets; simpl.
  destruct (arrayFilter _ _) as [fd|]; [left; now exists fd | now right].
Qed.

(** Whatever follows [applyFilters] only sees another view. *)
Lemma storeOf_after_applyFilters {B : Type} (k : Handler B) (s : State) :
  (forall t, storeOf (run k t) = storeOf t) ->
  storeOf (run (applyFilters ≫= fun _ => k) s) = storeOf s.
Proof.
  intros Hk. rewrite run_bind.
  destruct (applyFilters_cases s) as [[fd ->] | ->]; [|reflexivity].
  now rewrite Hk.
Qed.

Lemma storeOf_renderTable (s : State) : storeOf (run renderTable s) = storeOf s.
Proof. reflexivity. Qed.

Lemma storeOf_refresh (s : State) :
  storeOf (run (applyFilters;; renderTable) s) = storeOf s.
Proof. apply storeOf_after_applyFilters, storeOf_renderTable. Qed.

Lemma storeOf_filterChange (s : State) (c : Controls) :
  storeOf (step s (EvFilterChange c)) = storeOf s.
Proof.
  unfold step, handle. rewrite run_bind. simpl.
  unfold handleFilterChange. now rewrite storeOf_refresh.
Qed.

Lemma storeOf_sortClick (s : State) (k : string) :
  storeOf (step s (EvSortClick k)) = storeOf s.
Proof. now rewrite step_sortClick. Qed.

Lemma step_addItem_rejected (s : State) (now : Z) :
  hasNewItem s = true ->
  step s (EvAddItem now)
  = setUi (ui s ++ [ShowError "Please complete or delete the existing new item first."]) s.
Proof.
  intros H. unfold step, handle, addNewItemRow. rewrite run_bind. simpl.
  now rewrite H.
Qed.

Lemma storeOf_addItem (s : State) (now : Z) :
  hasNewItem s = false ->
  storeOf (step s (EvAddItem now))
  = (heap s ++ [newItem now], length (heap s) :: originalData s, calls s, pending s).
Proof.
  intros H. unfold step, handle, addNewItemRow. rewrite run_bind. simpl.
  rewrite H, run_bind. simpl. rewrite run_bind. simpl.
  now rewrite storeOf_refresh.
Qed.

Lemma storeOf_removeById (ident : jsval) (s : State) :
  storeOf (run (removeById ident;; applyFilters;; renderTable) s)
  = (heap s,
     List.filter (fun l => negb (sameId (heap s) ident l)) (originalData s),
     calls s, pending s).
Proof. rewrite run_bind. simpl. now rewrite storeOf_refresh. Qed.

Lemma storeOf_delete_unsaved (s : State) (ident : jsval) (confirmed : bool) :
  isNewItemId ident = true ->
  storeOf (step s (EvDelete ident confirmed))
  = (heap s,
     List.filter (fun l => negb (sameId (heap s) ident l)) (originalData s),
     calls s, pending s).
Proof.
  intros H. unfold step, handle, handleDelete. rewrite H.
  apply storeOf_removeById.
Qed.

Lemma storeOf_delete_persisted (s : State) (ident : jsval) (confirmed : bool) :
  isNewItemId ident = false ->
  storeOf (step s (EvDelete ident confirmed))
  = if confirmed
    then (heap s, originalData s, calls s ++ [CallDelete ident], pending s ++ [KDelete ident])
    else storeOf s.
Proof.
  intros H. unfold step, handle, handleDelete. rewrite H.
  now destruct confirmed.
Qed.

Lemma deref_insert_eq (h : list Item) (l : loc) (x : Item) :
  (l < length h)%nat -> deref (<[l := x]> h) l = x.
Proof. intros H. unfold deref. now rewrite list_lookup_insert_eq. Qed.

Lemma deref_insert_ne (h : list Item) (l l' : loc) (x : Item) :
  l <> l' -> deref (<[l := x]> h) l' = deref h l'.
Proof. intros H. unfold deref. now rewrite list_lookup_insert_ne. Qed.

Lemma deref_app_old (h : list Item) (x : Item) (l : loc) :
  (l < length h)%nat -> deref (h ++ [x]) l = deref h l.
Proof. intros H. unfold deref. now rewrite lookup_app_l. Qed.

Lemma deref_app_new (h : list Item) (x : Item) : deref (h ++ [x]) (length h) = x.
Proof.
  unfold deref. rewrite lookup_app_r by lia. now rewrite Nat.sub_diag.
Qed.

Lemma isNewItem_valid (h : list Item) (l : loc) :
  isNewItem (deref h l) = true -> (l < length h)%nat.
Proof.
  intros H. destruct (Nat.lt_ge_cases l (length h)) as [Hlt|Hge]; [exact Hlt|].
  unfold deref in H. rewrite lookup_ge_None_2 in H by exact Hge. discriminate H.
Qed.

Lemma step_blur_unchanged (s : State) (it : loc) (e : Edit) :
  strictEq (getField (editField e) (deref (heap s) it)) (editValue e) = true ->
  step s (EvBlur it e) = s.
Proof.
  intros H. unfold step, handle, handleFieldBlur. rewrite run_bind. simpl.
  now rewrite H.
Qed.

Lemma step_blur_sentinel (s : State) (it : loc) (e : Edit) :
  let field := editField e in
  let obj := deref (heap s) it in
  let obj' := setField field (editValue e) obj in
  strictEq (getField field obj) (editValue e) = false ->
  isNewItem obj = true ->
  step s (EvBlur it e)
  = if truthy (category obj') && truthy (item obj')
    then setPending (pending s ++ [KCreate it field])
           (setCalls (calls s ++ [CallInsert (transformToDb obj')])
              (setHeap (<[it := obj']> (heap s))
                 (setUi (ui s ++ [CellSaving it field]) s)))
    else setUi (ui s ++ [CellSaving it field; CellSaved it field])
           (setHeap (<[it := obj']> (heap s)) s).
Proof.
  cbv zeta. intros Hne Hnew.
  unfold step, handle, handleFieldBlur. rewrite run_bind. simpl.
  rewrite Hne, Hnew. rewrite run_bind. simpl. rewrite run_bind. simpl.
  rewrite run_bind. simpl.
  rewrite deref_insert_eq by now apply isNewItem_valid.
  destruct (truthy (category _) && truthy (item _)).
  - reflexivity.
  - unfold run, emit, modify; simpl. now rewrite <- app_assoc.
Qed.

Lemma step_blur_persisted (s : State) (it : loc) (e : Edit) :
  let field := editField e in
  let obj := deref (heap s) it in
  strictEq (getField field obj) (editValue e) = false ->
  isNewItem obj = false ->
  step s (EvBlur it e)
  = setPending (pending s ++ [KUpdate it field (editValue e) (getField field obj)])
      (setCalls (calls s ++ [CallUpdate (id obj)
                               (JsString.camelToSnake (fieldName field)) (editValue e)])
         (setUi (ui s ++ [CellSaving it field]) s)).
Proof.
  cbv zeta. intros Hne Hnew.
  unfold step, handle, handleFieldBlur. rewrite run_bind. simpl.
  rewrite Hne, Hnew. reflexivity.
Qed.

Lemma step_reply (s : State) (n : nat) (r : Reply) (k : Cont) :
  pending s !! n = Some k ->
  step s (EvReply n r) = run (resume k r) (setPending (delete n (pending s)) s).
Proof.
  intros H. unfold step, handle. rewrite run_bind. simpl. now rewrite H.
Qed.

Lemma step_reply_none (s : State) (n : nat) (r : Reply) :
  pending s !! n = None -> step s (EvReply n r) = s.
Proof.
  intros H. unfold step, handle. rewrite run_bind. simpl. now rewrite H.
Qed.

Lemma afterUpdate_failure (t : State) (it : loc) (field : Field)
    (newValue oldValue : jsval) (r : Reply) :
  firstRow r = None ->
  run (afterUpdate it field newValue oldValue r) t
  = setUi (ui t ++ [SetInputValue it field (revertValue field oldValue);
                    CellError it field;
                    ShowError ("Failed to update " ++ fieldName field
                               ++ ". Please try again.")%string]) t.
Proof.
  intros H. unfold afterUpdate. rewrite H.
  unfold run, showError, emit, modify, mbind, Handler_bind; simpl.
  now rewrite <- !app_assoc.
Qed.

Lemma afterUpdate_success (t : State) (it : loc) (field : Field)
    (newValue oldValue : jsval) (r : Reply) (row : Item) :
  firstRow r = Some row ->
  let obj := deref (heap t) it in
  let h1 := <[it := setField field newValue obj]> (heap t) in
  storeOf (run (afterUpdate it field newValue oldValue r) t)
  = match findIndex (sameId h1 (id obj)) (originalData t) with
    | Some index =>
        (h1 ++ [setField field newValue
                  (deref h1 (default O (originalData t !! index)))],
         <[index := length h1]> (originalData t), calls t, pending t)
    | None => (h1, originalData t, calls t, pending t)
    end.
Proof.
  intros H. cbv zeta. unfold afterUpdate. rewrite H.
  rewrite run_bind. simpl. rewrite run_bind. simpl. rewrite run_bind. simpl.
  rewrite run_bind. simpl.
  destruct (findIndex _ _) as [index|]; simpl; reflexivity.
Qed.

Lemma afterCreate_failure (t : State) (it : loc) (field : Field) (r : Reply) :
  firstRow r = None ->
  storeOf (run (afterCreate it field r) t) = storeOf t.
Proof.
  intros H. unfold afterCreate. rewrite H. rewrite run_bind.
  destruct r; reflexivity.
Qed.

Lemma afterCreate_success (t : State) (it : loc) (field : Field) (r : Reply)
    (created : Item) :
  firstRow r = Some created ->
  let h1 := heap t ++ [created] in
  storeOf (run (afterCreate it field r) t)
  = (<[it := created]> h1,
     match findIndex (sameId h1 (id (deref h1 it))) (originalData t) with
     | Some index => <[index := length (heap t)]> (originalData t)
     | None => originalData t
     end,
     calls t, pending t).
Proof.
  intros H. cbv zeta. unfold afterCreate. rewrite H.
  destruct r as [| |data]; [discriminate H | discriminate H |].
  rewrite run_bind. simpl. rewrite run_bind. simpl. rewrite run_bind. simpl.
  rewrite run_bind. simpl.
  destruct (findIndex _ _) as [index|]; simpl; run_steps; now rewrite storeOf_refresh.
Qed.

Lemma afterDelete_store (t : State) (ident : jsval) (r : Reply) :
  storeOf (run (afterDelete ident r) t)
  = match r with
    | RError | RThrown => storeOf t
    | RData _ =>
        (heap t,
         List.filter (fun l => negb (sameId (heap t) ident l)) (originalData t),
         calls t, pending t)
    end.
Proof.
  unfold afterDelete. destruct r as [| |data]; [reflexivity | reflexivity |].
  rewrite run_bind. simpl.
  rewrite storeOf_after_applyFilters; [reflexivity | intros; reflexivity].
Qed.

(** ** At most one unsaved row *)

Lemma countNew_cons (h : list Item) (l : loc) (od : list loc) :
  countNew h (l :: od)
  = ((if isNewItem (deref h l) then 1 else 0) + countNew h od)%nat.
Proof. unfold countNew; simpl. now destruct (isNewItem (deref h l)). Qed.

Lemma countNew_ext (h h' : list Item) (od : list loc) :
  Forall (fun l => isNewItem (deref h' l) = isNewItem (deref h l)) od ->
  countNew h' od = countNew h od.
Proof.
  induction 1 as [|l od Hl _ IH]; [reflexivity|].
  now rewrite !countNew_cons, Hl, IH.
Qed.

Lemma countNew_mono (h h' : list Item) (od : list loc) :
  Forall (fun l => isNewItem (deref h' l) = true -> isNewItem (deref h l) = true) od ->
  (countNew h' od <= countNew h od)%nat.
Proof.
  induction 1 as [|l od Hl _ IH]; [reflexivity|].
  rewrite !countNew_cons.
  destruct (isNewItem (deref h' l)); [rewrite Hl by reflexivity|]; simpl; lia.
Qed.

Lemma countNew_app_old (h : list Item) (x : Item) (od : list loc) :
  refsValid h od -> countNew (h ++ [x]) od = countNew h od.
Proof.
  intros H. apply countNew_ext. eapply List.Forall_impl; [|exact H].
  intros l Hl. simpl in Hl. now rewrite deref_app_old.
Qed.

Lemma countNew_heap_insert (h : list Item) (it : loc) (x : Item) (od : list loc) :
  (isNewItem x = true -> isNewItem (deref h it) = true) ->
  (countNew (<[it := x]> h) od <= countNew h od)%nat.
Proof.
  intros Hx. apply countNew_mono. apply List.Forall_forall. intros l _.
  destruct (Nat.eq_dec it l) as [<-|Hne].
  - destruct (Nat.lt_ge_cases it (length h)) as [Hlt|Hge].
    + now rewrite deref_insert_eq.
    + now rewrite list_insert_ge.
  - now rewrite deref_insert_ne.
Qed.

Lemma countNew_filter (h : list Item) (p : loc -> bool) (od : list loc) :
  (countNew h (List.filter p od) <= countNew h od)%nat.
Proof.
  induction od as [|l od IH]; simpl; [reflexivity|].
  destruct (p l); rewrite !countNew_cons; lia.
Qed.

Lemma countNew_array_insert (h : list Item) (index : nat) (c l : loc) (od : list loc) :
  od !! index = Some l ->
  (isNewItem (deref h c) = true -> isNewItem (deref h l) = true) ->
  (countNew h (<[index := c]> od) <= countNew h od)%nat.
Proof.
  revert index. induction od as [|y od IH]; intros index Hl Hc; [discriminate Hl|].
  destruct index as [|index]; simpl in *.
  - injection Hl as ->. rewrite !countNew_cons.
    destruct (isNewItem (deref h c)); [rewrite Hc by reflexivity|]; simpl; lia.
  - rewrite !countNew_cons. specialize (IH index Hl Hc). lia.
Qed.

Lemma countNew_none (s : State) : hasNewItem s = false -> sentinelCount s = O.
Proof.
  unfold hasNewItem, sentinelCount, countNew.
  induction (originalData s) as [|l od IH]; simpl; [reflexivity|].
  destruct (isNewItem (deref (heap s) l)); simpl; [discriminate|exact IH].
Qed.

Lemma refsValid_app (h : list Item) (x : Item) (od : list loc) :
  refsValid h od -> refsValid (h ++ [x]) od.
Proof.
  intros H. eapply List.Forall_impl; [|exact H]. intros l Hl; simpl in *.
  rewrite length_app; simpl. lia.
Qed.

Lemma refsValid_heap_insert (h : list Item) (it : loc) (x : Item) (od : list loc) :
  refsValid h od -> refsValid (<[it := x]> h) od.
Proof. unfold refsValid. now rewrite length_insert. Qed.

Lemma refsValid_filter (h : list Item) (p : loc -> bool) (od : list loc) :
  refsValid h od -> refsValid h (List.filter p od).
Proof.
  intros H. apply List.Forall_forall. intros l Hl. apply filter_In in Hl as [Hl _].
  revert l Hl. now apply List.Forall_forall.
Qed.

Lemma refsValid_array_insert (h : list Item) (index : nat) (c : loc) (od : list loc) :
  (c < length h)%nat -> refsValid h od -> refsValid h (<[index := c]> od).
Proof.
  intros Hc H. revert index. induction H as [|y od Hy H IH]; intros index; [constructor|].
  destruct index as [|index]; simpl.
  - constructor; [exact Hc | exact H].
  - constructor; [exact Hy | apply IH].
Qed.

Lemma findIndex_Some {A : Type} (p : A -> bool) (l : list A) (i : nat) :
  findIndex p l = Some i ->
  exists x, l !! i = Some x /\ p x = true /\
            forall j y, (j < i)%nat -> l !! j = Some y -> p y = false.
Proof.
  revert i. induction l as [|x l IH]; intros i H; simpl in H; [discriminate H|].
  destruct (p x) eqn:Hx.
  - injection H as <-. exists x. repeat split; [exact Hx|]. intros j y Hj. lia.
  - destruct (findIndex p l) as [i'|]; [|discriminate H].
    injection H as <-. destruct (IH i' eq_refl) as (z & Hz & Hpz & Hmin).
    exists z. repeat split; [exact Hz | exact Hpz |].
    intros [|j] y Hj Hy; simpl in Hy.
    + now injection Hy as <-.
    + apply (Hmin j); [lia | exact Hy].
Qed.

Lemma isNewItem_setField (f : Field) (v : jsval) (it : Item) :
  isNewItem (setField f v it) = isNewItem it.
Proof. now destruct f. Qed.

Lemma id_setField (f : Field) (v : jsval) (it : Item) : id (setField f v it) = id it.
Proof. now destruct f. Qed.

Lemma isNewItem_newItem (now : Z) : isNewItem (newItem now) = true.
Proof. unfold isNewItem, newItem, isNewItemId, JsString.startsWith; simpl id. apply prefix_app. Qed.

Lemma firstRow_persisted (r : Reply) (created : Item) :
  replyOk r -> firstRow r = Some created -> isNewItem created = false.
Proof.
  destruct r as [| |[|row rows]]; simpl; intros Hok H; try discriminate H.
  injection H as <-. now inversion Hok.
Qed.

Lemma storeInv_intro (h : list Item) (od : list loc) (cs : list Call) (ps : list Cont) :
  refsValid h od -> (countNew h od <= 1)%nat -> storeInv (h, od, cs, ps).
Proof. now split. Qed.

Lemma storeInv_elim (h : list Item) (od : list loc) (cs : list Call) (ps : list Cont) :
  storeInv (h, od, cs, ps) -> refsValid h od /\ (countNew h od <= 1)%nat.
Proof. intros H. exact H. Qed.

Lemma storeInv_add (h : list Item) (od : list loc) (cs : list Call) (ps : list Cont)
    (x : Item) :
  refsValid h od -> countNew h od = O ->
  storeInv (h ++ [x], length h :: od, cs, ps).
Proof.
  intros Hwf H0. apply storeInv_intro.
  - constructor; [rewrite length_app; simpl; lia | now apply refsValid_app].
  - rewrite countNew_cons, (countNew_app_old h x od Hwf), H0.
    destruct (isNewItem _); simpl; lia.
Qed.

Lemma storeInv_heap_insert (h : list Item) (od : list loc) (cs cs' : list Call)
    (ps ps' : list Cont) (it : loc) (x : Item) :
  (isNewItem x = true -> isNewItem (deref h it) = true) ->
  storeInv (h, od, cs, ps) -> storeInv (<[it := x]> h, od, cs', ps').
Proof.
  intros Hx H. apply storeInv_elim in H as [Hwf Hc]. apply storeInv_intro.
  - now apply refsValid_heap_insert.
  - pose proof (countNew_heap_insert h it x od Hx). lia.
Qed.

Lemma storeInv_filter (h : list Item) (od : list loc) (cs cs' : list Call)
    (ps ps' : list Cont) (p : loc -> bool) :
  storeInv (h, od, cs, ps) -> storeInv (h, List.filter p od, cs', ps').
Proof.
  intros H. apply storeInv_elim in H as [Hwf Hc]. apply storeInv_intro.
  - now apply refsValid_filter.
  - pose proof (countNew_filter h p od). lia.
Qed.

Lemma storeInv_app (h : list Item) (od : list loc) (cs cs' : list Call)
    (ps ps' : list Cont) (x : Item) :
  storeInv (h, od, cs, ps) -> storeInv (h ++ [x], od, cs', ps').
Proof.
  intros H. apply storeInv_elim in H as [Hwf Hc]. apply storeInv_intro.
  - now apply refsValid_app.
  - now rewrite (countNew_app_old h x od Hwf).
Qed.

(** Replacing an entry of the array by a fresh object that is unsaved
    only if the entry was. *)
Lemma storeInv_replace (h : list Item) (od : list loc) (cs cs' : list Call)
    (ps ps' : list Cont) (index : nat) (l : loc) (x : Item) :
  od !! index = Some l ->
  (isNewItem x = true -> isNewItem (deref h l) = true) ->
  storeInv (h, od, cs, ps) ->
  storeInv (h ++ [x], <[index := length h]> od, cs', ps').
Proof.
  intros Hl Hx H. apply storeInv_elim in H as [Hwf Hc]. apply storeInv_intro.
  - apply refsValid_array_insert; [rewrite length_app; simpl; lia|].
    now apply refsValid_app.
  - assert (Hvalid : (l < length h)%nat).
    { unfold refsValid in Hwf. rewrite List.Forall_forall in Hwf.
      apply Hwf. apply list_elem_of_In. eapply list_elem_of_lookup_2. exact Hl. }
    pose proof (countNew_array_insert (h ++ [x]) index (length h) l od Hl) as Hi.
    rewrite deref_app_new, deref_app_old in Hi by exact Hvalid.
    specialize (Hi Hx). rewrite (countNew_app_old h x od Hwf) in Hi.
    exact (Nat.le_trans _ _ _ Hi Hc).
Qed.

Lemma storeInv_step (s : State) (ev : Event) :
  storeInv (storeOf s) -> eventOk ev -> storeInv (storeOf (step s ev)).
Proof.
  intros Hinv Hok. destruct ev as [c|k|now|it e|ident confirmed|n r|]; [| | | | | |exact Hinv].
  - now rewrite storeOf_filterChange.
  - now rewrite storeOf_sortClick.
  - destruct (hasNewItem s) eqn:Hn.
    + now rewrite step_addItem_rejected.
    + rewrite storeOf_addItem by exact Hn. destruct Hinv as [Hwf _].
      apply storeInv_add; [exact Hwf | now apply countNew_none].
  - destruct (strictEq (getField (editField e) (deref (heap s) it)) (editValue e)) eqn:Heq.
    + now rewrite step_blur_unchanged.
    + destruct (isNewItem (deref (heap s) it)) eqn:Hnew.
      * rewrite step_blur_sentinel by assumption.
        destruct (truthy _ && truthy _); unfold storeOf; simpl;
          (eapply storeInv_heap_insert; [|exact Hinv]);
          rewrite isNewItem_setField; intros _; exact Hnew.
      * now rewrite step_blur_persisted by assumption.
  - destruct (isNewItemId ident) eqn:Hid.
    + rewrite storeOf_delete_unsaved by exact Hid.
      eapply storeInv_filter. exact Hinv.
    + rewrite storeOf_delete_persisted by exact Hid.
      destruct confirmed; exact Hinv.
  - destruct (pending s !! n) as [k|] eqn:Hk; [|now rewrite step_reply_none].
    rewrite (step_reply s n r k Hk).
    set (t := setPending (delete n (pending s)) s).
    assert (Ht : storeInv (storeOf t)) by exact Hinv.
    clearbody t. clear Hinv Hk s.
    destruct k as [it field|it field newValue oldValue|ident]; simpl resume.
    + destruct (firstRow r) as [created|] eqn:Hr.
      * rewrite (afterCreate_success t it field r created Hr).
        pose proof (firstRow_persisted r created Hok Hr) as Hp.
        assert (H1 : storeInv
                       (heap t ++ [created],
                        match findIndex (sameId (heap t ++ [created])
                                           (id (deref (heap t ++ [created]) it)))
                                (originalData t) with
                        | Some index => <[index := length (heap t)]> (originalData t)
                        | None => originalData t
                        end, calls t, pending t)).
        { destruct (findIndex _ _) as [index|] eqn:Hf.
          - apply findIndex_Some in Hf as (l & Hl & _).
            eapply storeInv_replace; [exact Hl | | exact Ht].
            rewrite Hp. discriminate.
          - eapply storeInv_app. exact Ht. }
        eapply storeInv_heap_insert; [|exact H1]. rewrite Hp. discriminate.
      * now rewrite afterCreate_failure.
    + destruct (firstRow r) as [row|] eqn:Hr.
      * rewrite (afterUpdate_success t it field newValue oldValue r row Hr).
        set (h1 := <[it := setField field newValue (deref (heap t) it)]> (heap t)).
        assert (H1 : storeInv (h1, originalData t, calls t, pending t)).
        { eapply storeInv_heap_insert; [|exact Ht]. now rewrite isNewItem_setField. }
        destruct (findIndex _ _) as [index|] eqn:Hf; [|exact H1].
        apply findIndex_Some in Hf as (l & Hl & _).
        eapply storeInv_replace; [exact Hl | | exact H1].
        rewrite Hl; simpl. now rewrite isNewItem_setField.
      * now rewrite afterUpdate_failure.
    + rewrite afterDelete_store. destruct r as [| |data]; [exact Ht | exact Ht |].
      eapply storeInv_filter. exact Ht.
Qed.

Lemma allocAll_run (items : list Item) (s : State) :
  allocAll items s
  = (Some (seq (length (heap s)) (length items)), setHeap (heap s ++ items) s).
Proof.
  revert s. induction items as [|it rest IH]; intros s.
  - simpl. rewrite app_nil_r. now destruct s.
  - simpl. unfold mbind, Handler_bind, alloc. rewrite IH. simpl.
    rewrite length_app, <- app_assoc. simpl.
    now replace (length (heap s) + 1)%nat with (S (length (heap s))) by lia.
Qed.

Lemma storeOf_init (c : Controls) (r : Reply) :
  storeOf (run (init r) (initialState c))
  = (fetched r, seq O (length (fetched r)), [CallSelect], []).
Proof.
  unfold init. rewrite run_bind. simpl. rewrite run_bind.
  destruct r as [| |data]; simpl; [reflexivity | reflexivity |].
  rewrite run_bind, allocAll_run. reflexivity.
Qed.

Lemma countNew_zero (h : list Item) (od : list loc) :
  Forall (fun it => isNewItem it = false) h -> countNew h od = O.
Proof.
  intros H. unfold countNew. induction od as [|l od IH]; simpl; [reflexivity|].
  assert (Hl : isNewItem (deref h l) = false).
  { unfold deref. destruct (h !! l) as [x|] eqn:Hx; simpl; [|reflexivity].
    rewrite List.Forall_forall in H. apply H.
    apply list_elem_of_In. eapply list_elem_of_lookup_2. exact Hx. }
  now rewrite Hl.
Qed.

Lemma storeInv_init (c : Controls) (r : Reply) :
  replyOk r -> storeInv (storeOf (run (init r) (initialState c))).
Proof.
  intros Hok. rewrite storeOf_init. apply storeInv_intro.
  - apply List.Forall_forall. intros l Hl. apply in_seq in Hl. lia.
  - rewrite countNew_zero; [lia|].
    destruct r as [| |data]; simpl; [constructor | constructor |].
    simpl in Hok. apply List.Forall_map.
    eapply List.Forall_impl; [|exact Hok]. intros row Hrow. exact Hrow.
Qed.

Lemma reachable_storeInv (s : State) : reachable s -> storeInv (storeOf s).
Proof.
  induction 1 as [c r Hok | s ev _ IH Hok].
  - now apply storeInv_init.
  - now apply storeInv_step.
Qed.

(** C9: in every reachable state at most one canonical item carries the
    id of an unsaved row; every event, whatever the handler and whatever
    the order of the replies, leads to such a state again; and a request
    to add a row while an unsaved row exists changes neither the
    canonical array nor any object. *)
Theorem at_most_one_unsaved (s : State) :
  reachable s ->
  (sentinelCount s <= 1)%nat /\
  (forall ev, eventOk ev -> (sentinelCount (step s ev) <= 1)%nat) /\
  (forall now, hasNewItem s = true ->
               originalData (step s (EvAddItem now)) = originalData s /\
               heap (step s (EvAddItem now)) = heap s /\
               canonical (step s (EvAddItem now)) = canonical s).
Proof.
  intros Hs. split; [|split].
  - exact (proj2 (reachable_storeInv s Hs)).
  - intros ev Hok.
    exact (proj2 (storeInv_step s ev (reachable_storeInv s Hs) Hok)).
  - intros now Hn. now rewrite step_addItem_rejected.
Qed.

Lemma at_most_one_unsaved_sample :
  (sentinelCount (step (loaded [hallRow]) (EvAddItem 17)) <= 1)%nat.
Proof.
  refine (proj1 (at_most_one_unsaved (step (loaded [hallRow]) (EvAddItem 17)) _)).
  apply reach_step; [|exact I].
  apply reach_init. repeat constructor.
Defined.

(** ** Editing the unsaved row *)

Lemma findIndex_ext {A : Type} (p q : A -> bool) (l : list A) :
  Forall (fun x => p x = q x) l -> findIndex p l = findIndex q l.
Proof.
  induction 1 as [|x l Hx _ IH]; simpl; [reflexivity|]. now rewrite Hx, IH.
Qed.

Lemma sameId_app_old (h : list Item) (x : Item) (ident : jsval) (od : list loc) :
  refsValid h od ->
  Forall (fun l => sameId (h ++ [x]) ident l = sameId h ident l) od.
Proof.
  intros H. eapply List.Forall_impl; [|exact H]. intros l Hl; simpl in Hl.
  unfold sameId. now rewrite deref_app_old.
Qed.

Lemma storeOf_heap (s : State) h od cs ps :
  storeOf s = (h, od, cs, ps) ->
  heap s = h /\ originalData s = od /\ calls s = cs /\ pending s = ps.
Proof. unfold storeOf. intros H. now injection H. Qed.

Lemma blur_unsaved_row (s : State) (it : loc) (e : Edit) :
  isNewItem (deref (heap s) it) = true ->
  let field := editField e in
  let obj := deref (heap s) it in
  let obj' := setField field (editValue e) obj in
  let s' := step s (EvBlur it e) in
  (strictEq (getField field obj) (editValue e) = true -> s' = s) /\
  (strictEq (getField field obj) (editValue e) = false ->
   heap s' = <[it := obj']> (heap s) /\
   deref (heap s') it = obj' /\
   originalData s' = originalData s /\
   (truthy (category obj') && truthy (item obj') = true ->
    calls s' = calls s ++ [CallInsert (transformToDb obj')] /\
    pending s' = pending s ++ [KCreate it field]) /\
   (truthy (category obj') && truthy (item obj') = false ->
    calls s' = calls s /\ pending s' = pending s)).
Proof.
  intros Hnew. cbv zeta. split.
  - apply step_blur_unchanged.
  - intros Hne. rewrite (step_blur_sentinel s it e Hne Hnew).
    destruct (truthy _ && truthy _); simpl;
      (split; [reflexivity|]);
      (split; [apply deref_insert_eq; now apply isNewItem_valid|]);
      (split; [reflexivity|]); split; intros H; try discriminate H; now split.
Qed.

Lemma create_reply_unsaved_row (t : State) (n : nat) (it : loc) (field : Field)
    (r : Reply) :
  pending t !! n = Some (KCreate it field) ->
  wellFormed t ->
  isNewItem (deref (heap t) it) = true ->
  let t' := step t (EvReply n r) in
  match firstRow r with
  | Some created =>
      forall index,
        findIndex (sameId (heap t) (id (deref (heap t) it))) (originalData t)
        = Some index ->
        originalData t' = <[index := length (heap t)]> (originalData t) /\
        length (originalData t') = length (originalData t) /\
        canonical t' !! index = Some created /\
        deref (heap t') it = created
  | None =>
      heap t' = heap t /\ originalData t' = originalData t
  end.
Proof.
  intros Hk Hwf Hnew. cbv zeta. rewrite (step_reply t n r _ Hk). simpl resume.
  pose proof (isNewItem_valid _ _ Hnew) as Hit.
  destruct (firstRow r) as [created|] eqn:Hr.
  - intros index Hf.
    pose proof (afterCreate_success (setPending (delete n (pending t)) t)
                  it field r created Hr) as H.
    cbv zeta in H. simpl in H.
    rewrite deref_app_old in H by exact Hit.
    rewrite (findIndex_ext _ (sameId (heap t) (id (deref (heap t) it)))) in H
      by now apply sameId_app_old.
    rewrite Hf in H. apply storeOf_heap in H as (Hh & Hod & _).
    rewrite Hod. split; [reflexivity|]. split; [apply length_insert|].
    assert (Hlen : (length (<[it := created]> (heap t ++ [created])) = length (heap t) + 1)%nat).
    { rewrite length_insert, length_app. reflexivity. }
    split.
    + unfold canonical. rewrite Hh, Hod, list_lookup_fmap.
      apply findIndex_Some in Hf as (l & Hl & _).
      rewrite list_lookup_insert_eq by (eapply lookup_lt_Some; exact Hl).
      simpl. f_equal.
      destruct (Nat.eq_dec it (length (heap t))) as [->|Hne].
      * rewrite deref_insert_eq; [reflexivity | rewrite length_app; simpl; lia].
      * rewrite deref_insert_ne by exact Hne. apply deref_app_new.
    + rewrite Hh. apply deref_insert_eq. rewrite length_app; simpl; lia.
  - pose proof (afterCreate_failure (setPending (delete n (pending t)) t)
                  it field r Hr) as H.
    apply storeOf_heap in H as (Hh & Hod & _). now split.
Qed.

(** C6, as the code has it.  For the unsaved row: a blur that does not
    change the field does nothing; a blur that changes it stores the
    new value in the row object and issues a create call, with the row
    as payload, exactly when category and item are then both non-empty;
    otherwise it issues no call.  When the create succeeds, the entry
    of the canonical array that held the unsaved row now holds the
    persisted record, at the same index and with the array's length
    unchanged; when it fails, the array and every object stay as they
    were. *)
Theorem unsaved_row_create :
  (forall (s : State) (it : loc) (e : Edit),
      isNewItem (deref (heap s) it) = true ->
      let field := editField e in
      let obj := deref (heap s) it in
      let obj' := setField field (editValue e) obj in
      let s' := step s (EvBlur it e) in
      (strictEq (getField field obj) (editValue e) = true -> s' = s) /\
      (strictEq (getField field obj) (editValue e) = false ->
       heap s' = <[it := obj']> (heap s) /\
       deref (heap s') it = obj' /\
       originalData s' = originalData s /\
       (truthy (category obj') && truthy (item obj') = true ->
        calls s' = calls s ++ [CallInsert (transformToDb obj')] /\
        pending s' = pending s ++ [KCreate it field]) /\
       (truthy (category obj') && truthy (item obj') = false ->
        calls s' = calls s /\ pending s' = pending s))) /\
  (forall (t : State) (n : nat) (it : loc) (field : Field) (r : Reply),
      pending t !! n = Some (KCreate it field) ->
      wellFormed t ->
      isNewItem (deref (heap t) it) = true ->
      let t' := step t (EvReply n r) in
      match firstRow r with
      | Some created =>
          forall index,
            findIndex (sameId (heap t) (id (deref (heap t) it))) (originalData t)
            = Some index ->
            originalData t' = <[index := length (heap t)]> (originalData t) /\
            length (originalData t') = length (originalData t) /\
            canonical t' !! index = Some created /\
            deref (heap t') it = created
      | None =>
          heap t' = heap t /\ originalData t' = originalData t
      end).
Proof.
  split.
  - exact blur_unsaved_row.
  - exact create_reply_unsaved_row.
Qed.

(** The scenario of the specification: category alone issues no call,
    the item name then issues the create call, and the reply takes the
    place of the unsaved row at the head of the array. *)
Lemma unsaved_row_create_sample :
  calls withCategory = calls withBlankRow /\
  calls withBouquet
  = calls withCategory
    ++ [CallInsert
          {| Db.id := VUndef; Db.category := VStr "Flowers"; Db.item := VStr "Bouquet";
             Db.required := VStr "No"; Db.notes := VStr ""; Db.unit_cost := VNull;
             Db.quantity := VNull; Db.sub_total := VNull; Db.md_content := VNull;
             Db.html := VNull |}] /\
  canonical (step withBouquet (EvReply O (RData [rosesRow]))) !! O
  = Some (transformItem rosesRow).
Proof.
  destruct unsaved_row_create as [Hblur Hreply].
  split; [|split].
  - destruct (Hblur withBlankRow 1%nat (EditCategory "Flowers") eq_refl) as [_ H].
    destruct (H eq_refl) as (_ & _ & _ & _ & Hno).
    exact (proj1 (Hno eq_refl)).
  - destruct (Hblur withCategory 1%nat (EditItem "Bouquet") eq_refl) as [_ H].
    destruct (H eq_refl) as (_ & _ & _ & Hyes & _).
    exact (proj1 (Hyes eq_refl)).
  - pose proof (Hreply withBouquet O 1%nat FItem (RData [rosesRow]) eq_refl) as H.
    assert (Hwf : wellFormed withBouquet) by (vm_compute; repeat constructor).
    specialize (H Hwf eq_refl). simpl in H.
    destruct (H O eq_refl) as (_ & _ & Hc & _). exact Hc.
Defined.

(** C6 as worded fails: after a failed create the row has a category
    and an item, yet a blur that leaves the item as it is issues no
    create call. *)
Lemma unchanged_blur_issues_no_create :
  ~ (forall (s : State) (it : loc) (e : Edit),
       isNewItem (deref (heap s) it) = true ->
       let obj' := setField (editField e) (editValue e) (deref (heap s) it) in
       truthy (category obj') && truthy (item obj') = true <->
       exists payload, calls (step s (EvBlur it e)) = calls s ++ [CallInsert payload]).
Proof.
  intros H.
  specialize (H afterFailedCreate 1%nat (EditItem "Bouquet") eq_refl).
  cbv zeta in H. destruct H as [H _].
  destruct (H eq_refl) as [payload Hp].
  vm_compute in Hp. discriminate Hp.
Qed.

(** ** Updating one field of a persisted row *)







Lemma pending_after_blur (s : State) (k : Cont) :
  (pending s ++ [k]) !! length (pending s) = Some k /\
  delete (length (pending s)) (pending s ++ [k]) = pending s.
Proof.
  split.
  - rewrite lookup_app_r by lia. now rewrite Nat.sub_diag.
  - induction (pending s) as [|x l IH]; simpl; [reflexivity|].
    unfold delete in IH |- *. simpl. now rewrite IH.
Qed.



(** ** Adding a row and discarding it *)

Lemma strictEq_eq (a b : jsval) : strictEq a b = true -> a = b.
Proof.
  destruct a, b; simpl; intros H; try discriminate H; try reflexivity.
  - apply Z.eqb_eq in H. now subst.
  - apply String.eqb_eq in H. now subst.
Qed.

Lemma strictEq_refl (a : jsval) : strictEq a a = true.
Proof. destruct a; simpl; [reflexivity | reflexivity | apply Z.eqb_refl | apply String.eqb_refl]. Qed.

Lemma setField_same (f : Field) (v : jsval) (it : Item) :
  strictEq (getField f it) v = true -> setField f v it = it.
Proof.
  intros H. apply strictEq_eq in H. subst v. now destruct it, f.
Qed.

(** Edits that never complete the row change nothing but the row. *)
Lemma incomplete_edits (es : list Edit) (t : State) (row : loc) :
  isNewItem (deref (heap t) row) = true ->
  staysIncomplete (deref (heap t) row) es = true ->
  let t' := steps t (map (EvBlur row) es) in
  calls t' = calls t /\ pending t' = pending t /\
  originalData t' = originalData t /\
  length (heap t') = length (heap t) /\
  id (deref (heap t') row) = id (deref (heap t) row) /\
  (forall l, l <> row -> deref (heap t') l = deref (heap t) l).
Proof.
  revert t. induction es as [|e es IH]; intros t Hnew Hinc; cbv zeta.
  - simpl. repeat split.
  - simpl in Hinc. apply andb_true_iff in Hinc as [Hnow Hrest].
    apply negb_true_iff in Hnow.
    simpl map. unfold steps. simpl fold_left. fold (steps (step t (EvBlur row e)) (map (EvBlur row) es)).
    destruct (blur_unsaved_row t row e Hnew) as [Hsame Hchg]. cbv zeta in Hsame, Hchg.
    destruct (strictEq (getField (editField e) (deref (heap t) row)) (editValue e)) eqn:Heq.
    + rewrite (Hsame eq_refl). rewrite (setField_same _ _ _ Heq) in Hrest.
      exact (IH t Hnew Hrest).
    + destruct (Hchg eq_refl) as (Hh & Hd & Hod & _ & Hno).
      destruct (Hno Hnow) as [Hc Hp].
      set (t1 := step t (EvBlur row e)) in *.
      assert (Hnew1 : isNewItem (deref (heap t1) row) = true).
      { rewrite Hd. now rewrite isNewItem_setField. }
      rewrite <- Hd in Hrest.
      destruct (IH t1 Hnew1 Hrest) as (Hc' & Hp' & Hod' & Hlen' & Hid' & Hframe').
      cbv zeta in *.
      rewrite Hc', Hp', Hod', Hlen', Hid', Hc, Hp, Hod, Hd, Hh, id_setField, length_insert.
      repeat split. intros l Hl. rewrite Hframe' by exact Hl.
      rewrite Hh. now apply deref_insert_ne.
Qed.

Lemma filter_all {A : Type} (p : A -> bool) (l : list A) :
  Forall (fun x => p x = true) l -> List.filter p l = l.
Proof. induction 1 as [|x l Hx _ IH]; simpl; [reflexivity|]. now rewrite Hx, IH. Qed.

Lemma hasNewItem_false (s : State) (l : loc) :
  hasNewItem s = false -> In l (originalData s) -> isNewItem (deref (heap s) l) = false.
Proof.
  unfold hasNewItem. intros H Hl.
  destruct (isNewItem (deref (heap s) l)) eqn:E; [|reflexivity].
  rewrite <- H. symmetry. apply existsb_exists. now exists l.
Qed.

(** C8, as the code has it: adding a row and deleting it again, with
    any edits of the row in between that never leave both its category
    and its item non-empty, issues no repository call, leaves no reply
    awaited, and gives back the canonical array entry by entry and the
    canonical items field by field. *)
Theorem add_then_delete_unsaved (s : State) (now : Z) (es : list Edit) (confirmed : bool) :
  wellFormed s ->
  hasNewItem s = false ->
  staysIncomplete (newItem now) es = true ->
  let row := length (heap s) in
  let s1 := step s (EvAddItem now) in
  let s2 := steps s1 (map (EvBlur row) es) in
  let s3 := step s2 (EvDelete (id (newItem now)) confirmed) in
  originalData s1 = row :: originalData s /\
  calls s3 = calls s /\ pending s3 = pending s /\
  originalData s3 = originalData s /\
  canonical s3 = canonical s.
Proof.
  intros Hwf Hno Hinc. cbv zeta.
  pose proof (storeOf_addItem s now Hno) as H1. apply storeOf_heap in H1 as (Hh1 & Hod1 & Hc1 & Hp1).
  set (s1 := step s (EvAddItem now)) in *.
  assert (Hrow : deref (heap s1) (length (heap s)) = newItem now).
  { rewrite Hh1. apply deref_app_new. }
  destruct (incomplete_edits es s1 (length (heap s)))
    as (Hc2 & Hp2 & Hod2 & Hlen2 & Hid2 & Hframe2).
  { rewrite Hrow. apply isNewItem_newItem. }
  { now rewrite Hrow. }
  cbv zeta in *. set (s2 := steps s1 _) in *.
  assert (Hid : isNewItemId (id (newItem now)) = true) by apply isNewItem_newItem.
  pose proof (storeOf_delete_unsaved s2 (id (newItem now)) confirmed Hid) as H3.
  apply storeOf_heap in H3 as (Hh3 & Hod3 & Hc3 & Hp3).
  set (s3 := step s2 _) in *.
  assert (Hold : forall l, In l (originalData s) ->
                           deref (heap s2) l = deref (heap s) l /\
                           isNewItem (deref (heap s) l) = false).
  { intros l Hl.
    assert (Hlt : (l < length (heap s))%nat).
    { unfold wellFormed, refsValid in Hwf. rewrite List.Forall_forall in Hwf. now apply Hwf. }
    split; [|now apply hasNewItem_false].
    rewrite Hframe2 by lia. rewrite Hh1. now apply deref_app_old. }
  assert (Hod : originalData s3 = originalData s).
  { rewrite Hod3, Hod2, Hod1. rewrite Hrow in Hid2.
    cbn [List.filter]. unfold sameId at 1. rewrite Hid2, strictEq_refl.
    cbn [negb]. apply filter_all. apply List.Forall_forall. intros l Hl.
    destruct (Hold l Hl) as [Hd Hn]. unfold sameId. rewrite Hd.
    destruct (strictEq (id (deref (heap s) l)) (id (newItem now))) eqn:E; [|reflexivity].
    apply strictEq_eq in E. unfold isNewItem in Hn. rewrite E, Hid in Hn. discriminate Hn. }
  split; [exact Hod1|]. split; [now rewrite Hc3, Hc2, Hc1|].
  split; [now rewrite Hp3, Hp2, Hp1|]. split; [exact Hod|].
  unfold canonical. rewrite Hod, Hh3. apply map_ext_in.
  intros l Hl. now apply Hold.
Qed.

Lemma add_then_delete_sample :
  let s := loaded [hallRow] in
  let s3 := step (steps (step s (EvAddItem 17))
                    (map (EvBlur 1%nat) [EditCategory "Flowers"; EditUnitCost (Some 20)]))
              (EvDelete (id (newItem 17)) false) in
  calls s3 = calls s /\ canonical s3 = canonical s.
Proof.
  destruct (add_then_delete_unsaved (loaded [hallRow]) 17
              [EditCategory "Flowers"; EditUnitCost (Some 20)] false)
    as (_ & Hc & _ & _ & Hcan); try reflexivity.
  - repeat constructor.
  - now split.
Defined.

(** C8 as worded fails: a save that was attempted and failed has issued
    a create call before the row is deleted. *)
Lemma failed_save_has_called :
  ~ (forall (s : State) (now : Z) (evs : list Event) (confirmed : bool),
       wellFormed s -> hasNewItem s = false -> noSuccessfulSave evs ->
       calls (step (steps (step s (EvAddItem now)) evs)
                (EvDelete (id (newItem now)) confirmed))
       = calls s).
Proof.
  intros H.
  specialize (H (loaded [hallRow]) 17
                [EvBlur 1%nat (EditCategory "Flowers");
                 EvBlur 1%nat (EditItem "Bouquet");
                 EvReply O RError] false).
  assert (Hwf : wellFormed (loaded [hallRow])) by (vm_compute; repeat constructor).
  assert (Hev : noSuccessfulSave
                  [EvBlur 1%nat (EditCategory "Flowers");
                   EvBlur 1%nat (EditItem "Bouquet");
                   EvReply O RError]) by (repeat constructor).
  specialize (H Hwf eq_refl Hev). vm_compute in H. discriminate H.
Qed.

(** ** Escaping *)

Lemma append_cons (c : ascii) (a b : string) :
  (String c a ++ b)%string = String c (a ++ b)%string.
Proof. reflexivity. Qed.

Lemma append_assoc (a b c : string) :
  (a ++ (b ++ c))%string = ((a ++ b) ++ c)%string.
Proof.
  induction a as [|d a IH]; [reflexivity|]. now rewrite !append_cons, IH.
Qed.

Lemma replaceAll_app (c : ascii) (r a b : string) :
  JsString.replaceAll c r (a ++ b)%string
  = (JsString.replaceAll c r a ++ JsString.replaceAll c r b)%string.
Proof.
  induction a as [|d a IH]; [reflexivity|].
  rewrite append_cons. simpl. rewrite IH.
  destruct (Ascii.eqb d c); [apply append_assoc | now rewrite append_cons].
Qed.

Lemma contains_app (c : ascii) (a b : string) :
  JsString.contains c (a ++ b)%string
  = JsString.contains c a || JsString.contains c b.
Proof.
  induction a as [|d a IH]; [reflexivity|].
  rewrite append_cons. simpl. rewrite IH. now destruct (Ascii.eqb d c).
Qed.

Lemma replaceChain_app (a b : string) :
  replaceChain (a ++ b)%string = (replaceChain a ++ replaceChain b)%string.
Proof. unfold replaceChain. now rewrite !replaceAll_app. Qed.

Lemma replaceChain_char (c : ascii) :
  replaceChain (String c EmptyString) = escapeChar c.
Proof. destruct c as [[] [] [] [] [] [] [] []]; reflexivity. Qed.

Lemma replaceChain_escapeEach (s : string) : replaceChain s = escapeEach s.
Proof.
  induction s as [|c s IH]; [reflexivity|].
  change (String c s) with (String c EmptyString ++ s)%string.
  now rewrite replaceChain_app, replaceChain_char, IH.
Qed.

Lemma escapeChar_safe (c : ascii) :
  JsString.contains "<" (escapeChar c) = false /\
  JsString.contains ">" (escapeChar c) = false /\
  JsString.contains "034" (escapeChar c) = false /\
  JsString.contains "'" (escapeChar c) = false.
Proof. destruct c as [[] [] [] [] [] [] [] []]; repeat split; reflexivity. Qed.

Lemma escapeEach_safe (s : string) :
  JsString.contains "<" (escapeEach s) = false /\
  JsString.contains ">" (escapeEach s) = false /\
  JsString.contains "034" (escapeEach s) = false /\
  JsString.contains "'" (escapeEach s) = false.
Proof.
  induction s as [|c s (H1 & H2 & H3 & H4)]; [repeat split|].
  destruct (escapeChar_safe c) as (E1 & E2 & E3 & E4).
  simpl escapeEach. rewrite !contains_app, H1, H2, H3, H4, E1, E2, E3, E4.
  repeat split.
Qed.

(** C10: whatever it is given, [escapeHtml] returns a string without
    [<], [>], the double quote and the single quote; the result is the
    text of the input with each of these four characters and each [&]
    replaced by its entity, [&] by [&amp;]; and a falsy input, the empty
    string, [null], [undefined] or [0], gives the empty string. *)
Theorem escapeHtml_safe (str : jsval) :
  (JsString.contains "<" (escapeHtml str) = false /\
   JsString.contains ">" (escapeHtml str) = false /\
   JsString.contains "034" (escapeHtml str) = false /\
   JsString.contains "'" (escapeHtml str) = false) /\
  escapeHtml str = (if truthy str then escapeEach (toString str) else EmptyString) /\
  escapeChar "&" = "&amp;" /\
  escapeHtml (VStr EmptyString) = EmptyString /\
  escapeHtml VNull = EmptyString /\
  escapeHtml VUndef = EmptyString /\
  escapeHtml (VNum 0) = EmptyString.
Proof.
  assert (H : escapeHtml str
              = if truthy str then escapeEach (toString str) else EmptyString).
  { unfold escapeHtml. destruct (truthy str); simpl; [|reflexivity].
    apply replaceChain_escapeEach. }
  split; [|repeat split; exact H].
  rewrite H. destruct (truthy str); [apply escapeEach_safe | repeat split].
Qed.

(** ** Reachable pages are well formed *)

Lemma reachable_wellFormed (s : State) : reachable s -> wellFormed s.
Proof. intros H. exact (proj1 (reachable_storeInv s H)). Qed.

(** ** Scenarios of the specification *)

Example search_hall :
  length (view (step (loaded [venueRow]) (EvFilterChange (mkControls "hall" "" false)))) = 1%nat
  /\ length (view (step (loaded [venueRow]) (EvFilterChange (mkControls "zzz" "" false)))) = O.
Proof. split; reflexivity. Qed.

Example sort_by_subtotal :
  map id (view (step (loaded [twiceHundred; onceFifty]) (EvSortClick "subTotal")))
  = [VNum 2; VNum 1].
Proof. reflexivity. Qed.

Example update_unit_cost :
  let s1 := step (loaded [twiceHundred]) (EvBlur O (EditUnitCost (Some 150))) in
  let s2 := step s1 (EvReply O (RData [twiceHundred])) in
  option_map unitCost (canonicalRecord s2 (VNum 1)) = Some (VNum 150) /\
  totalCost (summary s2) = "300.00" /\
  calls s2 = [CallSelect; CallUpdate (VNum 1) "unit_cost" (VNum 150)].
Proof. repeat split; reflexivity. Qed.

(** * Further properties of the list page *)

(** ** Rendering again *)

Lemma arraySort_fixed {A : Type} (cmp : A -> A -> Z) (l : list A) :
  Sorted (before cmp) l -> arraySort cmp l = l.
Proof.
  induction 1 as [|x l Hs IH Hhd]; simpl; [reflexivity|].
  rewrite IH. destruct Hhd as [|y l' Hxy]; simpl; [reflexivity|].
  unfold before in Hxy. now destruct (Z.leb_spec (cmp x y) 0); [|lia].
Qed.

Lemma sortData_after_render (s : State) :
  run sortData (run renderTable s) = run renderTable s.
Proof.
  rewrite run_sortData.
  assert (H : arraySort (viewCompare (run renderTable s))
                (filteredData (run renderTable s))
              = filteredData (run renderTable s)).
  { change (arraySort (viewCompare s) (arraySort (viewCompare s) (filteredData s))
            = arraySort (viewCompare s) (filteredData s)).
    apply arraySort_fixed, arraySort_sorted, viewCompare_antisym. }
  rewrite H. reflexivity.
Qed.

(** X1: rendering a rendered page again changes nothing, neither the
    order of the rows nor the summary; so leaving edit mode, which only
    renders, leaves a page as the last render left it, for instance
    after a click on a sort header. *)
Theorem renderTable_idempotent (s : State) (k : string) :
  run renderTable (run renderTable s) = run renderTable s /\
  step (run renderTable s) EvExitEdit = run renderTable s /\
  step (step s (EvSortClick k)) EvExitEdit = step s (EvSortClick k).
Proof.
  assert (H : forall t, run renderTable (run renderTable t) = run renderTable t).
  { intros t. rewrite (run_renderTable (run renderTable t)), sortData_after_render.
    reflexivity. }
  split; [apply H|]. split; [apply H|].
  rewrite step_sortClick. apply H.
Qed.

(** ** Controls that filter nothing *)

Lemma filterCallback_noFilter (c : Controls) (it : Item) :
  noFilter c -> filterCallback c it = Some true.
Proof.
  intros (Hs & Hc & Hr). unfold filterCallback, matchesSearch, matchesCategory, matchesRequired.
  unfold searchTerm in Hs. rewrite isEmpty_toLowerCase, Hs, Hc, Hr. reflexivity.
Qed.

Lemma filter_length_perm {A : Type} (p : A -> bool) (l l' : list A) :
  Permutation l l' -> length (List.filter p l) = length (List.filter p l').
Proof.
  induction 1 as [|x l l' _ IH|x y l|l l' l'' _ IH1 _ IH2]; simpl.
  - reflexivity.
  - destruct (p x); simpl; now rewrite IH.
  - destruct (p x), (p y); reflexivity.
  - now rewrite IH1.
Qed.

Lemma filter_length_split {A : Type} (p : A -> bool) (l : list A) :
  (length (List.filter (fun x => negb (p x)) l) + length (List.filter p l))%nat = length l.
Proof.
  induction l as [|x l IH]; simpl; [reflexivity|].
  destruct (p x); simpl; lia.
Qed.

Lemma step_filterChange_noFilter (s : State) (c : Controls) :
  noFilter c ->
  step s (EvFilterChange c)
  = run renderTable (setFilteredData (originalData s) (setControls c s)).
Proof.
  intros H. unfold step, handle. rewrite run_bind. simpl.
  unfold handleFilterChange. rewrite run_bind.
  unfold applyFilters at 1, mbind at 1, Handler_bind at 1, gets. simpl.
  rewrite (arrayFilter_total _ (fun _ => true)).
  - rewrite filter_all by (apply List.Forall_forall; reflexivity). reflexivity.
  - apply List.Forall_forall. intros l _. now apply filterCallback_noFilter.
Qed.

(** X2: when the search box is blank, no category is selected and the
    required box is unticked, the filter keeps every canonical item,
    whatever its fields hold: the view is a rearrangement of the
    canonical array, the visible count equals the total count, and both
    count the canonical items other than the unsaved row. *)
Theorem no_filter_shows_all (s : State) (c : Controls) :
  noFilter c ->
  let s' := step s (EvFilterChange c) in
  Permutation (filteredData s') (originalData s) /\
  originalData s' = originalData s /\
  visibleCount (summary s') = totalCount (summary s') /\
  (totalCount (summary s') + sentinelCount s)%nat = length (originalData s).
Proof.
  intros H. cbv zeta. rewrite (step_filterChange_noFilter s c H), run_renderTable.
  rewrite run_sortData. simpl.
  set (fd := arraySort _ (originalData s)).
  assert (Hp : Permutation fd (originalData s)) by apply arraySort_perm.
  split; [exact Hp|]. split; [reflexivity|]. split.
  - now apply filter_length_perm.
  - unfold sentinelCount, countNew. apply filter_length_split.
Qed.

Lemma no_filter_sample :
  let s' := step (setControls (mkControls "roses" "" true) withBlankRow)
              (EvFilterChange (mkControls "   " "" false)) in
  visibleCount (summary s') = totalCount (summary s').
Proof.
  refine (proj1 (proj2 (proj2
            (no_filter_shows_all (setControls (mkControls "roses" "" true) withBlankRow)
               (mkControls "   " "" false) _)))).
  repeat split.
Defined.

(** ** Deleting a persisted item *)

Lemma canonical_removeById (h : list Item) (ident : jsval) (od : list loc) :
  map (deref h) (List.filter (fun l => negb (sameId h ident l)) od)
  = List.filter (fun it => negb (strictEq (id it) ident)) (map (deref h) od).
Proof.
  exact (map_filter_comm (deref h) (fun it => negb (strictEq (id it) ident)) od).
Qed.

Lemma storeOf_components (s : State) (h : list Item) (o : list loc)
    (c : list Call) (p : list Cont) :
  storeOf s = (h, o, c, p) ->
  heap s = h /\ originalData s = o /\ calls s = c /\ pending s = p.
Proof. unfold storeOf. intros H. inversion H. now repeat split. Qed.

Lemma step_delete_request (s : State) (ident : jsval) :
  isNewItemId ident = false ->
  step s (EvDelete ident true)
  = setPending (pending s ++ [KDelete ident])
      (setCalls (calls s ++ [CallDelete ident]) s).
Proof.
  intros H. unfold step, handle, handleDelete. now rewrite H.
Qed.

(** X3: deleting an item that is not the unsaved row.  A refused
    confirmation leaves the whole page state as it is.  A confirmed one
    sends one delete call for that id and removes nothing yet: the
    canonical array and the view are as before.  When the reply to that
    call reports success, the canonical array loses exactly the items
    with that id, the others keeping their order; when it reports an
    error or the call throws, the canonical array and the view stay as
    they were.  No further call is sent in either case. *)
Theorem delete_persisted (s : State) (ident : jsval) (r : Reply) :
  isNewItemId ident = false ->
  let s1 := step s (EvDelete ident true) in
  let s2 := step s1 (EvReply (length (pending s)) r) in
  step s (EvDelete ident false) = s /\
  (calls s1 = calls s ++ [CallDelete ident] /\
   canonical s1 = canonical s /\ view s1 = view s) /\
  (canonical s2
   = match r with
     | RData _ => List.filter (fun it => negb (strictEq (id it) ident)) (canonical s)
     | _ => canonical s
     end) /\
  (match r with RData _ => True | _ => view s2 = view s end) /\
  calls s2 = calls s1 /\ pending s2 = pending s.
Proof.
  intros H. cbv zeta. rewrite (step_delete_request s ident H).
  set (s1 := setPending _ _).
  split; [unfold step, handle, handleDelete; now rewrite H|].
  split; [now repeat split|].
  destruct (pending_after_blur s (KDelete ident)) as [Hk Hd].
  rewrite (step_reply s1 (length (pending s)) r (KDelete ident) Hk). simpl resume.
  set (t := setPending _ s1).
  assert (Ht : storeOf t = (heap s, originalData s, calls s ++ [CallDelete ident], pending s)).
  { unfold t, storeOf. simpl. now rewrite Hd. }
  pose proof (afterDelete_store t ident r) as Hs.
  unfold canonical.
  destruct r as [| |data]; rewrite ?Ht in Hs;
    apply storeOf_components in Hs; destruct Hs as (Hh & Ho & Hc & Hp);
    rewrite Hh, Ho, Hc, Hp.
  - now repeat split.
  - now repeat split.
  - apply storeOf_components in Ht. destruct Ht as (Hh' & Ho' & Hc' & Hp').
    rewrite Hh', Ho', Hc', Hp', canonical_removeById. now repeat split.
Qed.

Lemma delete_persisted_sample :
  canonical (step (step (loaded [rosesRow; tulipsRow]) (EvDelete (VNum 2) true)) (EvReply 0 (RData [])))
  = List.filter (fun it => negb (strictEq (id it) (VNum 2))) (canonical (loaded [rosesRow; tulipsRow])).
Proof.
  exact (proj1 (proj2 (proj2
           (delete_persisted (loaded [rosesRow; tulipsRow]) (VNum 2) (RData []) eq_refl)))).
Defined.

(** ** Loading the page *)

Lemma deref_seq (p h : list Item) :
  map (deref (p ++ h)) (seq (length p) (length h)) = h.
Proof.
  revert p. induction h as [|x h IH]; intros p; simpl; [reflexivity|].
  f_equal.
  - unfold deref. rewrite lookup_app_r by lia. now rewrite Nat.sub_diag.
  - specialize (IH (p ++ [x])). rewrite <- app_assoc, length_app in IH. simpl in IH.
    now replace (length p + 1)%nat with (S (length p)) in IH by lia.
Qed.

Lemma run_init_data (c : Controls) (rows : list Db.row) :
  let items := map transformItem rows in
  let refs := seq O (length items) in
  run (init (RData rows)) (initialState c)
  = run renderTable
      (mkState items refs refs (mkSort "id" true) c emptySummary [CallSelect] [] []).
Proof.
  cbv zeta. unfold init. rewrite run_bind. simpl. rewrite run_bind. simpl.
  rewrite run_bind, allocAll_run. reflexivity.
Qed.

Lemma Sorted_map_inv {A B : Type} (R : B -> B -> Prop) (f : A -> B) (l : list A) :
  Sorted R (map f l) -> Sorted (fun a b => R (f a) (f b)) l.
Proof.
  induction l as [|x l IH]; simpl; intros H; [constructor|].
  inversion H as [|? ? Hs Hh]; subst. constructor; [now apply IH|].
  destruct l; simpl in Hh; [constructor|].
  inversion Hh; subst. now constructor.
Qed.

Lemma compareItems_id (a b : Item) (x y : Z) :
  id a = VNum x -> id b = VNum y -> compareItems "id" true a b = x - y.
Proof.
  intros Ha Hb. unfold compareItems, sortValue, getProp. simpl.
  now rewrite Ha, Hb.
Qed.

Lemma ordered_rows_sorted (rows : list Db.row) (ids : list Z) :
  orderedById rows ids ->
  Sorted (before (compareItems "id" true)) (map transformItem rows).
Proof.
  intros [Hm Hs]. revert rows Hm.
  induction Hs as [|n ids Hs IH Hh]; intros [|r rows] Hm; simpl in Hm; try discriminate.
  - constructor.
  - injection Hm as Hr Hm. simpl. constructor; [now apply IH|].
    destruct rows as [|r' rows]; simpl; [constructor|].
    destruct ids as [|n' ids]; simpl in Hm; [discriminate|].
    injection Hm as Hr' _. inversion Hh; subst.
    constructor. unfold before.
    rewrite (compareItems_id (transformItem r) (transformItem r') n n') by assumption.
    lia.
Qed.

Lemma ordered_rows_persisted (rows : list Db.row) (ids : list Z) :
  orderedById rows ids ->
  Forall (fun it => negb (isNewItem it) = true) (map transformItem rows).
Proof.
  intros [Hm _]. revert ids Hm.
  induction rows as [|r rows IH]; intros [|n ids] Hm; simpl in Hm; try discriminate.
  - constructor.
  - injection Hm as Hr Hm. simpl. constructor; [|now apply (IH ids)].
    unfold isNewItem, transformItem. cbn [id]. now rewrite Hr.
Qed.

(** X4: loading the page.  When the query answers with rows whose ids
    are numbers in ascending order, the canonical array holds the
    transformed rows in that order and the first render shows them in
    the same order, whatever the filter controls read at that moment
    (no filter is applied on load); both counts are the number of rows,
    the total is the sum over all of them, and the select call is the
    only call made. *)
Theorem init_shows_rows (c : Controls) (rows : list Db.row) (ids : list Z) :
  orderedById rows ids ->
  let s := run (init (RData rows)) (initialState c) in
  canonical s = map transformItem rows /\
  view s = map transformItem rows /\
  totalCount (summary s) = length rows /\
  visibleCount (summary s) = length rows /\
  totalCost (summary s) = toFixed2 (sumOver storedOrComputed (map transformItem rows)) /\
  calls s = [CallSelect] /\ pending s = [].
Proof.
  intros H. cbv zeta. rewrite run_init_data. cbv zeta.
  set (items := map transformItem rows).
  set (refs := seq O (length items)).
  set (s0 := mkState items refs refs _ c _ _ _ _).
  assert (Hd : map (deref items) refs = items) by exact (deref_seq [] items).
  assert (Hfix : run sortData s0 = s0).
  { rewrite run_sortData. unfold setFilteredData. simpl.
    rewrite arraySort_fixed; [reflexivity|].
    apply (Sorted_map_inv (before (compareItems "id" true)) (deref items)).
    rewrite Hd. exact (ordered_rows_sorted rows ids H). }
  assert (Hcount : length (List.filter (fun l => negb (isNewItem (deref items l))) refs)
                   = length rows).
  { rewrite <- (length_map (deref items)).
    rewrite (map_filter_comm (deref items) (fun it => negb (isNewItem it))), Hd.
    rewrite filter_all by exact (ordered_rows_persisted rows ids H).
    apply length_map. }
  rewrite run_renderTable, Hfix.
  split; [exact Hd|]. split; [exact Hd|].
  split; [exact Hcount|]. split; [exact Hcount|].
  split; [|now split].
  rewrite updateSummary_total. unfold view. simpl. now rewrite Hd.
Qed.

Lemma init_shows_rows_sample :
  view (run (init (RData [rosesRow; tulipsRow])) (initialState (mkControls "band" "Music" true)))
  = map transformItem [rosesRow; tulipsRow].
Proof.
  refine (proj1 (proj2
            (init_shows_rows (mkControls "band" "Music" true) [rosesRow; tulipsRow] [1; 2] _))).
  split; [reflexivity|]. repeat constructor. lia.
Defined.

(** X5: whatever the query answers, the first render shows a
    rearrangement of the whole canonical array, whatever the filter
    controls read, and the visible count equals the total count.  When
    the query reports an error or throws, the page is empty (both counts
    0, total 0.00) and exactly one error banner is shown. *)
Theorem init_unfiltered (c : Controls) (r : Reply) :
  let s := run (init r) (initialState c) in
  Permutation (view s) (canonical s) /\
  visibleCount (summary s) = totalCount (summary s) /\
  match r with
  | RData rows => canonical s = map transformItem rows /\ ui s = []
  | _ => canonical s = [] /\ view s = [] /\
         summary s = mkSummary O O "0.00" /\
         exists message, ui s = [ShowError message]
  end.
Proof.
  cbv zeta. destruct r as [| |rows].
  - split; [constructor|]. split; [reflexivity|].
    repeat split. now eexists.
  - split; [constructor|]. split; [reflexivity|].
    repeat split. now eexists.
  - rewrite run_init_data. cbv zeta.
    set (items := map transformItem rows).
    set (refs := seq O (length items)).
    set (s0 := mkState items refs refs _ c _ _ _ _).
    rewrite run_renderTable, run_sortData.
    assert (Hp : Permutation (arraySort (viewCompare s0) refs) refs) by apply arraySort_perm.
    split; [|split; [|split]].
    + unfold view, canonical. simpl. now apply Permutation_map.
    + simpl. now apply filter_length_perm.
    + exact (deref_seq [] items).
    + reflexivity.
Qed.

(** ** The transform layer *)

Lemma lowerChar_not_upper (c : ascii) : isUpper (JsString.lowerChar c) = false.
Proof. destruct c as [[] [] [] [] [] [] [] []]; reflexivity. Qed.

Lemma lowerChar_fixed (c : ascii) : isUpper c = false -> JsString.lowerChar c = c.
Proof. unfold JsString.lowerChar, isUpper. now intros ->. Qed.

Lemma camelToSnake_lower (s : string) : hasUpper (JsString.camelToSnake s) = false.
Proof.
  induction s as [|c s IH]; [reflexivity|].
  change (JsString.camelToSnake (String c s))
    with (if isUpper c
          then String "_" (String (JsString.lowerChar c) (JsString.camelToSnake s))
          else String c (JsString.camelToSnake s)).
  destruct (isUpper c) eqn:E.
  - change (isUpper "_" || (isUpper (JsString.lowerChar c)
                            || hasUpper (JsString.camelToSnake s)) = false).
    now rewrite lowerChar_not_upper, IH.
  - change (isUpper c || hasUpper (JsString.camelToSnake s) = false).
    now rewrite E, IH.
Qed.

Lemma camelToSnake_fixed (s : string) :
  hasUpper s = false -> JsString.camelToSnake s = s.
Proof.
  induction s as [|c s IH]; [reflexivity|].
  change (hasUpper (String c s)) with (isUpper c || hasUpper s).
  intros H. apply orb_false_iff in H. destruct H as [Hc Hs].
  change (JsString.camelToSnake (String c s))
    with (if isUpper c
          then String "_" (String (JsString.lowerChar c) (JsString.camelToSnake s))
          else String c (JsString.camelToSnake s)).
  now rewrite Hc, IH.
Qed.

(** X6: the column name that a field update sends is the column from
    which [transformItem] fills that field, for each of the five
    editable fields; and in general [camelToSnake] returns a name
    without capital letters and returns a name without capital letters
    as it is, so applying it twice is applying it once. *)
Theorem camelToSnake_names_column :
  (forall (f : Field) (row : Db.row),
      getField f (transformItem row)
      = dbColumn (JsString.camelToSnake (fieldName f)) row) /\
  (forall s : string, hasUpper (JsString.camelToSnake s) = false) /\
  (forall s : string, hasUpper s = false -> JsString.camelToSnake s = s) /\
  (forall s : string,
      JsString.camelToSnake (JsString.camelToSnake s) = JsString.camelToSnake s).
Proof.
  split; [intros [] row; reflexivity|].
  split; [exact camelToSnake_lower|].
  split; [exact camelToSnake_fixed|].
  intros s. apply camelToSnake_fixed, camelToSnake_lower.
Qed.

Lemma orElse_null_twice (v : jsval) : orElse (orElse v VNull) VNull = orElse v VNull.
Proof. unfold orElse. destruct (truthy v) eqn:E; [now rewrite E | reflexivity]. Qed.

(** X7: the payload of a create call is stable under a round trip: an
    item read back from its own payload yields the same payload again.
    The payload never carries the id nor the pre-rendered html, and
    sends [null] for a unit cost, quantity, subtotal or markdown text
    that is missing, zero or empty. *)
Theorem transformToDb_stable (it : Item) :
  transformToDb (transformItem (transformToDb it)) = transformToDb it /\
  (forall f : Item -> jsval,
      In f [unitCost; quantity; subTotal; mdContent] ->
      truthy (f it) = false -> f (transformItem (transformToDb it)) = VNull) /\
  (forall f : Item -> jsval,
      In f [unitCost; quantity; subTotal; mdContent] ->
      truthy (f it) = true -> f (transformItem (transformToDb it)) = f it).
Proof.
  split; [|split].
  - unfold transformToDb, transformItem. simpl.
    now rewrite !orElse_null_twice.
  - intros f Hf Ht. simpl in Hf.
    destruct Hf as [<-|[<-|[<-|[<-|[]]]]]; simpl; unfold orElse; now rewrite Ht.
  - intros f Hf Ht. simpl in Hf.
    destruct Hf as [<-|[<-|[<-|[<-|[]]]]]; simpl; unfold orElse; now rewrite Ht.
Qed.

Lemma transformToDb_stable_sample :
  quantity (transformItem (transformToDb
     (mkItem (VNum 7) (VStr "Music") (VStr "Band") (VStr "Yes") VNull
        (VNum 50) (VNum 0) VNull VNull VNull))) = VNull.
Proof.
  refine (proj1 (proj2 (transformToDb_stable
            (mkItem (VNum 7) (VStr "Music") (VStr "Band") (VStr "Yes") VNull
               (VNum 50) (VNum 0) VNull VNull VNull))) quantity _ _).
  - simpl. tauto.
  - reflexivity.
Defined.

(** X8: the subtotal of an item survives the trip through the payload
    of a create call, provided its quantity is not the number 0 and its
    stored subtotal is not the number 0: both are sent as [null], and a
    missing quantity counts as 1. *)
Theorem payload_keeps_subtotal (it : Item) :
  quantity it <> VNum 0 ->
  subTotal it <> VNum 0 ->
  calculateSubTotal (transformItem (transformToDb it)) = calculateSubTotal it.
Proof.
  intros Hq Hs. unfold calculateSubTotal, transformItem, transformToDb. simpl.
  unfold orElse.
  destruct (subTotal it) as [| |n|t] eqn:Es; simpl.
  - destruct (unitCost it) as [| |c|u], (quantity it) as [| |q|v]; simpl;
      try reflexivity;
      repeat match goal with
             | |- context [?x =? 0] => destruct (Z.eqb_spec x 0); subst; simpl
             | |- context [JsString.isEmpty ?x] => destruct x; simpl
             end; try reflexivity; try lia; congruence.
  - destruct (unitCost it) as [| |c|u], (quantity it) as [| |q|v]; simpl;
      try reflexivity;
      repeat match goal with
             | |- context [?x =? 0] => destruct (Z.eqb_spec x 0); subst; simpl
             | |- context [JsString.isEmpty ?x] => destruct x; simpl
             end; try reflexivity; try lia; congruence.
  - destruct (Z.eqb_spec n 0); [congruence|]. reflexivity.
  - destruct (unitCost it) as [| |c|u], (quantity it) as [| |q|v]; simpl;
      destruct t; simpl;
      try reflexivity;
      repeat match goal with
             | |- context [?x =? 0] => destruct (Z.eqb_spec x 0); subst; simpl
             | |- context [JsString.isEmpty ?x] => destruct x; simpl
             end; try reflexivity; try lia; congruence.
Qed.

Lemma payload_keeps_subtotal_sample :
  calculateSubTotal (transformItem (transformToDb (transformItem tulipsRow)))
  = calculateSubTotal (transformItem tulipsRow).
Proof.
  apply payload_keeps_subtotal; discriminate.
Defined.

(** ** The category list *)










(** ** The metric cards *)

Lemma updateMetrics_persisted (s : State) :
  updateMetrics s
  = let total := sumOver storedOrComputed (persisted s) in
    {| metricTotalCost := ("$" ++ toFixed2 total)%string;
       metricBudget := "$40000.00";
       metricRemaining :=
         if BUDGET <? total
         then ("-$" ++ toFixed2 (total - BUDGET))%string
         else ("$" ++ toFixed2 (BUDGET - total))%string |}.
Proof.
  unfold updateMetrics, persisted, canonical. cbv zeta.
  rewrite (map_filter_comm (deref (heap s)) (fun it => negb (isNewItem it))).
  rewrite sumSubTotals_sumOver.
  set (total := sumOver storedOrComputed _). f_equal.
  unfold formatCurrency.
  destruct (Z.ltb_spec (BUDGET - total) 0), (Z.ltb_spec BUDGET total); try lia.
  - now replace (Z.abs (BUDGET - total)) with (total - BUDGET) by lia.
  - now replace (Z.abs (BUDGET - total)) with (BUDGET - total) by lia.
Qed.

Lemma persisted_store (s t : State) :
  storeOf s = storeOf t -> persisted s = persisted t.
Proof.
  intros H. symmetry in H. apply storeOf_components in H.
  destruct H as (Hh & Ho & _ & _).
  unfold persisted, canonical. now rewrite Hh, Ho.
Qed.

Lemma canonical_app (h : list Item) (x : Item) (od : list loc) :
  refsValid h od -> map (deref (h ++ [x])) od = map (deref h) od.
Proof.
  induction 1 as [|l od Hl _ IH]; simpl; [reflexivity|].
  now rewrite IH, deref_app_old.
Qed.

Lemma persisted_addItem (s : State) (now : Z) :
  wellFormed s -> persisted (step s (EvAddItem now)) = persisted s.
Proof.
  intros Hwf. destruct (hasNewItem s) eqn:E.
  - now rewrite step_addItem_rejected.
  - pose proof (storeOf_addItem s now E) as H.
    apply storeOf_components in H. destruct H as (Hh & Ho & _ & _).
    unfold persisted, canonical. rewrite Hh, Ho. simpl.
    rewrite deref_app_new, isNewItem_newItem. simpl.
    now rewrite canonical_app.
Qed.

(** X10: the amounts of the metric cards are computed from the canonical
    items other than the unsaved row: the total is the sum of their
    subtotals, and the remaining amount is the distance between it and
    the budget of 40000, with a minus sign exactly when the total is
    above the budget.  So a change of the filter controls, a click on a
    sort header and the adding of a blank row all leave what
    [updateMetrics] computes as it was. *)
Theorem metrics_ignore_view (s : State) (c : Controls) (k : string) (now : Z) :
  wellFormed s ->
  metricTotalCost (updateMetrics s)
  = ("$" ++ toFixed2 (sumOver storedOrComputed (persisted s)))%string /\
  metricRemaining (updateMetrics s)
  = (let total := sumOver storedOrComputed (persisted s) in
     if BUDGET <? total
     then ("-$" ++ toFixed2 (total - BUDGET))%string
     else ("$" ++ toFixed2 (BUDGET - total))%string) /\
  updateMetrics (step s (EvFilterChange c)) = updateMetrics s /\
  updateMetrics (step s (EvSortClick k)) = updateMetrics s /\
  updateMetrics (step s (EvAddItem now)) = updateMetrics s.
Proof.
  intros Hwf. rewrite !updateMetrics_persisted. cbv zeta.
  rewrite (persisted_store _ s (storeOf_filterChange s c)).
  rewrite (persisted_store _ s (storeOf_sortClick s k)).
  rewrite (persisted_addItem s now Hwf).
  now repeat split.
Qed.

Lemma metrics_ignore_view_sample :
  updateMetrics (step (loaded [hallRow]) (EvAddItem 17)) = updateMetrics (loaded [hallRow]).
Proof.
  refine (proj2 (proj2 (proj2 (proj2
            (metrics_ignore_view (loaded [hallRow]) blankControls "id" 17 _))))).
  repeat constructor.
Defined.

(** * Properties of the item page *)

(** ** From a row of the list to the item page *)

Lemma parseDigits_digit (c : ascii) (k : Z) (acc : option Z) (s : string) :
  Detail.digitValue c = Some k ->
  Detail.parseDigits acc (String c s)
  = Detail.parseDigits (Some (10 * default 0 acc + k)) s.
Proof. intros H. cbn [Detail.parseDigits]. now rewrite H. Qed.

Lemma parseDigits_stop (acc : option Z) (rest : string) :
  noLeadingDigit rest = true -> Detail.parseDigits acc rest = acc.
Proof.
  destruct rest as [|c rest]; [reflexivity|]. cbn [noLeadingDigit Detail.parseDigits].
  now destruct (Detail.digitValue c).
Qed.

Lemma parseDigits_numeral (d : Decimal.uint) (acc : option Z) (rest : string) :
  noLeadingDigit rest = true ->
  Detail.parseDigits acc (NilEmpty.string_of_uint d ++ rest)
  = match d with
    | Decimal.Nil => acc
    | _ => Some (decimalValue (default 0 acc) d)
    end.
Proof.
  intros Hrest. revert acc.
  induction d as [|d IH|d IH|d IH|d IH|d IH|d IH|d IH|d IH|d IH|d IH];
    intros acc; [now apply parseDigits_stop|..];
    cbn [NilEmpty.string_of_uint]; rewrite append_cons;
    (erewrite parseDigits_digit by reflexivity);
    rewrite IH; destruct d; reflexivity.
Qed.

Lemma of_uint_acc_value (d : Decimal.uint) (acc : positive) :
  Z.pos (Pos.of_uint_acc d acc) = decimalValue (Z.pos acc) d.
Proof.
  revert acc. induction d; intros acc; simpl; [reflexivity|..];
    rewrite IHd; f_equal; lia.
Qed.

Lemma of_uint_value (d : Decimal.uint) : Z.of_uint d = decimalValue 0 d.
Proof.
  unfold Z.of_uint. induction d; simpl; try exact IHd; try reflexivity;
    now rewrite of_uint_acc_value.
Qed.

Lemma parseDigits_string_of_uint (d : Decimal.uint) (rest : string) :
  noLeadingDigit rest = true ->
  Detail.parseDigits None (NilZero.string_of_uint d ++ rest) = Some (Z.of_uint d).
Proof.
  intros Hrest. rewrite of_uint_value. destruct d;
    [change (NilZero.string_of_uint Decimal.Nil) with (NilEmpty.string_of_uint (Decimal.D0 Decimal.Nil))|..];
    (unfold NilZero.string_of_uint; now rewrite parseDigits_numeral).
Qed.

Lemma parseInt_digit (c : ascii) (r : string) :
  Detail.digitValue c <> None ->
  Detail.parseInt (String c r) = Detail.parseDigits None (String c r).
Proof.
  destruct c as [[] [] [] [] [] [] [] []]; intros H;
    try reflexivity; now contradiction H.
Qed.

Lemma string_of_uint_head (d : Decimal.uint) (rest : string) :
  exists c r, (NilZero.string_of_uint d ++ rest)%string = String c r /\
              Detail.digitValue c <> None.
Proof.
  destruct d; cbn [NilZero.string_of_uint NilEmpty.string_of_uint];
    rewrite append_cons; eexists; eexists; (split; [reflexivity | discriminate]).
Qed.

Lemma parseInt_string_of_int (d : Decimal.int) (rest : string) :
  noLeadingDigit rest = true ->
  Detail.parseInt (NilZero.string_of_int d ++ rest) = Some (Z.of_int d).
Proof.
  intros Hrest. destruct d as [d|d].
  - change (Z.of_int (Decimal.Pos d)) with (Z.of_uint d).
    rewrite <- (parseDigits_string_of_uint d rest Hrest). simpl NilZero.string_of_int.
    destruct (string_of_uint_head d rest) as (c & r & -> & Hc).
    now apply parseInt_digit.
  - change (Z.of_int (Decimal.Neg d)) with (- Z.of_uint d).
    simpl NilZero.string_of_int. rewrite append_cons.
    change (Detail.parseInt (String "-" (NilZero.string_of_uint d ++ rest)))
      with (option_map Z.opp (Detail.parseDigits None (NilZero.string_of_uint d ++ rest))).
    now rewrite parseDigits_string_of_uint.
Qed.

Lemma parseInt_numberToString (n : Z) (rest : string) :
  noLeadingDigit rest = true ->
  Detail.parseInt (numberToString n ++ rest) = Some n.
Proof.
  intros Hrest. unfold numberToString.
  now rewrite parseInt_string_of_int, DecimalZ.of_to.
Qed.

Lemma detail_run_bind {A B : Type} (m : Detail.Handler A) (f : A -> Detail.Handler B)
    (p : Detail.Page) :
  Detail.run (m ≫= f) p
  = match m p with
    | (Some a, p') => Detail.run (f a) p'
    | (None, p') => p'
    end.
Proof.
  unfold Detail.run, mbind, Detail.Handler_bind. now destruct (m p) as [[a|] p'].
Qed.

Lemma numberToString_nonempty (n : Z) (rest : string) :
  JsString.isEmpty (numberToString n ++ rest) = false.
Proof.
  destruct (numberToString_head n) as (c & r & -> & _). now rewrite append_cons.
Qed.

(** X11: from the list to the item page.  The unsaved row shows NEW and
    opens nothing.  A row whose id is the number [n] shows [n] and opens
    the item page with that number in the address, and the item page
    started on such an address asks the database for exactly the item
    [n], once, also when other characters follow the number. *)
Theorem row_link_opens_item (it : Item) (m : option (string -> string)) :
  (isNewItem it = true ->
   tdId (renderRow it) = "NEW" /\ detailLink (renderRow it) = None) /\
  (forall (n : Z) (rest : string),
      id it = VNum n -> noLeadingDigit rest = true ->
      tdId (renderRow it) = numberToString n /\
      detailLink (renderRow it) = Some ("item.html?id=" ++ numberToString n)%string /\
      let p := Detail.run (Detail.init (Some (numberToString n ++ rest)%string))
                 (Detail.initialPage m) in
      Detail.calls p = [Detail.CallFetch n] /\
      Detail.pending p = [Detail.KInit] /\
      Detail.ui p = []).
Proof.
  split.
  - intros H. unfold renderRow. cbn [tdId detailLink]. now rewrite H.
  - intros n rest Hid Hrest.
    assert (Hnew : isNewItem it = false) by (unfold isNewItem; now rewrite Hid).
    unfold renderRow. cbn [tdId detailLink]. rewrite Hnew, Hid.
    split; [reflexivity|]. split; [reflexivity|]. cbv zeta.
    unfold Detail.init. rewrite detail_run_bind. cbn [Detail.modify].
    rewrite numberToString_nonempty, (parseInt_numberToString n rest Hrest).
    now repeat split.
Qed.

Lemma row_link_opens_item_sample :
  Detail.calls (Detail.run (Detail.init (Some "2")) (Detail.initialPage None))
  = [Detail.CallFetch 2].
Proof.
  exact (proj1 (proj2 (proj2
           (proj2 (row_link_opens_item (transformItem tulipsRow) None)
              2 "" eq_refl eq_refl)))).
Defined.

(** ** Editing the markdown text *)

Lemma renderMarkdown_text (s : string) (p : Detail.Page) :
  Detail.renderMarkdown (VStr s) p = (Some (rendered (Detail.marked p) s), p).
Proof.
  unfold Detail.renderMarkdown, rendered. destruct s as [|c s]; [reflexivity|].
  change (truthy (VStr (String c s))) with true. cbn [negb].
  destruct (String.eqb (JsString.trim (String c s)) ""); [reflexivity|].
  unfold mbind, Detail.Handler_bind, Detail.gets.
  now destruct (Detail.marked p).
Qed.

Lemma detail_step_reply (p : Detail.Page) (n : nat) (r : Reply) (k : Detail.Cont) :
  Detail.pending p !! n = Some k ->
  Detail.step p (Detail.EvReply n r)
  = Detail.run (Detail.resume k r) (Detail.setPending (delete n (Detail.pending p)) p).
Proof.
  intros H. unfold Detail.step, Detail.handle. rewrite detail_run_bind.
  cbn [Detail.gets]. now rewrite H.
Qed.

Lemma detail_step_reply_none (p : Detail.Page) (n : nat) (r : Reply) :
  Detail.pending p !! n = None -> Detail.step p (Detail.EvReply n r) = p.
Proof.
  intros H. unfold Detail.step, Detail.handle. rewrite detail_run_bind.
  cbn [Detail.gets]. now rewrite H.
Qed.

Lemma lookup_delete_last {A : Type} (l : list A) (k : A) :
  (l ++ [k]) !! length l = Some k /\ delete (length l) (l ++ [k]) = l.
Proof.
  split.
  - rewrite lookup_app_r by lia. now rewrite Nat.sub_diag.
  - induction l as [|x l IH]; simpl; [reflexivity|].
    unfold delete in IH |- *. simpl. now rewrite IH.
Qed.

Lemma step_save_changed (p : Detail.Page) (it : Item) :
  showing p it -> textChanged p = true ->
  Detail.step p Detail.EvSave
  = Detail.setPending (Detail.pending p ++ [Detail.KSave (Detail.textarea p)])
      (Detail.setCalls
         (Detail.calls p ++ [Detail.CallUpdateMarkdown (id it) (Detail.textarea p)])
         (Detail.setSaveButton true "Saving..." p)).
Proof.
  intros [Hl Hc] Ht. unfold textChanged in Ht. apply negb_true_iff in Ht.
  unfold Detail.step, Detail.handle, Detail.whenListening.
  rewrite detail_run_bind. cbn [Detail.gets]. rewrite Hl.
  unfold Detail.saveMarkdownChanges.
  rewrite detail_run_bind. cbn [Detail.gets].
  rewrite detail_run_bind. cbn [Detail.gets]. rewrite Ht.
  rewrite detail_run_bind. cbn [Detail.modify].
  rewrite detail_run_bind. cbn [Detail.gets Detail.setSaveButton Detail.currentItem].
  rewrite Hc. reflexivity.
Qed.

Lemma afterSave_failure (p : Detail.Page) (md : string) (r : Reply) :
  firstRow r = None ->
  exists banners,
    Detail.run (Detail.afterSave md r) p
    = Detail.setSaveButton false "Save" (Detail.setUi (Detail.ui p ++ banners) p).
Proof.
  intros H. unfold Detail.afterSave. rewrite detail_run_bind, H.
  destruct r as [| |data].
  - now eexists [_].
  - now eexists [_].
  - exists []. cbn. rewrite app_nil_r. now destruct p.
Qed.

Lemma afterSave_success (p : Detail.Page) (md : string) (r : Reply) (row it : Item) :
  firstRow r = Some row ->
  Detail.currentItem p = Some it ->
  Detail.run (Detail.afterSave md r) p
  = Detail.setSaveButton false "Save"
      (Detail.setUi (Detail.ui p ++ [Detail.ShowSuccess "Markdown content saved successfully!"])
         (Detail.setMode false
            (Detail.setContent (rendered (Detail.marked p) md)
               (Detail.setCurrentItem (Some (Detail.setMdContent (VStr md) it)) p)))).
Proof.
  intros H Hc. unfold Detail.afterSave. rewrite detail_run_bind, H.
  destruct r as [| |data]; try discriminate H. cbn [mret Detail.Handler_ret].
  rewrite detail_run_bind. cbn [Detail.gets]. rewrite Hc.
  rewrite detail_run_bind. cbn [Detail.modify].
  rewrite detail_run_bind, renderMarkdown_text.
  reflexivity.
Qed.

(** X12: saving an edited text.  With an item shown and the text of the
    text area different from the one edit mode started with, a click on
    Save disables the button and sends one update call carrying the id
    of the item and that text; the item and the panes are untouched
    until the reply.  When the reply brings the updated row, the item
    holds the text captured at the click, the view shows it rendered,
    edit mode is left and a success banner is shown.  When the call
    fails, the item, the rendered view, the pane and the text in the
    text area stay as they were, so the edits are not lost.  In both
    cases the button is enabled again and no further call is made. *)
Theorem save_outcome (p : Detail.Page) (it : Item) (r : Reply) :
  showing p it ->
  textChanged p = true ->
  let t := Detail.textarea p in
  let p1 := Detail.step p Detail.EvSave in
  let p2 := Detail.step p1 (Detail.EvReply (length (Detail.pending p)) r) in
  (Detail.calls p1 = Detail.calls p ++ [Detail.CallUpdateMarkdown (id it) t] /\
   Detail.saveDisabled p1 = true /\
   Detail.currentItem p1 = Some it /\
   Detail.editing p1 = Detail.editing p /\
   Detail.content p1 = Detail.content p) /\
  (Detail.calls p2 = Detail.calls p1 /\
   Detail.pending p2 = Detail.pending p /\
   Detail.saveDisabled p2 = false) /\
  match firstRow r with
  | Some _ =>
      Detail.currentItem p2 = Some (Detail.setMdContent (VStr t) it) /\
      Detail.content p2 = rendered (Detail.marked p) t /\
      Detail.editing p2 = false /\
      Detail.ui p2
      = Detail.ui p ++ [Detail.ShowSuccess "Markdown content saved successfully!"]
  | None =>
      Detail.currentItem p2 = Some it /\
      Detail.content p2 = Detail.content p /\
      Detail.editing p2 = Detail.editing p /\
      Detail.textarea p2 = t
  end.
Proof.
  intros Hs Ht. cbv zeta. rewrite (step_save_changed p it Hs Ht).
  set (p1 := Detail.setPending _ _).
  split; [now repeat split; destruct Hs|].
  destruct (lookup_delete_last (Detail.pending p) (Detail.KSave (Detail.textarea p)))
    as [Hk Hd].
  rewrite (detail_step_reply p1 _ r _ Hk). cbn [Detail.resume].
  set (q := Detail.setPending _ p1).
  assert (Hq : Detail.pending q = Detail.pending p) by exact Hd.
  destruct (firstRow r) as [row|] eqn:Hr.
  - rewrite (afterSave_success q _ r row it Hr) by (destruct Hs as [_ Hc]; exact Hc).
    now repeat split.
  - destruct (afterSave_failure q (Detail.textarea p) r Hr) as (banners & ->).
    now repeat split; destruct Hs.
Qed.

Lemma save_outcome_sample :
  Detail.currentItem
    (Detail.step
       (Detail.step (Detail.step (Detail.step hallPage Detail.EvEdit)
                       (Detail.EvInput "## Great hall")) Detail.EvSave)
       (Detail.EvReply O (RData [hallWithText])))
  = Some (Detail.setMdContent (VStr "## Great hall") (transformItem hallWithText)).
Proof.
  exact (proj1 (proj2 (proj2
           (save_outcome
              (Detail.step (Detail.step hallPage Detail.EvEdit)
                 (Detail.EvInput "## Great hall"))
              (transformItem hallWithText) (RData [hallWithText])
              (conj eq_refl eq_refl) eq_refl)))).
Defined.

Lemma step_edit (p : Detail.Page) (it : Item) :
  showing p it ->
  let orig := orElse (mdContent it) (VStr "") in
  Detail.step p Detail.EvEdit
  = Detail.setLivePreview (rendered (Detail.marked p) (toString orig))
      (Detail.setTextarea (toString orig)
         (Detail.setMode true (Detail.setOriginalMarkdown orig p))).
Proof.
  intros [Hl Hc]. cbv zeta.
  unfold Detail.step, Detail.handle, Detail.whenListening.
  rewrite detail_run_bind. cbn [Detail.gets]. rewrite Hl.
  unfold Detail.enterEditMode.
  rewrite detail_run_bind. cbn [Detail.gets]. rewrite Hc.
  rewrite detail_run_bind. cbn [Detail.modify].
  rewrite detail_run_bind. cbn [Detail.modify].
  rewrite detail_run_bind. cbn [Detail.gets].
  rewrite detail_run_bind. cbn [Detail.modify].
  unfold Detail.updateLivePreview.
  rewrite detail_run_bind. cbn [Detail.gets].
  rewrite detail_run_bind, renderMarkdown_text.
  reflexivity.
Qed.

Lemma originalMarkdown_text (v : jsval) :
  isNumber v = false ->
  strictEq (VStr (toString (orElse v (VStr "")))) (orElse v (VStr "")) = true.
Proof.
  destruct v as [| |n|s]; intros H; try discriminate H; try reflexivity.
  unfold orElse. destruct (truthy (VStr s)); [|reflexivity].
  simpl. apply String.eqb_refl.
Qed.

(** X13: entering edit mode and leaving it without typing.  With an
    item shown whose markdown is a text or missing, a click on Edit
    fills the text area with the item's markdown (the empty text when
    it is missing) and previews it; a click on Save right after sends
    nothing, and a click on Cancel asks for no confirmation (either
    answer gives the same page): both leave edit mode with the item,
    the rendered view, the calls and the pending replies as they
    were. *)
Theorem untouched_edit_is_silent (p : Detail.Page) (it : Item) (confirmed : bool) :
  showing p it ->
  isNumber (mdContent it) = false ->
  let p1 := Detail.step p Detail.EvEdit in
  (Detail.textarea p1 = toString (orElse (mdContent it) (VStr "")) /\
   Detail.editing p1 = true /\
   Detail.livePreview p1 = rendered (Detail.marked p) (Detail.textarea p1)) /\
  Detail.step p1 (Detail.EvCancel confirmed) = Detail.step p1 Detail.EvSave /\
  let p2 := Detail.step p1 Detail.EvSave in
  Detail.calls p2 = Detail.calls p /\
  Detail.pending p2 = Detail.pending p /\
  Detail.currentItem p2 = Some it /\
  Detail.content p2 = Detail.content p /\
  Detail.editing p2 = false.
Proof.
  intros Hs Hn. cbv zeta. rewrite (step_edit p it Hs). cbv zeta.
  set (orig := orElse (mdContent it) (VStr "")).
  pose proof (originalMarkdown_text (mdContent it) Hn) as Ho. fold orig in Ho.
  destruct Hs as [Hl Hc].
  split; [now repeat split|].
  set (p1 := Detail.setLivePreview _ _).
  assert (H1 : Detail.step p1 Detail.EvSave = Detail.setMode false p1).
  { unfold Detail.step, Detail.handle, Detail.whenListening.
    rewrite detail_run_bind. cbn [Detail.gets].
    change (Detail.listening p1) with (Detail.listening p). rewrite Hl.
    unfold Detail.saveMarkdownChanges.
    rewrite detail_run_bind. cbn [Detail.gets].
    rewrite detail_run_bind. cbn [Detail.gets].
    change (Detail.textarea p1) with (toString orig).
    change (Detail.originalMarkdown p1) with orig.
    now rewrite Ho. }
  assert (H2 : Detail.step p1 (Detail.EvCancel confirmed) = Detail.setMode false p1).
  { unfold Detail.step, Detail.handle, Detail.whenListening.
    rewrite detail_run_bind. cbn [Detail.gets].
    change (Detail.listening p1) with (Detail.listening p). rewrite Hl.
    unfold Detail.cancelEditing.
    rewrite detail_run_bind. cbn [Detail.gets].
    rewrite detail_run_bind. cbn [Detail.gets].
    change (Detail.textarea p1) with (toString orig).
    change (Detail.originalMarkdown p1) with orig.
    rewrite Ho. cbn [negb andb].
    rewrite detail_run_bind. reflexivity. }
  rewrite H1, H2. now repeat split.
Qed.

Lemma untouched_edit_sample :
  Detail.calls (Detail.step (Detail.step hallPage Detail.EvEdit) Detail.EvSave)
  = Detail.calls hallPage.
Proof.
  exact (proj1 (proj2 (proj2
           (untouched_edit_is_silent hallPage (transformItem hallWithText) true
              (conj eq_refl eq_refl) eq_refl)))).
Defined.

(** ** What the events of the item page leave alone *)

Lemma renderMarkdown_pure (v : jsval) (p : Detail.Page) :
  exists o, Detail.renderMarkdown v p = (o, p).
Proof.
  unfold Detail.renderMarkdown. destruct (negb (truthy v)); [now eexists|].
  destruct v as [| |n|s]; try (now eexists).
  destruct (String.eqb (JsString.trim s) ""); [now eexists|].
  unfold mbind, Detail.Handler_bind, Detail.gets.
  destruct (Detail.marked p); now eexists.
Qed.

(** Unfolds a handler of the item page on a page given by its fields
    and splits on every test it makes. *)
Ltac unfold_detail :=
  unfold Detail.step, Detail.run, Detail.handle, Detail.whenListening,
    Detail.enterEditMode, Detail.exitEditMode, Detail.handleTextareaInput,
    Detail.saveMarkdownChanges, Detail.cancelEditing, Detail.handleKeyDown,
    Detail.updateLivePreview, Detail.resume, Detail.afterSave, Detail.afterInit,
    Detail.showError, Detail.showSuccess,
    Detail.request, Detail.await, Detail.modify, Detail.gets, Detail.throw,
    mbind, mret, Detail.Handler_bind, Detail.Handler_ret.

Ltac run_detail :=
  repeat (progress unfold_detail); cbn;
  repeat match goal with
         | |- context [Detail.renderMarkdown ?v ?q] =>
             let o := fresh "o" in
             destruct (renderMarkdown_pure v q) as [o ->]; cbn
         | |- context [match ?x with _ => _ end] =>
             lazymatch x with
             | context [match _ with _ => _ end] => fail
             | _ => destruct x eqn:?; cbn
             end
         end.

Lemma step_keeps_editor (p : Detail.Page) (ev : Detail.Event) :
  Detail.markdownEditor (Detail.step p ev) = Detail.markdownEditor p /\
  Detail.marked (Detail.step p ev) = Detail.marked p.
Proof.
  destruct p, ev; run_detail; split; reflexivity.
Qed.

Lemma count_delete_le {A : Type} (f : A -> bool) (n : nat) (l : list A) :
  (length (List.filter f (delete n l)) <= length (List.filter f l))%nat.
Proof.
  revert n. induction l as [|x l IH]; intros [|n]; simpl; try lia.
  - destruct (f x); simpl; lia.
  - specialize (IH n). destruct (f x); simpl; lia.
Qed.

Lemma count_delete_hit {A : Type} (f : A -> bool) (n : nat) (l : list A) (k : A) :
  l !! n = Some k -> f k = true ->
  S (length (List.filter f (delete n l))) = length (List.filter f l).
Proof.
  revert n. induction l as [|x l IH]; intros [|n] Hk Hf; simpl in *; try discriminate.
  - injection Hk as ->. now rewrite Hf.
  - specialize (IH n Hk Hf). destruct (f x); simpl; lia.
Qed.

Lemma oneSaveAtATime_step (p : Detail.Page) (ev : Detail.Event) :
  offered p ev -> oneSaveAtATime p -> oneSaveAtATime (Detail.step p ev).
Proof.
  unfold oneSaveAtATime, savesInFlight.
  destruct p as [mk me cur orig timer ta ed eb sb sd st md ct lp ls cs ps us].
  destruct ev as [|text| | |confirmed|key confirmed|n r];
    cbn [offered Detail.saveDisabled Detail.pending]; intros Hoff H.
  1-3, 5-6: run_detail; exact H.
  - subst sd. run_detail; try exact H; try lia;
      (rewrite List.filter_app, length_app; simpl; lia).
  - pose proof (count_delete_le isSave n ps) as Hle.
    destruct (ps !! n) as [[|newMarkdown]|] eqn:Hk.
    + run_detail; try exact H; try congruence;
        (destruct sd; unfold delete in *; lia).
    + pose proof (count_delete_hit isSave n ps _ Hk eq_refl) as Hhit.
      run_detail; try congruence;
        (destruct sd; unfold delete in *; lia).
    + run_detail; try exact H; congruence.
Qed.

Lemma visited_invariant (m : option (string -> string)) (idParam : option string)
    (p : Detail.Page) :
  visited m idParam p ->
  Detail.markdownEditor p = None /\ oneSaveAtATime p.
Proof.
  induction 1 as [|p ev _ [IH1 IH2] Hoff].
  - unfold oneSaveAtATime, savesInFlight, Detail.init.
    rewrite detail_run_bind. cbn [Detail.modify].
    destruct (match idParam with
              | Some s => if JsString.isEmpty s then None else Detail.parseInt s
              | None => None
              end); split; cbn; try reflexivity; lia.
  - split.
    + now rewrite (proj1 (step_keeps_editor p ev)).
    + now apply oneSaveAtATime_step.
Qed.

(** X14: on the item page at most one save waits for its reply at any
    time, and while one does the Save button is disabled; this holds
    after [init] and any sequence of events in which a disabled button
    fires no click, whatever the replies are and in whatever order they
    arrive. *)
Theorem one_save_in_flight (m : option (string -> string)) (idParam : option string)
    (p : Detail.Page) :
  visited m idParam p ->
  (savesInFlight p <= 1)%nat /\
  (savesInFlight p = 1%nat -> Detail.saveDisabled p = true).
Proof.
  intros H. destruct (visited_invariant m idParam p H) as [_ Hs].
  unfold oneSaveAtATime in Hs.
  destruct (Detail.saveDisabled p); split; lia || reflexivity.
Qed.

Lemma one_save_in_flight_sample :
  (savesInFlight
     (Detail.step (Detail.step (Detail.step hallPage Detail.EvEdit)
                     (Detail.EvInput "## Great hall")) Detail.EvSave) <= 1)%nat.
Proof.
  refine (proj1 (one_save_in_flight (Some shout) (Some "1") _ _)).
  repeat (apply visited_step; [|exact I || reflexivity]).
  apply visited_init.
Defined.

(** X15: the Escape key never cancels editing.  The key handler reads
    the style of [markdownEditor], a variable that no code of the page
    assigns, so on Escape it stops with a [TypeError] before it reaches
    [cancelEditing]; on every page that [init] and the events lead to, a
    key press leaves the page as it is. *)
Theorem escape_never_cancels (m : option (string -> string)) (idParam : option string)
    (p : Detail.Page) (key : string) (confirmed : bool) :
  visited m idParam p ->
  Detail.step p (Detail.EvKeyDown key confirmed) = p.
Proof.
  intros H. destruct (visited_invariant m idParam p H) as [He _].
  destruct p. cbn in He. subst. run_detail; reflexivity.
Qed.

Lemma escape_never_cancels_sample :
  Detail.step (Detail.step hallPage Detail.EvEdit) (Detail.EvKeyDown "Escape" true)
  = Detail.step hallPage Detail.EvEdit.
Proof.
  refine (escape_never_cancels (Some shout) (Some "1") _ "Escape" true _).
  repeat (apply visited_step; [|exact I]).
  apply visited_init.
Defined.

(** X16: the item shown changes only when a reply arrives that brings a
    row: the reply to the fetch of [init] sets it to that row, and the
    reply to a save changes nothing but its markdown, which becomes the
    text captured when Save was clicked (not what the text area holds
    when the reply arrives).  No other event and no failed call touches
    the item. *)
Theorem item_changes_only_on_reply (p : Detail.Page) (ev : Detail.Event) :
  Detail.currentItem (Detail.step p ev) = Detail.currentItem p \/
  exists n r row,
    ev = Detail.EvReply n r /\ firstRow r = Some row /\
    ((Detail.pending p !! n = Some Detail.KInit /\
      Detail.currentItem (Detail.step p ev) = Some row) \/
     (exists md it,
         Detail.pending p !! n = Some (Detail.KSave md) /\
         Detail.currentItem p = Some it /\
         Detail.currentItem (Detail.step p ev)
         = Some (Detail.setMdContent (VStr md) it))).
Proof.
  destruct p as [mk me cur orig timer ta ed eb sb sd st md ct lp ls cs ps us].
  destruct ev as [|text| | |confirmed|key confirmed|n r].
  1-6: left; run_detail; reflexivity.
  cbn [Detail.currentItem Detail.pending].
  run_detail; try congruence; try (left; reflexivity);
    right; eexists n, _, _; (split; [reflexivity|]);
    (split; [first [eassumption | reflexivity]|]);
    first [ left; split; [assumption | reflexivity]
          | right; eexists _, _; split; [eassumption|]; split; reflexivity ].
Qed.

(** X17: the live preview is debounced.  While the visitor types, the
    preview stays as it is; when the timeout fires, the preview shows
    the rendering of the text typed last, once: a timeout that is not
    scheduled changes nothing. *)
Theorem preview_debounced (p : Detail.Page) (a b : string) :
  Detail.listening p = true ->
  let p1 := Detail.step p (Detail.EvInput a) in
  let p2 := Detail.step p1 (Detail.EvInput b) in
  let p3 := Detail.step p2 Detail.EvTimer in
  Detail.livePreview p1 = Detail.livePreview p /\
  Detail.livePreview p2 = Detail.livePreview p /\
  Detail.textarea p3 = b /\
  Detail.livePreview p3 = rendered (Detail.marked p) b /\
  Detail.step p3 Detail.EvTimer = p3.
Proof.
  intros Hl. cbv zeta.
  assert (H1 : forall q t, Detail.listening q = true ->
             Detail.step q (Detail.EvInput t)
             = Detail.setPreviewDebounceTimer true (Detail.setTextarea t q)).
  { intros q t Hq. unfold Detail.step, Detail.handle, Detail.whenListening.
    rewrite detail_run_bind. cbn [Detail.modify].
    rewrite detail_run_bind. cbn [Detail.gets Detail.setTextarea Detail.listening].
    now rewrite Hq. }
  rewrite !H1 by (try exact Hl; reflexivity).
  set (p2 := Detail.setPreviewDebounceTimer true (Detail.setTextarea b _)).
  assert (H3 : Detail.step p2 Detail.EvTimer
               = Detail.setLivePreview (rendered (Detail.marked p) b)
                   (Detail.setPreviewDebounceTimer false p2)).
  { unfold Detail.step, Detail.handle.
    rewrite detail_run_bind. cbn [Detail.gets].
    change (Detail.previewDebounceTimer p2) with true. cbv iota.
    rewrite detail_run_bind. cbn [Detail.modify].
    unfold Detail.updateLivePreview.
    rewrite detail_run_bind. cbn [Detail.gets].
    rewrite detail_run_bind, renderMarkdown_text.
    reflexivity. }
  rewrite H3. now repeat split.
Qed.

Lemma preview_debounced_sample :
  Detail.livePreview
    (Detail.step
       (Detail.step (Detail.step (Detail.step hallPage Detail.EvEdit) (Detail.EvInput "a"))
          (Detail.EvInput "ab")) Detail.EvTimer)
  = shout "ab".
Proof.
  exact (proj1 (proj2 (proj2 (proj2
           (preview_debounced (Detail.step hallPage Detail.EvEdit) "a" "ab" eq_refl))))).
Defined.

(** ** Heading ids *)


















(** ** The table of contents *)

Lemma flatten_app (a b : list Detail.TocItem) : flatten (a ++ b) = flatten a ++ flatten b.
Proof. unfold flatten. now rewrite map_app, concat_app. Qed.

Lemma appendNested_cons (e e' : Detail.TocItem) (rest : list Detail.TocItem)
    (l : Detail.Link) :
  Detail.appendNested (e :: e' :: rest) l = e :: Detail.appendNested (e' :: rest) l.
Proof. now destruct e. Qed.

Lemma appendNested_nonempty (toc : list Detail.TocItem) (l : Detail.Link) :
  toc <> [] -> Detail.appendNested toc l <> [].
Proof.
  destruct toc as [|[top nested] [|e rest]]; intros H; [now contradiction H| |];
    discriminate.
Qed.

Lemma flatten_appendNested (toc : list Detail.TocItem) (l : Detail.Link) :
  toc <> [] -> flatten (Detail.appendNested toc l) = flatten toc ++ [l].
Proof.
  induction toc as [|e toc IH]; intros H; [now contradiction H|].
  destruct toc as [|e' rest].
  - destruct e as [top nested]. unfold flatten. simpl.
    now rewrite !app_nil_r.
  - rewrite appendNested_cons.
    change (flatten (e :: Detail.appendNested (e' :: rest) l))
      with ((e.1 :: e.2) ++ flatten (Detail.appendNested (e' :: rest) l)).
    rewrite IH by discriminate.
    change (flatten (e :: e' :: rest)) with ((e.1 :: e.2) ++ flatten (e' :: rest)).
    now rewrite app_assoc.
Qed.

Lemma tops_appendNested (toc : list Detail.TocItem) (l : Detail.Link) :
  map fst (Detail.appendNested toc l) = map fst toc.
Proof.
  induction toc as [|e toc IH]; [reflexivity|].
  destruct toc as [|e' rest]; [now destruct e|].
  rewrite appendNested_cons. cbn [map]. rewrite IH. reflexivity.
Qed.

Lemma flatten_fold (hs : list Detail.Heading) (toc : list Detail.TocItem) :
  toc <> [] ->
  flatten (fold_left Detail.addHeading hs toc) = flatten toc ++ map Detail.linkTo hs.
Proof.
  revert toc. induction hs as [|h hs IH]; intros toc H; simpl.
  - now rewrite app_nil_r.
  - unfold Detail.addHeading at 2. destruct (Detail.tagName h).
    + rewrite IH by (now destruct toc). rewrite flatten_app, <- app_assoc.
      reflexivity.
    + rewrite IH by (now apply appendNested_nonempty).
      rewrite flatten_appendNested by exact H. now rewrite <- app_assoc.
Qed.

Lemma flatten_fold_empty (hs : list Detail.Heading) :
  flatten (fold_left Detail.addHeading hs []) = map Detail.linkTo (fromFirstH2 hs).
Proof.
  induction hs as [|h hs IH]; [reflexivity|].
  simpl. unfold Detail.addHeading at 2, isH2. destruct (Detail.tagName h).
  - now rewrite flatten_fold by discriminate.
  - exact IH.
Qed.

Lemma tops_fold (hs : list Detail.Heading) (toc : list Detail.TocItem) :
  map fst (fold_left Detail.addHeading hs toc)
  = map fst toc ++ map Detail.linkTo (List.filter isH2 hs).
Proof.
  revert toc. induction hs as [|h hs IH]; intros toc; simpl.
  - now rewrite app_nil_r.
  - rewrite IH. unfold Detail.addHeading, isH2. destruct (Detail.tagName h).
    + rewrite map_app, <- app_assoc. reflexivity.
    + now rewrite tops_appendNested.
Qed.

Lemma withIds_facts (hs : list Detail.Heading) (index : nat) :
  map Detail.tagName (Detail.withIds index hs) = map Detail.tagName hs /\
  map Detail.headingText (Detail.withIds index hs) = map Detail.headingText hs /\
  Forall (fun h => Detail.hid h <> "") (Detail.withIds index hs).
Proof.
  revert index. induction hs as [|h hs IH]; intros index; [now repeat split|].
  destruct (IH (S index)) as (H1 & H2 & H3). cbn [Detail.withIds map].
  rewrite H1, H2.
  assert (Ht : Detail.tagName (Detail.withId index h) = Detail.tagName h /\
               Detail.headingText (Detail.withId index h) = Detail.headingText h /\
               Detail.hid (Detail.withId index h) <> "").
  { unfold Detail.withId. destruct (Detail.hid h) as [|c r] eqn:E; cbn [JsString.isEmpty].
    - repeat split. cbn [Detail.hid].
      destruct (Detail.slug (Detail.headingText h)); cbn [JsString.isEmpty]; discriminate.
    - repeat split. now rewrite E. }
  destruct Ht as (-> & -> & Hid). repeat split. now constructor.
Qed.

(** X19: the table of contents.  With fewer than three headings it is
    hidden and no heading gets an id.  Otherwise every heading has an
    id after the loop, tags and texts unchanged; the top-level entries
    are the links of the [H2] headings in document order; and read in
    order, each top-level entry followed by its nested entries, the
    links are those of the headings from the first [H2] on, each
    pointing to the id of its heading: an [H3] before the first [H2] is
    left out, and every other heading appears once, in place. *)
Theorem toc_structure (headings : list Detail.Heading) :
  let hs := Detail.withIds O headings in
  ((length headings < 3)%nat ->
   Detail.generateTableOfContents headings = (headings, None)) /\
  ((3 <= length headings)%nat ->
   exists toc,
     Detail.generateTableOfContents headings = (hs, Some toc) /\
     flatten toc = map Detail.linkTo (fromFirstH2 hs) /\
     map fst toc = map Detail.linkTo (List.filter isH2 hs)) /\
  map Detail.tagName hs = map Detail.tagName headings /\
  map Detail.headingText hs = map Detail.headingText headings /\
  Forall (fun h => Detail.hid h <> "") hs.
Proof.
  cbv zeta. unfold Detail.generateTableOfContents.
  split; [|split; [|apply withIds_facts]].
  - intros H. apply Nat.ltb_lt in H. now rewrite H.
  - intros H. apply Nat.ltb_ge in H. rewrite H.
    eexists. split; [reflexivity|]. split.
    + apply flatten_fold_empty.
    + now rewrite tops_fold.
Qed.

Lemma toc_structure_sample :
  exists toc,
    Detail.generateTableOfContents
      [Detail.mkHeading Detail.H3 "Before" ""; Detail.mkHeading Detail.H2 "Venue" "";
       Detail.mkHeading Detail.H3 "Hall" ""; Detail.mkHeading Detail.H2 "Music" ""]
    = (Detail.withIds O
         [Detail.mkHeading Detail.H3 "Before" ""; Detail.mkHeading Detail.H2 "Venue" "";
          Detail.mkHeading Detail.H3 "Hall" ""; Detail.mkHeading Detail.H2 "Music" ""],
       Some toc) /\
    flatten toc
    = [Detail.mkLink "#venue" "Venue"; Detail.mkLink "#hall" "Hall";
       Detail.mkLink "#music" "Music"].
Proof.
  destruct (proj1 (proj2 (toc_structure
              [Detail.mkHeading Detail.H3 "Before" ""; Detail.mkHeading Detail.H2 "Venue" "";
               Detail.mkHeading Detail.H3 "Hall" ""; Detail.mkHeading Detail.H2 "Music" ""]))
              ltac:(simpl; lia)) as (toc & H1 & H2 & _).
  exists toc. split; [exact H1 | exact H2].
Defined.

(** ** The item page and the list agree *)

Lemma lowerTest_none (p q : string -> bool) (v : jsval) :
  lowerTest p v = None <-> lowerTest q v = None.
Proof.
  destruct v as [| |n|s]; simpl; try (split; discriminate).
  destruct (n =? 0); split; (discriminate || reflexivity).
Qed.

(** X20: what the item page shows of an item agrees with its row in the
    list.  An item that the item page labels Required passes the
    required-only filter of the list; the item page stops with a
    [TypeError] on an item exactly when that filter does; the title is
    the text of the item cell when that cell is not empty; and the
    quantity shown is the one of the quantity cell unless the quantity
    is the number 0 or the empty text, which the item page shows as
    1. *)
Theorem item_page_agrees_with_row (it : Item) :
  (Detail.populateMetadata it = None <-> matchesRequired true it = None) /\
  (forall m : Detail.Metadata,
      Detail.populateMetadata it = Some m ->
      (Detail.requiredBadge m = "Required" ->
       filterCallback (mkControls "" "" true) it = Some true) /\
      (tdItem (renderRow it) <> "" -> Detail.itemTitle m = tdItem (renderRow it)) /\
      (quantity it <> VNum 0 -> quantity it <> VStr "" ->
       Detail.metaQuantity m = tdQuantity (renderRow it))).
Proof.
  split.
  - unfold Detail.populateMetadata, matchesRequired. cbn [negb].
    rewrite <- (lowerTest_none (fun s => String.eqb s "yes")).
    destruct (lowerTest _ (required it)); split; (discriminate || reflexivity).
  - intros m Hm. unfold Detail.populateMetadata in Hm.
    destruct (lowerTest (fun s => String.eqb s "yes") (required it)) as [b|] eqn:Hb;
      [|discriminate]. injection Hm as <-. cbn [Detail.requiredBadge Detail.itemTitle Detail.metaQuantity].
    split; [|split].
    + destruct b; [intros _|discriminate].
      destruct (required it) as [| |n|s] eqn:Hr; simpl in Hb; try discriminate.
      { destruct (n =? 0); discriminate. }
      injection Hb as Hb. apply andb_true_iff in Hb. destruct Hb as [Hne Hyes].
      apply String.eqb_eq in Hyes.
      unfold filterCallback, matchesSearch, matchesCategory, matchesRequired.
      cbn. rewrite Hr. cbn. now rewrite Hne, Hyes.
    + unfold renderRow. cbn [tdItem]. unfold orElse.
      destruct (truthy (item it)); [reflexivity|]. intros H. now contradiction H.
    + unfold renderRow. cbn [tdQuantity]. unfold orElse. intros H0 He.
      destruct (quantity it) as [| |n|s]; try reflexivity.
      * simpl. destruct (Z.eqb_spec n 0); [subst; now contradiction H0 | reflexivity].
      * destruct s; [now contradiction He | reflexivity].
Qed.

Lemma item_page_agrees_sample :
  filterCallback (mkControls "" "" true) (transformItem hallWithText) = Some true.
Proof.
  destruct (Detail.populateMetadata (transformItem hallWithText)) as [m|] eqn:E;
    [|discriminate E].
  refine (proj1 (proj2 (item_page_agrees_with_row (transformItem hallWithText)) m E) _).
  injection E as <-. reflexivity.
Defined.
